(** * engine/api/application_import.go: the application import handler

    A shallow embedding of [importApplicationHandler].  The handler is a
    sequential Go function that talks to a database handle [db], to one
    transaction [tx] opened on it, and to a buffered channel [msgChan]
    drained by one goroutine.  The embedding threads an explicit [State]
    (committed rows, the transaction's pending rows, the messages sent
    on the channel, the log of collaborator calls) through a small monad
    with early [return].  Every function of another package is a field
    of [Collaborators]: its body is not part of this file of the
    repository, so the theorems quantify over it. *)

From Stdlib Require Import List String ZArith Bool Lia.
Import ListNotations.
Local Open Scope string_scope.
Local Open Scope Z_scope.
Local Open Scope list_scope.

(** ** The sdk data model, as far as the handler reads it *)

Record Pipeline := { Pipeline_ID : Z; Pipeline_Name : string }.

Record Environment := { Environment_ID : Z; Environment_Name : string }.

Record Group := { Group_ID : Z; Group_Name : string }.

Record GroupPermission := { Group_of : Group; Permission : Z }.

(** [t.SrcEnvironment.Name], [t.DestApplication.Name] and
    [t.DestEnvironment.Name] are the only parts of a trigger the handler
    looks at. *)
Record PipelineTrigger := {
  SrcEnvironment_Name : string;
  DestApplication_Name : string;
  DestEnvironment_Name : string }.

Record ApplicationPipeline := {
  AP_Pipeline : Pipeline;
  Triggers : list PipelineTrigger }.

Record Hook := { Hook_Pipeline : Pipeline }.

Record RepositoryPoller := { Poller_Pipeline : Pipeline }.

Record UserNotificationSettings := {
  Notif_Pipeline : Pipeline;
  Notif_Environment : Environment }.

Record RepositoriesManager := { RepositoriesManager_Name : string }.

Record Application := {
  ID : Z;
  Name : string;
  ApplicationGroups : list GroupPermission;
  Pipelines : list ApplicationPipeline;
  Hooks : list Hook;
  RepositoryPollers : list RepositoryPoller;
  Notifications : list UserNotificationSettings;
  App_RepositoriesManager : option RepositoriesManager;
  RepositoryFullname : string }.

Record Project := {
  Project_ID : Z;
  Key : string;
  Environments : list Environment;
  Applications : list Application }.

(** ** Errors *)

(** The [*sdk.Error] values the handler names, and any other one. *)
Inductive sdk_Error :=
| ErrWrongRequest
| ErrApplicationExist
| ErrPipelineNotFound
| ErrApplicationNotFound
| ErrNoEnvironment
| ErrUnlisted (id : Z).

(** A Go [error]: a [*sdk.Error] (the dynamic type line 293 asserts) or a
    value of any other type. *)
Inductive error :=
| SdkError (e : sdk_Error)
| OtherError (descr : string).

Definition result (A : Type) : Type := (error + A)%type.

Definition http_StatusOK : Z := 200.

(** ** Diagnostic messages *)

(** [Msg_zero] is the zero value of [sdk.MessageID]: the identifier of
    the [sdk.Message] a receive on a closed channel yields. *)
Inductive MessageID :=
| Msg_zero
| MsgAppImportPipelineNotFound
| MsgAppImportAppNotFound
| MsgAppImportEnvNotFound
| MsgHookCreated
| MsgPollerCreated
| MsgUnlisted (id : Z).

(** An argument of [sdk.NewMessage]: a string, or the address of one
    (lines 195 and 222 pass [&h.Pipeline.Name]). *)
Inductive Arg :=
| ArgString (s : string)
| ArgStringPtr (s : string).

Record Message := { Message_ID : MessageID; Args : list Arg }.

Definition sdk_NewMessage (id : MessageID) (args : list Arg) : Message :=
  {| Message_ID := id; Args := args |}.

Definition zero_Message : Message := {| Message_ID := Msg_zero; Args := [] |}.

(** ** The store *)

Inductive Row :=
| ApplicationRow (projectID : Z) (name : string)
| PipelineRow (projectID : Z) (p : Pipeline)
| EnvironmentRow (projectKey : string) (e : Environment)
| HookRow (projectKey : string) (application : string) (p : Pipeline)
| PollerRow (application : string) (p : Pipeline)
| NotificationRow (appID pipID envID : Z)
| ProjectModifiedRow (projectKey : string)
| WarningRow (application : string).

(** Which handle a collaborator is given: the database itself or the
    transaction. *)
Inductive Executor := ViaDb | ViaTx.

(** One entry per call into another package, in program order. *)
Inductive Call :=
| CallProjectLoad (key : string)
| CallLoadGroupByProject
| CallReadAll
| CallGetFormat (format : string)
| CallUnmarshal
| CallApplicationExists (ex : Executor) (name : string)
| CallPayloadApplication
| CallLoadGroup (name : string)
| CallBegin
| CallRollback
| CallExistPipeline (ex : Executor) (name : string)
| CallEnvironmentExists (ex : Executor) (name : string)
| CallImport (ex : Executor)
| CallCreateHook (ex : Executor) (p : Pipeline)
| CallPollerInsert (ex : Executor) (p : Pipeline)
| CallNotificationInsert (ex : Executor) (pipID envID : Z)
| CallUpdateLastModified (ex : Executor)
| CallCommit
| CallLoadAll (ex : Executor)
| CallCheckApplication (ex : Executor).

Record State := {
  committed : list Row;
  pending : option (list Row);
  msgChan : list Message;
  closed : bool;
  calls : list Call }.

(** What the handler hands back to the router. *)
Inductive Response :=
| WriteJSON (data : list string) (status : Z)
| ReturnError (e : error)
| ReturnWrapError (cause : option error) (format : string).

(** ** The request and the decoded payload *)

Inductive Format := FormatJSON | FormatYAML | FormatHCL | FormatUnlisted.

(** [exportentities.Application]: its [Name], and the rest of it as the
    text it was decoded from. *)
Record Payload := { Payload_Name : string; Payload_Rest : string }.

Definition zero_Payload : Payload := {| Payload_Name := ""; Payload_Rest := "" |}.

Record Request := {
  permProjectKey : string;
  FormValue_format : string;
  FormBool_forceUpdate : bool;
  Body : result string;
  Header_AcceptLanguage : string }.

(** ** Collaborators

    Every function below belongs to another package.  A collaborator
    that reads or writes the store receives the rows its handle sees;
    one that writes returns the rows it adds.  [application_Import]
    receives [app] by pointer and the channel, so its result carries the
    application as it leaves it and the messages it sent, also when it
    fails. *)
Record ImportResult := {
  Import_err : option error;
  Import_app : Application;
  Import_msgs : list Message;
  Import_rows : list Row }.

Record Collaborators := {
  DefaultEnv : Environment;
  Status : sdk_Error -> Z;
  Message_String : Message -> string -> string;
  project_Load : list Row -> string -> result Project;
  group_LoadGroupByProject : list Row -> Project -> result Project;
  exportentities_GetFormat : string -> result Format;
  hcl_Unmarshal : string -> result Payload;
  yaml_Unmarshal : string -> result Payload;
  application_Exists : list Row -> Z -> string -> result bool;
  Payload_Application : Payload -> result Application;
  group_LoadGroup : list Row -> string -> result Group;
  db_Begin : list Row -> option error;
  pipeline_ExistPipeline : list Row -> Z -> string -> result bool;
  environment_Exists : list Row -> string -> string -> result bool;
  application_Import : list Row -> Project -> Application -> ImportResult;
  hook_CreateHook :
    list Row -> string -> RepositoriesManager -> string -> Application ->
    Pipeline -> result (list Row);
  poller_Insert : list Row -> Application -> Pipeline -> result (list Row);
  notification_InsertOrUpdateUserNotificationSettings :
    list Row -> Z -> Z -> Z -> UserNotificationSettings -> result (list Row);
  project_UpdateLastModified : list Row -> Project -> result (list Row);
  tx_Commit : list Row -> list Row -> option error;
  application_LoadAll : list Row -> string -> result (list Application);
  sanity_CheckApplication : list Row -> Project -> Application -> result (list Row) }.

(** ** The handler monad: state passing with early return *)

Inductive Flow (A : Type) : Type :=
| Continue (a : A)
| Return (r : Response).
Arguments Continue {A} a.
Arguments Return {A} r.

Definition Handler (A : Type) : Type := State -> Flow A * State.

Definition ret {A} (a : A) : Handler A := fun s => (Continue a, s).

Definition bind {A B} (m : Handler A) (k : A -> Handler B) : Handler B :=
  fun s =>
    match m s with
    | (Continue a, s') => k a s'
    | (Return r, s') => (Return r, s')
    end.

Definition exit {A} (r : Response) : Handler A := fun s => (Return r, s).

Declare Scope handler_scope.
Delimit Scope handler_scope with handler.
Notation "x <- m ;; k" := (bind m (fun x => k))
  (at level 61, m at next level, right associativity) : handler_scope.
Notation "m ;; k" := (bind m (fun _ => k))
  (at level 61, right associativity) : handler_scope.
Local Open Scope handler_scope.

(** The rows a handle sees: the transaction reads its own writes. *)
Definition visible (ex : Executor) (s : State) : list Row :=
  match ex with
  | ViaDb => committed s
  | ViaTx => committed s ++ match pending s with Some rows => rows | None => [] end
  end.

Definition log (k : Call) : Handler unit :=
  fun s => (Continue tt,
            {| committed := committed s; pending := pending s;
               msgChan := msgChan s; closed := closed s;
               calls := calls s ++ [k] |}).

(** Rows written through [db] are durable at once; rows written through
    [tx] wait for the commit.  (No write goes through [tx] while no
    transaction is open; such a write would be lost.) *)
Definition write (ex : Executor) (rows : list Row) : Handler unit :=
  fun s => (Continue tt,
            match ex with
            | ViaDb =>
                {| committed := committed s ++ rows; pending := pending s;
                   msgChan := msgChan s; closed := closed s; calls := calls s |}
            | ViaTx =>
                {| committed := committed s;
                   pending := match pending s with
                              | Some p => Some (p ++ rows)
                              | None => None
                              end;
                   msgChan := msgChan s; closed := closed s; calls := calls s |}
            end).

(** [msgChan <- m] *)
Definition send (m : Message) : Handler unit :=
  fun s => (Continue tt,
            {| committed := committed s; pending := pending s;
               msgChan := msgChan s ++ [m]; closed := closed s;
               calls := calls s |}).

Fixpoint send_all (ms : list Message) : Handler unit :=
  match ms with
  | [] => ret tt
  | m :: ms' => send m ;; send_all ms'
  end.

(** [close(msgChan)] *)
Definition close_msgChan : Handler unit :=
  fun s => (Continue tt,
            {| committed := committed s; pending := pending s;
               msgChan := msgChan s; closed := true; calls := calls s |}).

(** A call of a collaborator that answers with [(value, err)]: the
    [if err != nil { return ... }] that follows it is [onErr]. *)
Definition query {A} (ex : Executor) (k : Call) (f : list Row -> result A)
    (onErr : error -> Response) : Handler A :=
  log k ;;
  fun s =>
    match f (visible ex s) with
    | inl e => (Return (onErr e), s)
    | inr a => (Continue a, s)
    end.

(** A call of a collaborator that inserts: on success its rows go to the
    handle it was given. *)
Definition insert (ex : Executor) (k : Call) (f : list Row -> result (list Row))
    (onErr : error -> Response) : Handler unit :=
  rows <- query ex k f onErr ;;
  write ex rows.

(** [db.Begin()] *)
Definition Begin (c : Collaborators) : Handler unit :=
  log CallBegin ;;
  fun s =>
    match db_Begin c (committed s) with
    | Some e =>
        (Return (ReturnWrapError (Some e)
                   "importApplicationHandler> Cannot start transaction"), s)
    | None =>
        (Continue tt,
         {| committed := committed s; pending := Some [];
            msgChan := msgChan s; closed := closed s; calls := calls s |})
    end.

(** [tx.Rollback()]: drops the pending rows; on a transaction that is
    already committed there is nothing left to drop. *)
Definition Rollback (s : State) : State :=
  {| committed := committed s; pending := None;
     msgChan := msgChan s; closed := closed s;
     calls := calls s ++ [CallRollback] |}.

(** [defer tx.Rollback()]: runs on every way out of the rest of the
    function. *)
Definition defer_Rollback {A} (body : Handler A) : Handler A :=
  fun s => let (out, s') := body s in (out, Rollback s').

(** [tx.Commit()] *)
Definition Commit (c : Collaborators) : Handler unit :=
  log CallCommit ;;
  fun s =>
    let rows := match pending s with Some p => p | None => [] end in
    match tx_Commit c (committed s) rows with
    | Some e =>
        (Return (ReturnWrapError (Some e)
                   "importPipelineHandler> Cannot commit transaction"), s)
    | None =>
        (Continue tt,
         {| committed := committed s ++ rows; pending := None;
            msgChan := msgChan s; closed := closed s; calls := calls s |})
    end.

(** ** The message aggregator (lines 94-107 and 269-288) *)

(** What [msg, ok := <-msgChan] yields over the life of the channel:
    each message sent, with [ok = true], then, once the channel is
    closed and empty, the zero message with [ok = false]. *)
Definition receives (sent : list Message) (is_closed : bool) : list (Message * bool) :=
  map (fun m => (m, true)) sent ++ (if is_closed then [(zero_Message, false)] else []).

(** The goroutine of lines 98-107: append first, test [ok] after. *)
Fixpoint consumer (allMsg : list Message) (rcv : list (Message * bool)) : list Message :=
  match rcv with
  | [] => allMsg
  | (msg, ok) :: rest =>
      let allMsg := allMsg ++ [msg] in
      if negb ok then allMsg else consumer allMsg rest
  end.

(** Lines 279-283: the scan of [msgListString] for [s]. *)
Fixpoint msgFound (msgListString : list string) (s : string) (found : bool) : bool :=
  match msgListString with
  | [] => found
  | os :: rest => msgFound rest s (if String.eqb os s then true else found)
  end.

(** Lines 275-288: render every message and keep the new, non-empty texts. *)
Fixpoint render (String_ : Message -> string -> string) (al : string)
    (allMsg : list Message) (msgListString : list string) : list string :=
  match allMsg with
  | [] => msgListString
  | m :: rest =>
      let s := String_ m al in
      if negb (String.eqb s "") then
        if negb (msgFound msgListString s false)
        then render String_ al rest (msgListString ++ [s])
        else render String_ al rest msgListString
      else render String_ al rest msgListString
  end.

(** [close(msgChan); <-done] and the rendering loop: the list the
    handler writes out. *)
Definition drain_and_render (c : Collaborators) (al : string) : Handler (list string) :=
  close_msgChan ;;
  fun s =>
    let allMsg := consumer [] (receives (msgChan s) (closed s)) in
    (Continue (render (Message_String c) al allMsg []), s).

(** ** Lines 84-96: permission groups and the channel *)

Fixpoint loadGroups (c : Collaborators) (gs : list GroupPermission)
    : Handler (list GroupPermission) :=
  match gs with
  | [] => ret []
  | eg :: rest =>
      g <- query ViaDb (CallLoadGroup (Group_Name (Group_of eg)))
             (fun rows => group_LoadGroup c rows (Group_Name (Group_of eg)))
             (fun errg => ReturnWrapError (Some errg)
                "importApplicationHandler> Error loading groups for permission") ;;
      rest' <- loadGroups c rest ;;
      ret ({| Group_of := g; Permission := Permission eg |} :: rest')
  end.

Definition with_groups (app : Application) (gs : list GroupPermission) : Application :=
  {| ID := ID app; Name := Name app; ApplicationGroups := gs;
     Pipelines := Pipelines app; Hooks := Hooks app;
     RepositoryPollers := RepositoryPollers app;
     Notifications := Notifications app;
     App_RepositoriesManager := App_RepositoriesManager app;
     RepositoryFullname := RepositoryFullname app |}.

(** [msgChan := make(chan sdk.Message, 1)] *)
Definition make_msgChan : Handler unit :=
  fun s => (Continue tt,
            {| committed := committed s; pending := pending s;
               msgChan := []; closed := false; calls := calls s |}).

(** ** Lines 122-168: the reference validator *)

(** Lines 134-166, one trigger. *)
Definition checkTrigger (c : Collaborators) (proj : Project) (app : Application)
    (t : PipelineTrigger) (globalError : option error) : Handler (option error) :=
  globalError <-
    (if negb (String.eqb (DestApplication_Name t) (Name app)) then
       ok <- query ViaTx (CallApplicationExists ViaTx (DestApplication_Name t))
               (fun rows => application_Exists c rows (Project_ID proj) (DestApplication_Name t))
               (fun _ => ReturnWrapError None
                  "importApplicationHandler> Unable to check application %s") ;;
       if negb ok then
         send (sdk_NewMessage MsgAppImportAppNotFound [ArgString (DestApplication_Name t)]) ;;
         ret (Some (SdkError ErrApplicationNotFound))
       else ret globalError
     else ret globalError) ;;
  globalError <-
    (if negb (String.eqb (SrcEnvironment_Name t) (Environment_Name (DefaultEnv c))) then
       ok <- query ViaTx (CallEnvironmentExists ViaTx (SrcEnvironment_Name t))
               (fun rows => environment_Exists c rows (Key proj) (SrcEnvironment_Name t))
               (fun _ => ReturnWrapError None
                  "importApplicationHandler> Unable to check env %s") ;;
       if negb ok then
         send (sdk_NewMessage MsgAppImportEnvNotFound [ArgString (SrcEnvironment_Name t)]) ;;
         ret (Some (SdkError ErrNoEnvironment))
       else ret globalError
     else ret globalError) ;;
  (if negb (String.eqb (DestEnvironment_Name t) (Environment_Name (DefaultEnv c))) then
     ok <- query ViaTx (CallEnvironmentExists ViaTx (DestEnvironment_Name t))
             (fun rows => environment_Exists c rows (Key proj) (DestEnvironment_Name t))
             (fun _ => ReturnWrapError None
                "importApplicationHandler> Unable to check env %s") ;;
     if negb ok then
       send (sdk_NewMessage MsgAppImportEnvNotFound [ArgString (DestEnvironment_Name t)]) ;;
       ret (Some (SdkError ErrNoEnvironment))
     else ret globalError
   else ret globalError).

Fixpoint checkTriggers (c : Collaborators) (proj : Project) (app : Application)
    (ts : list PipelineTrigger) (globalError : option error) : Handler (option error) :=
  match ts with
  | [] => ret globalError
  | t :: rest =>
      globalError <- checkTrigger c proj app t globalError ;;
      checkTriggers c proj app rest globalError
  end.

(** Lines 123-168: every pipeline usage, then its triggers. *)
Fixpoint checkPipelines (c : Collaborators) (proj : Project) (app : Application)
    (ps : list ApplicationPipeline) (globalError : option error) : Handler (option error) :=
  match ps with
  | [] => ret globalError
  | p :: rest =>
      ok <- query ViaTx (CallExistPipeline ViaTx (Pipeline_Name (AP_Pipeline p)))
              (fun rows => pipeline_ExistPipeline c rows (Project_ID proj)
                             (Pipeline_Name (AP_Pipeline p)))
              (fun _ => ReturnWrapError None
                 "importApplicationHandler> Unable to check pipeline %s") ;;
      globalError <-
        (if negb ok then
           send (sdk_NewMessage MsgAppImportPipelineNotFound
                   [ArgString (Pipeline_Name (AP_Pipeline p))]) ;;
           ret (Some (SdkError ErrPipelineNotFound))
         else ret globalError) ;;
      globalError <- checkTriggers c proj app (Triggers p) globalError ;;
      checkPipelines c proj app rest globalError
  end.

(** ** Lines 170-262: the transactional applier *)

(** Line 174: [application.Import(tx, proj, app, ..., msgChan)]. *)
Definition coreImport (c : Collaborators) (proj : Project) (app : Application)
    : Handler (option error * Application) :=
  log (CallImport ViaTx) ;;
  fun s =>
    let r := application_Import c (visible ViaTx s) proj app in
    (send_all (Import_msgs r) ;;
     write ViaTx (Import_rows r) ;;
     ret (Import_err r, Import_app r)) s.

(** Lines 180-185 and 201-206: the first pipeline usage of the same name
    replaces the hook's or poller's pipeline. *)
Fixpoint resolvePipeline (pipelines : list ApplicationPipeline) (h : Pipeline) : Pipeline :=
  match pipelines with
  | [] => h
  | p :: rest =>
      if String.eqb (Pipeline_Name (AP_Pipeline p)) (Pipeline_Name h)
      then AP_Pipeline p
      else resolvePipeline rest h
  end.

(** Lines 179-197. *)
Fixpoint manageHooks (c : Collaborators) (proj : Project) (app : Application)
    (rm : RepositoriesManager) (hooks : list Hook) : Handler unit :=
  match hooks with
  | [] => ret tt
  | h :: rest =>
      let hp := resolvePipeline (Pipelines app) (Hook_Pipeline h) in
      if Pipeline_ID hp =? 0 then
        send (sdk_NewMessage MsgAppImportPipelineNotFound [ArgString (Pipeline_Name hp)]) ;;
        exit (ReturnWrapError (Some (SdkError ErrPipelineNotFound))
                "importApplicationHandler> Pipeline not found for hook %s")
      else
        insert ViaDb (CallCreateHook ViaDb hp)
          (fun rows => hook_CreateHook c rows (Key proj) rm (RepositoryFullname app) app hp)
          (fun err => ReturnWrapError (Some err)
             "importApplicationHandler> Unable to insert hook on application %s/%s on pipeline %s") ;;
        send (sdk_NewMessage MsgHookCreated
                [ArgString (RepositoryFullname app); ArgStringPtr (Pipeline_Name hp)]) ;;
        manageHooks c proj app rm rest
  end.

(** Lines 200-224. *)
Fixpoint managePollers (c : Collaborators) (proj : Project) (app : Application)
    (pollers : list RepositoryPoller) : Handler unit :=
  match pollers with
  | [] => ret tt
  | h :: rest =>
      let hp := resolvePipeline (Pipelines app) (Poller_Pipeline h) in
      if Pipeline_ID hp =? 0 then
        send (sdk_NewMessage MsgAppImportPipelineNotFound [ArgString (Pipeline_Name hp)]) ;;
        exit (ReturnWrapError (Some (SdkError ErrPipelineNotFound))
                "importApplicationHandler> Pipeline %s not found")
      else
        insert ViaDb (CallPollerInsert ViaDb hp)
          (fun rows => poller_Insert c rows app hp)
          (fun err => ReturnWrapError (Some err)
             "importApplicationHandler> Unable to insert poller on application %s/%s on pipeline %s") ;;
        send (sdk_NewMessage MsgPollerCreated
                [ArgString (RepositoryFullname app); ArgStringPtr (Pipeline_Name hp)]) ;;
        managePollers c proj app rest
  end.

(** Lines 231-236: [pipID], zero when no usage has the name. *)
Fixpoint lookupPipelineID (pipelines : list ApplicationPipeline) (name : string) : Z :=
  match pipelines with
  | [] => 0
  | p :: rest =>
      if String.eqb (Pipeline_Name (AP_Pipeline p)) name
      then Pipeline_ID (AP_Pipeline p)
      else lookupPipelineID rest name
  end.

(** Lines 242-247: [envID], zero when the project has no such environment. *)
Fixpoint lookupEnvironmentID (envs : list Environment) (name : string) : Z :=
  match envs with
  | [] => 0
  | e :: rest =>
      if String.eqb (Environment_Name e) name
      then Environment_ID e
      else lookupEnvironmentID rest name
  end.

(** Lines 238-248: the environment of a notification and its identifier. *)
Definition resolveEnvironment (c : Collaborators) (proj : Project)
    (notif : UserNotificationSettings) : UserNotificationSettings * Z :=
  if String.eqb (Environment_Name (Notif_Environment notif)) ""
     || String.eqb (Environment_Name (Notif_Environment notif))
                   (Environment_Name (DefaultEnv c))
  then ({| Notif_Pipeline := Notif_Pipeline notif; Notif_Environment := DefaultEnv c |},
        Environment_ID (DefaultEnv c))
  else (notif,
        lookupEnvironmentID (Environments proj)
          (Environment_Name (Notif_Environment notif))).

(** Lines 228-261.  (Line 229 prints the notification on standard
    output, which the handler's caller never sees.) *)
Fixpoint manageNotifications (c : Collaborators) (proj : Project) (app : Application)
    (notifs : list UserNotificationSettings) : Handler unit :=
  match notifs with
  | [] => ret tt
  | notif :: rest =>
      let pipID := lookupPipelineID (Pipelines app) (Pipeline_Name (Notif_Pipeline notif)) in
      let (notif', envID) := resolveEnvironment c proj notif in
      if pipID =? 0 then
        exit (ReturnWrapError (Some (SdkError ErrPipelineNotFound))
                "importApplicationHandler> Pipeline %s not found for notification %+v")
      else if envID =? 0 then
        exit (ReturnWrapError (Some (SdkError ErrNoEnvironment))
                "importApplicationHandler> Environment %s not found for notification %+v")
      else
        insert ViaTx (CallNotificationInsert ViaTx pipID envID)
          (fun rows => notification_InsertOrUpdateUserNotificationSettings c rows
                         (ID app) pipID envID notif')
          (fun err => ReturnWrapError (Some err)
             "importApplicationHandler> Unable to insert notification on application %s/%s on pipeline %s") ;;
        manageNotifications c proj app rest
  end.

(** Lines 177-262, entered with [globalError == nil] after the core
    step: hooks and pollers when the descriptor has a repositories
    manager, then notifications. *)
Definition manage (c : Collaborators) (proj : Project) (app : Application)
    : Handler unit :=
  match App_RepositoriesManager app with
  | Some rm =>
      manageHooks c proj app rm (Hooks app) ;;
      managePollers c proj app (RepositoryPollers app)
  | None => ret tt
  end ;;
  manageNotifications c proj app (Notifications app).

(** Lines 171-262, entered with [globalError == nil].  The branch for an
    application that exists is empty: its one statement is commented
    out (line 172). *)
Definition apply (c : Collaborators) (proj : Project) (app : Application)
    (exist : bool) : Handler (option error * Application) :=
  r <- (if exist then ret (None, app) else coreImport c proj app) ;;
  let globalError := fst r in
  let app := snd r in
  match globalError with
  | Some _ => ret (globalError, app)
  | None => manage c proj app ;; ret (globalError, app)
  end.

(** ** Lines 292-318: the way out *)

Definition with_Applications (proj : Project) (apps : list Application) : Project :=
  {| Project_ID := Project_ID proj; Key := Key proj;
     Environments := Environments proj; Applications := apps |}.

Definition finish (c : Collaborators) (proj : Project) (app : Application)
    (globalError : option error) (msgListString : list string) : Handler Response :=
  match globalError with
  | Some (SdkError myError) => ret (WriteJSON msgListString (Status c myError))
  | Some e =>
      ret (ReturnWrapError (Some e) "importApplicationHandler> Unable import pipeline")
  | None =>
      insert ViaTx (CallUpdateLastModified ViaTx)
        (fun rows => project_UpdateLastModified c rows proj)
        (fun err => ReturnWrapError (Some err)
           "importApplicationHandler> Unable to update project") ;;
      Commit c ;;
      apps <- query ViaDb (CallLoadAll ViaDb)
                (fun rows => application_LoadAll c rows (Key proj))
                (fun errapp => ReturnWrapError (Some errapp)
                   "importPipelineHandler> Unable to reload applications for project %s") ;;
      insert ViaDb (CallCheckApplication ViaDb)
        (fun rows => sanity_CheckApplication c rows (with_Applications proj apps) app)
        (fun err => ReturnWrapError (Some err)
           "importPipelineHandler> Cannot check warnings") ;;
      ret (WriteJSON msgListString http_StatusOK)
  end.

(** ** The handler *)

(** Lines 116-318: everything after [defer tx.Rollback()]. *)
Definition transaction (c : Collaborators) (al : string) (forceUpdate : bool)
    (proj : Project) (app : Application) (exist : bool) : Handler Response :=
  if exist && negb forceUpdate then exit (ReturnError (SdkError ErrApplicationExist))
  else
    globalError <- checkPipelines c proj app (Pipelines app) None ;;
    r <- match globalError with
         | None => apply c proj app exist
         | Some _ => ret (globalError, app)
         end ;;
    msgListString <- drain_and_render c al ;;
    finish c proj (snd r) (fst r) msgListString.

(** Lines 57-65: the decoder is chosen by the format; a format outside
    the three cases leaves the empty payload. *)
Definition parse (c : Collaborators) (f : Format) (data : string) : Handler Payload :=
  match f with
  | FormatJSON | FormatHCL =>
      query ViaDb CallUnmarshal (fun _ => hcl_Unmarshal c data)
        (fun _ => ReturnError (SdkError ErrWrongRequest))
  | FormatYAML =>
      query ViaDb CallUnmarshal (fun _ => yaml_Unmarshal c data)
        (fun _ => ReturnError (SdkError ErrWrongRequest))
  | FormatUnlisted => ret zero_Payload
  end.

(** Lines 30-96: everything before [db.Begin()].  It yields the project,
    the application with its groups loaded, and the answer of the
    existence probe. *)
Definition prelude (c : Collaborators) (r : Request)
    : Handler (Project * Application * bool) :=
  let key := permProjectKey r in
  let format := FormValue_format r in
  proj <- query ViaDb (CallProjectLoad key) (fun rows => project_Load c rows key)
            (fun errp => ReturnWrapError (Some errp)
               "importApplicationHandler> Unable to load project %s") ;;
  proj <- query ViaDb CallLoadGroupByProject
            (fun rows => group_LoadGroupByProject c rows proj)
            (fun _ => ReturnWrapError None
               "importApplicationHandler> Unable to load project permissions %s") ;;
  data <- query ViaDb CallReadAll (fun _ => Body r)
            (fun _ => ReturnWrapError (Some (SdkError ErrWrongRequest))
               "importApplicationHandler> Unable to read body") ;;
  f <- query ViaDb (CallGetFormat format) (fun _ => exportentities_GetFormat c format)
         (fun _ => ReturnWrapError (Some (SdkError ErrWrongRequest))
            "importApplicationHandler> Unable to get format : %s") ;;
  payload <- parse c f data ;;
  exist <- query ViaDb (CallApplicationExists ViaDb (Payload_Name payload))
             (fun rows => application_Exists c rows (Project_ID proj) (Payload_Name payload))
             (fun errE => ReturnWrapError (Some errE)
                "importApplicationHandler> Unable to check if application %s exists") ;;
  app <- query ViaDb CallPayloadApplication (fun _ => Payload_Application c payload)
           (fun errP => ReturnWrapError (Some errP)
              "importApplicationHandler> Unable to parse application %s") ;;
  gs <- loadGroups c (ApplicationGroups app) ;;
  make_msgChan ;;
  ret (proj, with_groups app gs, exist).

Definition importApplicationHandler (c : Collaborators) (r : Request) : Handler Response :=
  x <- prelude c r ;;
  Begin c ;;
  defer_Rollback
    (transaction c (Header_AcceptLanguage r) (FormBool_forceUpdate r)
       (fst (fst x)) (snd (fst x)) (snd x)).

(** What the caller gets, and the state the call leaves. *)
Definition run (h : Handler Response) (s : State) : Response * State :=
  match h s with
  | (Continue r, s') => (r, s')
  | (Return r, s') => (r, s')
  end.

(** The state in which a request arrives: the rows of the database, no
    transaction, no channel yet, an empty log. *)
Definition arrival (db : list Row) : State :=
  {| committed := db; pending := None; msgChan := []; closed := false; calls := [] |}.

(** ** The channel and its two goroutines as a transition system

    The handler is the only sender and the goroutine of lines 98-107 the
    only receiver.  [to_send] is what the handler has yet to send,
    [buffer] the channel's buffer (capacity 1), [allMsg] the receiver's
    slice, [done] whether the receiver has left its loop. *)
Record Chan := {
  to_send : list Message;
  chan_closed : bool;
  buffer : list Message;
  allMsg : list Message;
  done : bool }.

Definition chan_capacity : nat := 1.

Inductive chan_step : Chan -> Chan -> Prop :=
| step_send m rest buf all :
    (List.length buf < chan_capacity)%nat ->
    chan_step
      {| to_send := m :: rest; chan_closed := false; buffer := buf;
         allMsg := all; done := false |}
      {| to_send := rest; chan_closed := false; buffer := buf ++ [m];
         allMsg := all; done := false |}
| step_close buf all d :
    chan_step
      {| to_send := []; chan_closed := false; buffer := buf;
         allMsg := all; done := d |}
      {| to_send := []; chan_closed := true; buffer := buf;
         allMsg := all; done := d |}
| step_receive ts cl m buf all :
    chan_step
      {| to_send := ts; chan_closed := cl; buffer := m :: buf;
         allMsg := all; done := false |}
      {| to_send := ts; chan_closed := cl; buffer := buf;
         allMsg := all ++ [m]; done := false |}
| step_receive_closed ts all :
    chan_step
      {| to_send := ts; chan_closed := true; buffer := [];
         allMsg := all; done := false |}
      {| to_send := ts; chan_closed := true; buffer := [];
         allMsg := all ++ [zero_Message]; done := true |}.

Inductive chan_steps : Chan -> Chan -> Prop :=
| steps_refl x : chan_steps x x
| steps_cons x y z : chan_step x y -> chan_steps y z -> chan_steps x z.

Definition chan_start (msgs : list Message) : Chan :=
  {| to_send := msgs; chan_closed := false; buffer := [];
     allMsg := []; done := false |}.

(** ** What the specification says, as functions of the descriptor *)

(** Section 4.1: the non-empty texts, each at its first occurrence. *)
Fixpoint first_occurrences (texts : list string) : list string :=
  match texts with
  | [] => []
  | s :: rest =>
      s :: filter (fun t => negb (String.eqb s t)) (first_occurrences rest)
  end.

Definition rendered (String_ : Message -> string -> string) (al : string)
    (msgs : list Message) : list string :=
  filter (fun s => negb (String.eqb s "")) (map (fun m => String_ m al) msgs).

(** A lookup that answered "absent". *)
Definition absent (r : result bool) : bool :=
  match r with
  | inr false => true
  | _ => false
  end.

(** Section 4.2, step 2: the references of one trigger that are looked
    up and absent, with the error each stands for, in the order of the
    three bullets. *)
Definition trigger_missing (c : Collaborators) (rows : list Row) (proj : Project)
    (app : Application) (t : PipelineTrigger) : list (Message * sdk_Error) :=
  (if negb (String.eqb (DestApplication_Name t) (Name app))
      && absent (application_Exists c rows (Project_ID proj) (DestApplication_Name t))
   then [(sdk_NewMessage MsgAppImportAppNotFound [ArgString (DestApplication_Name t)],
          ErrApplicationNotFound)]
   else [])
  ++ (if negb (String.eqb (SrcEnvironment_Name t) (Environment_Name (DefaultEnv c)))
         && absent (environment_Exists c rows (Key proj) (SrcEnvironment_Name t))
      then [(sdk_NewMessage MsgAppImportEnvNotFound [ArgString (SrcEnvironment_Name t)],
             ErrNoEnvironment)]
      else [])
  ++ (if negb (String.eqb (DestEnvironment_Name t) (Environment_Name (DefaultEnv c)))
         && absent (environment_Exists c rows (Key proj) (DestEnvironment_Name t))
      then [(sdk_NewMessage MsgAppImportEnvNotFound [ArgString (DestEnvironment_Name t)],
             ErrNoEnvironment)]
      else []).

(** Section 4.2, steps 1 and 2 for one pipeline usage. *)
Definition usage_missing (c : Collaborators) (rows : list Row) (proj : Project)
    (app : Application) (p : ApplicationPipeline) : list (Message * sdk_Error) :=
  (if absent (pipeline_ExistPipeline c rows (Project_ID proj) (Pipeline_Name (AP_Pipeline p)))
   then [(sdk_NewMessage MsgAppImportPipelineNotFound
            [ArgString (Pipeline_Name (AP_Pipeline p))],
          ErrPipelineNotFound)]
   else [])
  ++ flat_map (trigger_missing c rows proj app) (Triggers p).

(** The missing references of a list of usages, in traversal order. *)
Definition missing_references (c : Collaborators) (rows : list Row) (proj : Project)
    (app : Application) (ps : list ApplicationPipeline) : list (Message * sdk_Error) :=
  flat_map (usage_missing c rows proj app) ps.

(** The lookups a complete pass makes for one trigger. *)
Definition trigger_lookups (c : Collaborators) (app : Application)
    (t : PipelineTrigger) : list Call :=
  (if negb (String.eqb (DestApplication_Name t) (Name app))
   then [CallApplicationExists ViaTx (DestApplication_Name t)] else [])
  ++ (if negb (String.eqb (SrcEnvironment_Name t) (Environment_Name (DefaultEnv c)))
      then [CallEnvironmentExists ViaTx (SrcEnvironment_Name t)] else [])
  ++ (if negb (String.eqb (DestEnvironment_Name t) (Environment_Name (DefaultEnv c)))
      then [CallEnvironmentExists ViaTx (DestEnvironment_Name t)] else []).

Definition usage_lookups (c : Collaborators) (app : Application)
    (p : ApplicationPipeline) : list Call :=
  CallExistPipeline ViaTx (Pipeline_Name (AP_Pipeline p))
  :: flat_map (trigger_lookups c app) (Triggers p).

(** The lookups a complete pass over a list of usages makes. *)
Definition all_lookups (c : Collaborators) (app : Application)
    (ps : list ApplicationPipeline) : list Call :=
  flat_map (usage_lookups c app) ps.

(** [globalError] after a pass that found [found]: the error of the
    last missing reference, or what it was before. *)
Definition dominant (globalError : option error) (found : list (Message * sdk_Error))
    : option error :=
  fold_left (fun _ me => Some (SdkError (snd me))) found globalError.

(** The store answers every existence lookup of the validator. *)
Definition lookups_answer (c : Collaborators) (rows : list Row) (proj : Project) : Prop :=
  (forall name, exists b, pipeline_ExistPipeline c rows (Project_ID proj) name = inr b)
  /\ (forall name, exists b, application_Exists c rows (Project_ID proj) name = inr b)
  /\ (forall name, exists b, environment_Exists c rows (Key proj) name = inr b).

(** A state after more messages and more calls, the store untouched. *)
Definition emit (s : State) (msgs : list Message) (ks : list Call) : State :=
  {| committed := committed s; pending := pending s;
     msgChan := msgChan s ++ msgs; closed := closed s;
     calls := calls s ++ ks |}.

(** ** A reference instance of the collaborators, for concrete runs

    A store whose lookups read its rows, whose inserts add one row of
    their kind, and whose core import inserts the application and loads
    the identifier of every pipeline usage from the project. *)

Definition is_application (pid : Z) (name : string) (r : Row) : bool :=
  match r with
  | ApplicationRow p n => (p =? pid) && String.eqb n name
  | _ => false
  end.

Definition is_pipeline (pid : Z) (name : string) (r : Row) : bool :=
  match r with
  | PipelineRow p q => (p =? pid) && String.eqb (Pipeline_Name q) name
  | _ => false
  end.

Definition is_environment (key : string) (name : string) (r : Row) : bool :=
  match r with
  | EnvironmentRow k e => String.eqb k key && String.eqb (Environment_Name e) name
  | _ => false
  end.

Fixpoint environments_of (key : string) (rows : list Row) : list Environment :=
  match rows with
  | [] => []
  | EnvironmentRow k e :: rest =>
      if String.eqb k key then e :: environments_of key rest
      else environments_of key rest
  | _ :: rest => environments_of key rest
  end.

Definition load_usage (rows : list Row) (pid : Z) (p : ApplicationPipeline)
    : ApplicationPipeline :=
  match find (is_pipeline pid (Pipeline_Name (AP_Pipeline p))) rows with
  | Some (PipelineRow _ q) => {| AP_Pipeline := q; Triggers := Triggers p |}
  | _ => p
  end.

Definition MsgAppCreated : MessageID := MsgUnlisted 1.

Definition reference_Import (rows : list Row) (proj : Project) (app : Application)
    : ImportResult :=
  {| Import_err := None;
     Import_app :=
       {| ID := 42; Name := Name app; ApplicationGroups := ApplicationGroups app;
          Pipelines := map (load_usage rows (Project_ID proj)) (Pipelines app);
          Hooks := Hooks app; RepositoryPollers := RepositoryPollers app;
          Notifications := Notifications app;
          App_RepositoriesManager := App_RepositoriesManager app;
          RepositoryFullname := RepositoryFullname app |};
     Import_msgs := [sdk_NewMessage MsgAppCreated [ArgString (Name app)]];
     Import_rows := [ApplicationRow (Project_ID proj) (Name app)] |}.

Definition reference_String (m : Message) (al : string) : string :=
  match Message_ID m, Args m with
  | MsgAppImportPipelineNotFound, [ArgString n] =>
      String.append "Pipeline " (String.append n " not found")
  | MsgAppImportAppNotFound, [ArgString n] =>
      String.append "Application " (String.append n " not found")
  | MsgAppImportEnvNotFound, [ArgString n] =>
      String.append "Environment " (String.append n " not found")
  | MsgHookCreated, [ArgString repo; ArgStringPtr _] =>
      String.append "Hook created on " repo
  | MsgPollerCreated, [ArgString repo; ArgStringPtr _] =>
      String.append "Poller created on " repo
  | MsgUnlisted 1, [ArgString n] =>
      String.append "Application " (String.append n " created")
  | _, _ => ""
  end.

Definition reference_Status (e : sdk_Error) : Z :=
  match e with
  | ErrWrongRequest => 400
  | ErrApplicationExist => 403
  | ErrPipelineNotFound => 404
  | ErrApplicationNotFound => 404
  | ErrNoEnvironment => 404
  | ErrUnlisted _ => 500
  end.

(** [app] is what the request's body decodes to; [hook_fails] makes
    every [hook.CreateHook] fail. *)
Definition reference (app : Application) (hook_fails : bool) : Collaborators :=
  {| DefaultEnv := {| Environment_ID := 1; Environment_Name := "NoEnv" |};
     Status := reference_Status;
     Message_String := reference_String;
     project_Load := fun rows key =>
       inr {| Project_ID := 1; Key := key;
              Environments := environments_of key rows; Applications := [] |};
     group_LoadGroupByProject := fun _ proj => inr proj;
     exportentities_GetFormat := fun format =>
       if String.eqb format "yaml" then inr FormatYAML
       else if String.eqb format "json" then inr FormatJSON
       else if String.eqb format "hcl" then inr FormatHCL
       else inl (OtherError "format is not supported");
     hcl_Unmarshal := fun data =>
       inr {| Payload_Name := Name app; Payload_Rest := data |};
     yaml_Unmarshal := fun data =>
       inr {| Payload_Name := Name app; Payload_Rest := data |};
     application_Exists := fun rows pid name =>
       inr (existsb (is_application pid name) rows);
     Payload_Application := fun _ => inr app;
     group_LoadGroup := fun _ name => inr {| Group_ID := 3; Group_Name := name |};
     db_Begin := fun _ => None;
     pipeline_ExistPipeline := fun rows pid name =>
       inr (existsb (is_pipeline pid name) rows);
     environment_Exists := fun rows key name =>
       inr (existsb (is_environment key name) rows);
     application_Import := reference_Import;
     hook_CreateHook := fun _ key _ _ a p =>
       if hook_fails then inl (OtherError "repositories manager unreachable")
       else inr [HookRow key (Name a) p];
     poller_Insert := fun _ a p => inr [PollerRow (Name a) p];
     notification_InsertOrUpdateUserNotificationSettings :=
       fun _ appID pipID envID _ => inr [NotificationRow appID pipID envID];
     project_UpdateLastModified := fun _ proj => inr [ProjectModifiedRow (Key proj)];
     tx_Commit := fun _ _ => None;
     application_LoadAll := fun _ _ => inr [];
     sanity_CheckApplication := fun _ _ _ => inr [] |}.

Definition build : Pipeline := {| Pipeline_ID := 7; Pipeline_Name := "build" |}.

Definition named (name : string) : Pipeline :=
  {| Pipeline_ID := 0; Pipeline_Name := name |}.

(** A project ["PRJ"] with one pipeline, one environment and one
    application. *)
Definition db0 : list Row :=
  [ PipelineRow 1 build;
    EnvironmentRow "PRJ" {| Environment_ID := 5; Environment_Name := "prod" |};
    ApplicationRow 1 "legacy" ].

Definition request (forceUpdate : bool) : Request :=
  {| permProjectKey := "PRJ"; FormValue_format := "yaml";
     FormBool_forceUpdate := forceUpdate; Body := inr "name: ...";
     Header_AcceptLanguage := "en-US" |}.

Definition descriptor (name : string) (ps : list ApplicationPipeline)
    (hooks : list Hook) (notifs : list UserNotificationSettings) : Application :=
  {| ID := 0; Name := name; ApplicationGroups := [];
     Pipelines := ps; Hooks := hooks; RepositoryPollers := [];
     Notifications := notifs;
     App_RepositoriesManager := Some {| RepositoriesManager_Name := "github" |};
     RepositoryFullname := "acme/web" |}.

Definition usage (name : string) (ts : list PipelineTrigger) : ApplicationPipeline :=
  {| AP_Pipeline := named name; Triggers := ts |}.

(** One usage of "build"; a hook on "build", then a hook on "ghost". *)
Definition two_hooks : Application :=
  descriptor "web" [usage "build" []]
    [ {| Hook_Pipeline := named "build" |}; {| Hook_Pipeline := named "ghost" |} ] [].

(** No usage at all; a hook on the project's pipeline "build". *)
Definition unlisted_hook : Application :=
  descriptor "web" [] [ {| Hook_Pipeline := named "build" |} ] [].

(** One usage of "build" and one hook on it. *)
Definition one_hook : Application :=
  descriptor "web" [usage "build" []] [ {| Hook_Pipeline := named "build" |} ] [].

(** The application the project already has. *)
Definition legacy : Application :=
  descriptor "legacy" [usage "build" []] [] [].

(** The application the project already has, with one usage of "build"
    and one hook on it. *)
Definition legacy_hook : Application :=
  descriptor "legacy" [usage "build" []] [ {| Hook_Pipeline := named "build" |} ] [].

(** A usage of a pipeline the project lacks, with a trigger towards an
    application and an environment it lacks too. *)
Definition dangling : Application :=
  descriptor "web"
    [ usage "ghost"
        [ {| SrcEnvironment_Name := "prod"; DestApplication_Name := "deploy-svc";
             DestEnvironment_Name := "staging" |} ];
      usage "build" [] ] [] [].

(** One usage of "build" and one notification on it for "prod". *)
Definition notified : Application :=
  descriptor "web" [usage "build" []] []
    [ {| Notif_Pipeline := named "build";
         Notif_Environment := {| Environment_ID := 0; Environment_Name := "prod" |} |} ].

(** [unseen acc t]: the text [t] is not yet in the output [acc]. *)
Definition unseen (acc : list string) (t : string) : bool :=
  negb (existsb (fun os => String.eqb os t) acc).

(** What every reachable state of the channel satisfies, for the
    messages [msgs] the handler set out to send. *)
Definition chan_inv (msgs : list Message) (x : Chan) : Prop :=
  (chan_closed x = true -> to_send x = [])
  /\ (done x = false -> allMsg x ++ buffer x ++ to_send x = msgs)
  /\ (done x = true -> allMsg x = msgs ++ [zero_Message]).

(** ** Predicates on handlers *)

(** Every call [m] adds to the log satisfies [P]. *)
Definition logs {A} (P : Call -> Prop) (m : Handler A) : Prop :=
  forall s out s', m s = (out, s') ->
    exists ks, calls s' = calls s ++ ks /\ Forall P ks.

(** [m] never leaves early through [WriteJSON]. *)
Definition plain_returns {A} (m : Handler A) : Prop :=
  forall s r s', m s = (Return r, s') -> forall body st, r <> WriteJSON body st.

(** [m] leaves the channel as it found it. *)
Definition silent {A} (m : Handler A) : Prop :=
  forall s out s', m s = (out, s') ->
    msgChan s' = msgChan s /\ closed s' = closed s.

(** [m] writes nothing: neither committed nor pending rows change. *)
Definition reads_only {A} (m : Handler A) : Prop :=
  forall s out s', m s = (out, s') ->
    committed s' = committed s /\ pending s' = pending s.

(** Every value [m] continues with satisfies [Q]. *)
Definition yields {A} (Q : A -> Prop) (m : Handler A) : Prop :=
  forall s a s', m s = (Continue a, s') -> Q a.

(** A call that neither probes for an application nor opens a
    transaction. *)
Definition quiet (k : Call) : Prop :=
  k <> CallBegin /\ forall ex name, k <> CallApplicationExists ex name.

(** [globalError] is nil or a [*sdk.Error]. *)
Definition structured (g : option error) : Prop :=
  g = None \/ exists e, g = Some (SdkError e).

(** A call other than the core import. *)
Definition not_Import (k : Call) : Prop := k <> CallImport ViaTx.

(** The collaborators [c] with another core import. *)
Definition with_Import (c : Collaborators)
    (f : list Row -> Project -> Application -> ImportResult) : Collaborators :=
  {| DefaultEnv := DefaultEnv c;
     Status := Status c;
     Message_String := Message_String c;
     project_Load := project_Load c;
     group_LoadGroupByProject := group_LoadGroupByProject c;
     exportentities_GetFormat := exportentities_GetFormat c;
     hcl_Unmarshal := hcl_Unmarshal c;
     yaml_Unmarshal := yaml_Unmarshal c;
     application_Exists := application_Exists c;
     Payload_Application := Payload_Application c;
     group_LoadGroup := group_LoadGroup c;
     db_Begin := db_Begin c;
     pipeline_ExistPipeline := pipeline_ExistPipeline c;
     environment_Exists := environment_Exists c;
     application_Import := f;
     hook_CreateHook := hook_CreateHook c;
     poller_Insert := poller_Insert c;
     notification_InsertOrUpdateUserNotificationSettings :=
       notification_InsertOrUpdateUserNotificationSettings c;
     project_UpdateLastModified := project_UpdateLastModified c;
     tx_Commit := tx_Commit c;
     application_LoadAll := application_LoadAll c;
     sanity_CheckApplication := sanity_CheckApplication c |}.

(** The state [Begin] leaves when the transaction opens. *)
Definition begun (s : State) : State :=
  {| committed := committed s; pending := Some [];
     msgChan := msgChan s; closed := closed s;
     calls := calls s ++ [CallBegin] |}.

(** The state [close(msgChan)] leaves. *)
Definition after_close (s : State) : State :=
  {| committed := committed s; pending := pending s;
     msgChan := msgChan s; closed := true; calls := calls s |}.

(** ** Relations between the state before and after a handler *)

(** Whatever way [m] ends, the states before and after are related by [R]. *)
Definition relates {A} (R : State -> State -> Prop) (m : Handler A) : Prop :=
  forall s out s', m s = (out, s') -> R s s'.

(** Every early return of [m] satisfies [P]. *)
Definition returns_in {A} (P : Response -> Prop) (m : Handler A) : Prop :=
  forall s r s', m s = (Return r, s') -> P r.

(** The calls lines 30-92 can make. *)
Definition before_Begin (k : Call) : bool :=
  match k with
  | CallProjectLoad _ | CallLoadGroupByProject | CallReadAll | CallGetFormat _
  | CallUnmarshal | CallApplicationExists ViaDb _ | CallPayloadApplication
  | CallLoadGroup _ => true
  | _ => false
  end.

(** What lines 46-65 make of the request: the payload its body decodes
    to under its format, the zero payload when the format is one the
    switch does not list. *)
Definition decodes (c : Collaborators) (r : Request) (payload : Payload) : Prop :=
  exists data f,
    Body r = inr data
    /\ exportentities_GetFormat c (FormValue_format r) = inr f
    /\ match f with
       | FormatJSON | FormatHCL => hcl_Unmarshal c data = inr payload
       | FormatYAML => yaml_Unmarshal c data = inr payload
       | FormatUnlisted => payload = zero_Payload
       end.

(** Line 87 for one entry: its group is the group [group.LoadGroup]
    answers for the name it was decoded with, its permission is kept. *)
Definition loaded (c : Collaborators) (rows : list Row) (eg eg' : GroupPermission) : Prop :=
  Permission eg' = Permission eg
  /\ group_LoadGroup c rows (Group_Name (Group_of eg)) = inr (Group_of eg').

(** The store is untouched and only calls of the prelude were made. *)
Definition prelude_frame (s s' : State) : Prop :=
  committed s' = committed s /\ pending s' = pending s
  /\ exists ks, calls s' = calls s ++ ks /\ forallb before_Begin ks = true.

(** The calls after which rows can be durable: the two inserts that are
    handed [db], the commit, and the sanity check that follows it. *)
Definition db_writer (k : Call) : bool :=
  match k with
  | CallCreateHook ViaDb _ | CallPollerInsert ViaDb _ | CallCommit
  | CallCheckApplication ViaDb => true
  | _ => false
  end.

Definition no_db_writer (ks : list Call) : bool :=
  forallb (fun k => negb (db_writer k)) ks.

(** The committed rows change only if one of [db_writer] was called. *)
Definition db_frame (s s' : State) : Prop :=
  exists ks, calls s' = calls s ++ ks
             /\ (no_db_writer ks = true -> committed s' = committed s).

(** [db_frame], and the channel is neither closed nor reopened. *)
Definition quiet_frame (s s' : State) : Prop :=
  closed s' = closed s /\ db_frame s s'.

(** The calls lines 116-318 can make, each with the handle it is given. *)
Definition in_transaction (k : Call) : bool :=
  match k with
  | CallExistPipeline ViaTx _ | CallApplicationExists ViaTx _
  | CallEnvironmentExists ViaTx _ | CallImport ViaTx
  | CallCreateHook ViaDb _ | CallPollerInsert ViaDb _
  | CallNotificationInsert ViaTx _ _ | CallUpdateLastModified ViaTx
  | CallCommit | CallLoadAll ViaDb | CallCheckApplication ViaDb => true
  | _ => false
  end.

(** Only calls of [in_transaction] were added to the log. *)
Definition logged_in_transaction (s s' : State) : Prop :=
  exists ks, calls s' = calls s ++ ks /\ forallb in_transaction ks = true.

(** An early return that wraps no cause: [sdk.WrapError(nil, ...)]. *)
Definition without_cause (r : Response) : Prop :=
  exists format, r = ReturnWrapError None format.

(** An early return that wraps an error. *)
Definition with_cause (r : Response) : Prop :=
  exists e format, r = ReturnWrapError (Some e) format.

(** The early returns of the prelude. *)
Definition prelude_return (r : Response) : Prop :=
  r = ReturnError (SdkError ErrWrongRequest)
  \/ exists cause format, r = ReturnWrapError cause format.

(** The collaborators [c] with another pipeline lookup. *)
Definition with_ExistPipeline (c : Collaborators)
    (f : list Row -> Z -> string -> result bool) : Collaborators :=
  {| DefaultEnv := DefaultEnv c;
     Status := Status c;
     Message_String := Message_String c;
     project_Load := project_Load c;
     group_LoadGroupByProject := group_LoadGroupByProject c;
     exportentities_GetFormat := exportentities_GetFormat c;
     hcl_Unmarshal := hcl_Unmarshal c;
     yaml_Unmarshal := yaml_Unmarshal c;
     application_Exists := application_Exists c;
     Payload_Application := Payload_Application c;
     group_LoadGroup := group_LoadGroup c;
     db_Begin := db_Begin c;
     pipeline_ExistPipeline := f;
     environment_Exists := environment_Exists c;
     application_Import := application_Import c;
     hook_CreateHook := hook_CreateHook c;
     poller_Insert := poller_Insert c;
     notification_InsertOrUpdateUserNotificationSettings :=
       notification_InsertOrUpdateUserNotificationSettings c;
     project_UpdateLastModified := project_UpdateLastModified c;
     tx_Commit := tx_Commit c;
     application_LoadAll := application_LoadAll c;
     sanity_CheckApplication := sanity_CheckApplication c |}.

(** The collaborators [c] with other [db.Begin()], [application.LoadAll]
    and body decoders. *)
Definition with_faults (c : Collaborators)
    (begin : list Row -> option error)
    (loadAll : list Row -> string -> result (list Application))
    (unmarshal : string -> result Payload) : Collaborators :=
  {| DefaultEnv := DefaultEnv c;
     Status := Status c;
     Message_String := Message_String c;
     project_Load := project_Load c;
     group_LoadGroupByProject := group_LoadGroupByProject c;
     exportentities_GetFormat := exportentities_GetFormat c;
     hcl_Unmarshal := unmarshal;
     yaml_Unmarshal := unmarshal;
     application_Exists := application_Exists c;
     Payload_Application := Payload_Application c;
     group_LoadGroup := group_LoadGroup c;
     db_Begin := begin;
     pipeline_ExistPipeline := pipeline_ExistPipeline c;
     environment_Exists := environment_Exists c;
     application_Import := application_Import c;
     hook_CreateHook := hook_CreateHook c;
     poller_Insert := poller_Insert c;
     notification_InsertOrUpdateUserNotificationSettings :=
       notification_InsertOrUpdateUserNotificationSettings c;
     project_UpdateLastModified := project_UpdateLastModified c;
     tx_Commit := tx_Commit c;
     application_LoadAll := loadAll;
     sanity_CheckApplication := sanity_CheckApplication c |}.

(** One usage of "build" and one notification on it for an environment
    the project lacks. *)
Definition misnotified : Application :=
  descriptor "web" [usage "build" []] []
    [ {| Notif_Pipeline := named "build";
         Notif_Environment := {| Environment_ID := 0; Environment_Name := "qa" |} |} ].

(** The message lines 195 and 222 send for a hook or poller on [p]. *)
Definition created (id : MessageID) (app : Application) (p : Pipeline) : Message :=
  sdk_NewMessage id [ArgString (RepositoryFullname app); ArgStringPtr (Pipeline_Name p)].

(** * Properties *)

(** ** The message aggregator *)

Lemma msgFound_existsb (l : list string) (s : string) (found : bool) :
  msgFound l s found = found || existsb (fun os => String.eqb os s) l.
Proof.
  revert found; induction l as [|os l IH]; intro found; simpl.
  - now rewrite orb_false_r.
  - rewrite IH. destruct (String.eqb os s), found; reflexivity.
Qed.

Lemma unseen_snoc (acc : list string) (s t : string) :
  unseen (acc ++ [s]) t = unseen acc t && negb (String.eqb s t).
Proof.
  unfold unseen. rewrite existsb_app. simpl. rewrite orb_false_r.
  now rewrite negb_orb.
Qed.

Lemma filter_unseen_snoc (acc : list string) (s : string) (l : list string) :
  filter (unseen (acc ++ [s])) l
  = filter (unseen acc) (filter (fun t => negb (String.eqb s t)) l).
Proof.
  induction l as [|t l IH]; simpl; [reflexivity|].
  rewrite unseen_snoc.
  destruct (String.eqb s t); simpl.
  - now rewrite andb_false_r.
  - rewrite andb_true_r. destruct (unseen acc t); now rewrite IH.
Qed.

Lemma filter_unseen_seen (acc : list string) (s : string) (l : list string) :
  existsb (fun os => String.eqb os s) acc = true ->
  filter (unseen acc) (filter (fun t => negb (String.eqb s t)) l)
  = filter (unseen acc) l.
Proof.
  intro Hs. induction l as [|t l IH]; simpl; [reflexivity|].
  destruct (String.eqb s t) eqn:E; simpl.
  - apply String.eqb_eq in E. subst t.
    unfold unseen at 2. rewrite Hs. simpl. exact IH.
  - now rewrite IH.
Qed.

Lemma filter_all {A} (l : list A) : filter (fun _ => true) l = l.
Proof. induction l; simpl; congruence. Qed.

(** The loop with any output so far: it appends the unseen first
    occurrences. *)
Lemma render_from (String_ : Message -> string -> string) (al : string)
    (msgs : list Message) (acc : list string) :
  render String_ al msgs acc
  = acc ++ filter (unseen acc) (first_occurrences (rendered String_ al msgs)).
Proof.
  revert acc; induction msgs as [|m msgs IH]; intro acc.
  - simpl. now rewrite app_nil_r.
  - unfold rendered. simpl.
    destruct (String.eqb (String_ m al) "") eqn:E; simpl.
    + apply IH.
    + rewrite msgFound_existsb. simpl.
      fold (rendered String_ al msgs).
      destruct (existsb (fun os => String.eqb os (String_ m al)) acc) eqn:F; simpl.
      * rewrite IH. unfold unseen at 2. rewrite F. simpl.
        now rewrite filter_unseen_seen.
      * rewrite IH. unfold unseen at 2. rewrite F. simpl.
        rewrite <- app_assoc. simpl. now rewrite filter_unseen_snoc.
Qed.

Lemma render_first_occurrences (String_ : Message -> string -> string) (al : string)
    (msgs : list Message) :
  render String_ al msgs [] = first_occurrences (rendered String_ al msgs).
Proof. rewrite render_from. simpl. apply filter_all. Qed.

Lemma render_app (String_ : Message -> string -> string) (al : string)
    (l1 l2 : list Message) (acc : list string) :
  render String_ al (l1 ++ l2) acc = render String_ al l2 (render String_ al l1 acc).
Proof.
  revert acc; induction l1 as [|m l1 IH]; intro acc; simpl; [reflexivity|].
  destruct (negb (String.eqb (String_ m al) "")); [|apply IH].
  destruct (negb (msgFound acc (String_ m al) false)); apply IH.
Qed.

Lemma first_occurrences_In (l : list string) (s : string) :
  In s (first_occurrences l) <-> In s l.
Proof.
  induction l as [|t l IH]; simpl; [tauto|].
  rewrite filter_In, IH.
  destruct (String.eqb t s) eqn:E.
  - apply String.eqb_eq in E. subst. simpl. tauto.
  - simpl. apply String.eqb_neq in E. tauto.
Qed.

Lemma first_occurrences_NoDup (l : list string) : NoDup (first_occurrences l).
Proof.
  induction l as [|t l IH]; simpl; constructor.
  - rewrite filter_In. intros [_ H]. now rewrite String.eqb_refl in H.
  - now apply NoDup_filter.
Qed.

Lemma filter_twice_absorb (p : string -> bool) (s : string) (l : list string) :
  p s = false ->
  filter p (filter (fun t => negb (String.eqb s t)) l) = filter p l.
Proof.
  intro Hp. induction l as [|t l IH]; simpl; [reflexivity|].
  destruct (String.eqb s t) eqn:E; simpl.
  - apply String.eqb_eq in E. subst t. now rewrite Hp.
  - now rewrite IH.
Qed.

Lemma filter_swap {A} (p q : A -> bool) (l : list A) :
  filter p (filter q l) = filter q (filter p l).
Proof.
  induction l as [|t l IH]; simpl; [reflexivity|].
  destruct (p t) eqn:P, (q t) eqn:Q; simpl; rewrite ?P, ?Q, IH; reflexivity.
Qed.

Lemma first_occurrences_filter (p : string -> bool) (l : list string) :
  filter p (first_occurrences l) = first_occurrences (filter p l).
Proof.
  induction l as [|t l IH]; simpl; [reflexivity|].
  destruct (p t) eqn:P; simpl.
  - now rewrite filter_swap, IH.
  - now rewrite filter_twice_absorb.
Qed.

Lemma first_occurrences_twice (a b c : list string) (x : string) :
  first_occurrences (a ++ x :: b ++ x :: c) = first_occurrences (a ++ x :: b ++ c).
Proof.
  induction a as [|t a IH]; simpl.
  - f_equal. rewrite !first_occurrences_filter. f_equal.
    rewrite !filter_app. simpl. now rewrite String.eqb_refl.
  - now rewrite IH.
Qed.

Lemma rendered_app (String_ : Message -> string -> string) (al : string)
    (l1 l2 : list Message) :
  rendered String_ al (l1 ++ l2) = rendered String_ al l1 ++ rendered String_ al l2.
Proof. unfold rendered. now rewrite map_app, filter_app. Qed.

Lemma rendered_In (String_ : Message -> string -> string) (al : string)
    (msgs : list Message) (s : string) :
  In s (rendered String_ al msgs)
  <-> s <> "" /\ exists m, In m msgs /\ String_ m al = s.
Proof.
  unfold rendered. rewrite filter_In, in_map_iff.
  split.
  - intros [[m [E I]] N]. split.
    + intro Z. subst s. rewrite Z in N. discriminate.
    + now exists m.
  - intros [N [m [I E]]]. split.
    + now exists m.
    + apply String.eqb_neq in N. now rewrite N.
Qed.

(** C7.  The rendering loop of lines 275-288 outputs the non-empty
    rendered texts, each once, in the order of their first occurrences:
    the output is [first_occurrences] of the non-empty renderings, it
    has no duplicate, it holds exactly the non-empty renderings of the
    messages, the output for a prefix of the messages is a prefix of the
    output, and a message emitted a second time changes nothing. *)
Theorem render_dedup_first_occurrence (String_ : Message -> string -> string) (al : string) :
  (forall msgs, render String_ al msgs [] = first_occurrences (rendered String_ al msgs))
  /\ (forall msgs, NoDup (render String_ al msgs []))
  /\ (forall msgs s,
        In s (render String_ al msgs [])
        <-> s <> "" /\ exists m, In m msgs /\ String_ m al = s)
  /\ (forall l1 l2, exists tail,
        render String_ al (l1 ++ l2) [] = render String_ al l1 [] ++ tail)
  /\ (forall l1 m l2 l3,
        render String_ al (l1 ++ m :: l2 ++ m :: l3) []
        = render String_ al (l1 ++ m :: l2 ++ l3) []).
Proof.
  split; [|split; [|split; [|split]]].
  - apply render_first_occurrences.
  - intro msgs. rewrite render_first_occurrences. apply first_occurrences_NoDup.
  - intros msgs s.
    rewrite render_first_occurrences, first_occurrences_In. apply rendered_In.
  - intros l1 l2. rewrite render_app, render_from. eauto.
  - intros l1 m l2 l3. rewrite !render_first_occurrences.
    rewrite !rendered_app.
    change (m :: l2 ++ m :: l3) with ([m] ++ l2 ++ [m] ++ l3).
    change (m :: l2 ++ l3) with ([m] ++ l2 ++ l3).
    rewrite !rendered_app.
    unfold rendered at 2 4 7. simpl.
    destruct (String.eqb (String_ m al) "") eqn:E; simpl.
    + reflexivity.
    + apply first_occurrences_twice.
Qed.

(** ** The channel *)

Lemma consumer_open (sent all : list Message) (tail : list (Message * bool)) :
  consumer all (map (fun m => (m, true)) sent ++ tail) = consumer (all ++ sent) tail.
Proof.
  revert all; induction sent as [|m sent IH]; intro all; simpl.
  - now rewrite app_nil_r.
  - rewrite IH, <- app_assoc. reflexivity.
Qed.

Lemma consumer_closed (sent : list Message) :
  consumer [] (receives sent true) = sent ++ [zero_Message].
Proof. unfold receives. rewrite consumer_open. reflexivity. Qed.

Lemma chan_inv_start (msgs : list Message) : chan_inv msgs (chan_start msgs).
Proof. unfold chan_inv, chan_start; simpl. repeat split; congruence. Qed.

Lemma chan_inv_step (msgs : list Message) (x y : Chan) :
  chan_inv msgs x -> chan_step x y -> chan_inv msgs y.
Proof.
  intros (Hc & Hopen & Hdone) Hstep.
  destruct Hstep; unfold chan_inv in *; simpl in *.
  - repeat split; try congruence.
    intros _. rewrite <- (Hopen eq_refl), <- !app_assoc. reflexivity.
  - repeat split; auto.
  - repeat split; auto; try congruence.
    intros _. rewrite <- (Hopen eq_refl), <- app_assoc. reflexivity.
  - repeat split; auto; try congruence.
    intros _. rewrite <- (Hopen eq_refl), (Hc eq_refl), app_nil_r. reflexivity.
Qed.

Lemma chan_inv_steps (msgs : list Message) (x y : Chan) :
  chan_steps x y -> chan_inv msgs x -> chan_inv msgs y.
Proof.
  induction 1 as [x | x y z Hxy Hyz IH]; intro Hx; [exact Hx|].
  apply IH. eapply chan_inv_step; eauto.
Qed.

(** The schedule in which every send is received at once. *)
Lemma chan_run (msgs all : list Message) :
  chan_steps
    {| to_send := msgs; chan_closed := false; buffer := [];
       allMsg := all; done := false |}
    {| to_send := []; chan_closed := true; buffer := [];
       allMsg := all ++ msgs ++ [zero_Message]; done := true |}.
Proof.
  revert all; induction msgs as [|m msgs IH]; intro all.
  - eapply steps_cons; [apply step_close|].
    eapply steps_cons; [apply step_receive_closed|]. apply steps_refl.
  - eapply steps_cons.
    { apply (step_send m msgs [] all). unfold chan_capacity. simpl. lia. }
    eapply steps_cons; [apply step_receive|].
    specialize (IH (all ++ [m])). rewrite <- app_assoc in IH. exact IH.
Qed.

(** A state that is not final can move: the two goroutines never block
    each other for good. *)
Lemma chan_progress (msgs : list Message) (x : Chan) :
  chan_inv msgs x -> done x = false -> exists y, chan_step x y.
Proof.
  intros (Hc & _ & _) Hd.
  destruct x as [ts cl buf all d]; simpl in *. subst d.
  destruct buf as [|m buf].
  - destruct cl.
    + eexists. apply step_receive_closed.
    + destruct ts as [|m ts].
      * eexists. apply step_close.
      * eexists. apply step_send. unfold chan_capacity. simpl. lia.
  - eexists. apply step_receive.
Qed.

(** C10.  Once the channel is closed after [sent], the goroutine's
    slice is [sent] followed by one zero message, so it has one element
    more than was sent: this is what the receive loop computes, what
    every schedule of the two goroutines that reaches [done] leaves in
    [allMsg], and such a schedule exists.  The rendered output then is
    the output for [sent] alone exactly when the zero message renders to
    the empty text or to a text already in that output. *)
Theorem closed_channel_appends_zero_message
    (String_ : Message -> string -> string) (al : string) (sent : list Message) :
  consumer [] (receives sent true) = sent ++ [zero_Message]
  /\ List.length (consumer [] (receives sent true)) = S (List.length sent)
  /\ (forall final,
        chan_steps (chan_start sent) final -> done final = true ->
        allMsg final = sent ++ [zero_Message])
  /\ (exists final, chan_steps (chan_start sent) final /\ done final = true)
  /\ (render String_ al (consumer [] (receives sent true)) []
      = render String_ al sent []
      <-> String_ zero_Message al = ""
          \/ In (String_ zero_Message al) (render String_ al sent [])).
Proof.
  rewrite consumer_closed.
  split; [reflexivity|].
  split; [rewrite length_app; simpl; lia|].
  split.
  { intros final Hsteps Hdone.
    apply (chan_inv_steps sent) in Hsteps; [|apply chan_inv_start].
    destruct Hsteps as (_ & _ & H). auto. }
  split.
  { eexists. split; [apply (chan_run sent [])|reflexivity]. }
  rewrite render_app. simpl.
  destruct (String.eqb (String_ zero_Message al) "") eqn:E; simpl.
  - apply String.eqb_eq in E. tauto.
  - apply String.eqb_neq in E.
    rewrite msgFound_existsb. simpl.
    destruct (existsb (fun os => String.eqb os (String_ zero_Message al))
                (render String_ al sent [])) eqn:F; simpl.
    + apply existsb_exists in F. destruct F as [t [I Et]].
      apply String.eqb_eq in Et. subst t. tauto.
    + split.
      * intro H. exfalso.
        apply (f_equal (@List.length string)) in H.
        rewrite length_app in H. simpl in H. lia.
      * intros [H|H]; [contradiction|].
        exfalso.
        assert (existsb (fun os => String.eqb os (String_ zero_Message al))
                  (render String_ al sent []) = true) as G.
        { apply existsb_exists. exists (String_ zero_Message al).
          split; [exact H|apply String.eqb_refl]. }
        congruence.
Qed.

(** ** Stepping through the monad *)

Lemma bind_continue {A B} (m : Handler A) (k : A -> Handler B) (s s' : State) (a : A) :
  m s = (Continue a, s') -> bind m k s = k a s'.
Proof. intro H. unfold bind. now rewrite H. Qed.

Lemma bind_return {A B} (m : Handler A) (k : A -> Handler B) (s s' : State) (r : Response) :
  m s = (Return r, s') -> bind m k s = (Return r, s').
Proof. intro H. unfold bind. now rewrite H. Qed.

Lemma bind_ret {A B} (a : A) (k : A -> Handler B) (s : State) :
  bind (ret a) k s = k a s.
Proof. reflexivity. Qed.

Lemma bind_assoc {A B C} (m : Handler A) (k : A -> Handler B) (k' : B -> Handler C)
    (s : State) :
  bind (bind m k) k' s = bind m (fun a => bind (k a) k') s.
Proof. unfold bind. destruct (m s) as [[a|r] s']; reflexivity. Qed.

Lemma emit_nil (s : State) : emit s [] [] = s.
Proof. destruct s. unfold emit. simpl. now rewrite !app_nil_r. Qed.

Lemma emit_emit (s : State) (m1 m2 : list Message) (k1 k2 : list Call) :
  emit (emit s m1 k1) m2 k2 = emit s (m1 ++ m2) (k1 ++ k2).
Proof. unfold emit. simpl. now rewrite !app_assoc. Qed.

Lemma visible_emit (ex : Executor) (s : State) (ms : list Message) (ks : list Call) :
  visible ex (emit s ms ks) = visible ex s.
Proof. destruct ex; reflexivity. Qed.

Lemma log_emit (k : Call) (s : State) : log k s = (Continue tt, emit s [] [k]).
Proof. unfold log, emit. now rewrite app_nil_r. Qed.

Lemma send_emit (m : Message) (s : State) : send m s = (Continue tt, emit s [m] []).
Proof. unfold send, emit. now rewrite app_nil_r. Qed.

Lemma query_answer {A} (ex : Executor) (k : Call) (f : list Row -> result A)
    (onErr : error -> Response) (s : State) (a : A) :
  f (visible ex s) = inr a ->
  query ex k f onErr s = (Continue a, emit s [] [k]).
Proof.
  intro H. unfold query.
  rewrite (bind_continue _ _ _ _ _ (log_emit k s)).
  now rewrite visible_emit, H.
Qed.

Lemma query_error {A} (ex : Executor) (k : Call) (f : list Row -> result A)
    (onErr : error -> Response) (s : State) (e : error) :
  f (visible ex s) = inl e ->
  query ex k f onErr s = (Return (onErr e), emit s [] [k]).
Proof.
  intro H. unfold query.
  rewrite (bind_continue _ _ _ _ _ (log_emit k s)).
  now rewrite visible_emit, H.
Qed.

Lemma dominant_app (g : option error) (l1 l2 : list (Message * sdk_Error)) :
  dominant g (l1 ++ l2) = dominant (dominant g l1) l2.
Proof. unfold dominant. apply fold_left_app. Qed.

(** ** The reference validator *)

(** One guarded existence check, as lines 128-131, 135-144, 146-155 and
    157-166 write it. *)
Lemma guarded_check (guard : bool) (k : Call) (f : list Row -> result bool)
    (onErr : error -> Response) (msg : Message) (e : sdk_Error)
    (g : option error) (s : State) :
  (exists b, f (visible ViaTx s) = inr b) ->
  (if guard then
     ok <- query ViaTx k f onErr ;;
     if negb ok then send msg ;; ret (Some (SdkError e)) else ret g
   else ret g) s
  = (Continue (dominant g (if guard && absent (f (visible ViaTx s))
                           then [(msg, e)] else [])),
     emit s (map fst (if guard && absent (f (visible ViaTx s))
                      then [(msg, e)] else []))
       (if guard then [k] else [])).
Proof.
  intros [b Hb]. rewrite Hb. destruct guard.
  - rewrite (bind_continue _ _ _ _ _ (query_answer _ _ _ _ _ _ Hb)).
    destruct b; cbn [negb andb absent map fst].
    + reflexivity.
    + rewrite (bind_continue _ _ _ _ _ (send_emit _ _)).
      unfold ret. now rewrite emit_emit.
  - unfold ret. cbn [andb map]. now rewrite emit_nil.
Qed.

Lemma checkTrigger_complete (c : Collaborators) (proj : Project) (app : Application)
    (t : PipelineTrigger) (g : option error) (s : State) :
  lookups_answer c (visible ViaTx s) proj ->
  checkTrigger c proj app t g s
  = (Continue (dominant g (trigger_missing c (visible ViaTx s) proj app t)),
     emit s (map fst (trigger_missing c (visible ViaTx s) proj app t))
       (trigger_lookups c app t)).
Proof.
  intros (_ & Happ & Henv). unfold checkTrigger.
  erewrite bind_continue; [|apply guarded_check; apply Happ].
  erewrite bind_continue;
    [|apply guarded_check; rewrite visible_emit; apply Henv].
  rewrite guarded_check; [|rewrite !visible_emit; apply Henv].
  rewrite !visible_emit, !emit_emit.
  unfold trigger_missing, trigger_lookups.
  now rewrite !dominant_app, !map_app.
Qed.

Lemma checkTriggers_complete (c : Collaborators) (proj : Project) (app : Application)
    (ts : list PipelineTrigger) (g : option error) (s : State) :
  lookups_answer c (visible ViaTx s) proj ->
  checkTriggers c proj app ts g s
  = (Continue (dominant g (flat_map (trigger_missing c (visible ViaTx s) proj app) ts)),
     emit s (map fst (flat_map (trigger_missing c (visible ViaTx s) proj app) ts))
       (flat_map (trigger_lookups c app) ts)).
Proof.
  revert g s; induction ts as [|t ts IH]; intros g s Hans;
    cbn [checkTriggers flat_map].
  - unfold ret. cbn [map]. now rewrite emit_nil.
  - erewrite bind_continue; [|apply checkTrigger_complete; exact Hans].
    rewrite IH; rewrite visible_emit; [|exact Hans].
    now rewrite emit_emit, dominant_app, map_app.
Qed.

(** The validator never stops early and never touches the store: it
    makes every lookup of the descriptor, sends one message per missing
    reference, and leaves in [globalError] the error of the last one. *)
Lemma checkPipelines_complete (c : Collaborators) (proj : Project) (app : Application)
    (ps : list ApplicationPipeline) (g : option error) (s : State) :
  lookups_answer c (visible ViaTx s) proj ->
  checkPipelines c proj app ps g s
  = (Continue (dominant g (missing_references c (visible ViaTx s) proj app ps)),
     emit s (map fst (missing_references c (visible ViaTx s) proj app ps))
       (all_lookups c app ps)).
Proof.
  unfold missing_references, all_lookups in *.
  revert g s; induction ps as [|p ps IH]; intros g s Hans;
    cbn [checkPipelines flat_map].
  - unfold ret. cbn [map]. now rewrite emit_nil.
  - pose proof Hans as (Hpip & _ & _).
    destruct (Hpip (Pipeline_Name (AP_Pipeline p))) as [b Hb].
    erewrite bind_continue; [|apply query_answer; exact Hb].
    assert ((if negb b
             then send (sdk_NewMessage MsgAppImportPipelineNotFound
                          [ArgString (Pipeline_Name (AP_Pipeline p))]) ;;
                  ret (Some (SdkError ErrPipelineNotFound))
             else ret g)
              (emit s [] [CallExistPipeline ViaTx (Pipeline_Name (AP_Pipeline p))])
            = (Continue (dominant g (if negb b
                                     then [(sdk_NewMessage MsgAppImportPipelineNotFound
                                              [ArgString (Pipeline_Name (AP_Pipeline p))],
                                            ErrPipelineNotFound)]
                                     else [])),
               emit s (map fst (if negb b
                                then [(sdk_NewMessage MsgAppImportPipelineNotFound
                                         [ArgString (Pipeline_Name (AP_Pipeline p))],
                                       ErrPipelineNotFound)]
                                else []))
                 [CallExistPipeline ViaTx (Pipeline_Name (AP_Pipeline p))])) as Hpipe.
    { destruct b; simpl.
      - reflexivity.
      - rewrite (bind_continue _ _ _ _ _ (send_emit _ _)).
        unfold ret. now rewrite emit_emit. }
    erewrite bind_continue; [|exact Hpipe].
    erewrite bind_continue;
      [|apply checkTriggers_complete; rewrite visible_emit; exact Hans].
    rewrite IH; rewrite !visible_emit; [|exact Hans].
    rewrite !emit_emit.
    unfold usage_missing, usage_lookups. rewrite Hb.
    replace (absent (inr b)) with (negb b) by (destruct b; reflexivity).
    rewrite !dominant_app, !map_app, <- !app_assoc. reflexivity.
Qed.

(** ** Frames: what each part of the handler can and cannot do *)

Lemma logs_ret {A} (P : Call -> Prop) (a : A) : logs P (ret a).
Proof.
  intros s out s' H. inversion H; subst. exists []. now rewrite app_nil_r.
Qed.

Lemma logs_exit {A} (P : Call -> Prop) (r : Response) : logs P (@exit A r).
Proof.
  intros s out s' H. inversion H; subst. exists []. now rewrite app_nil_r.
Qed.

Lemma logs_bind {A B} (P : Call -> Prop) (m : Handler A) (k : A -> Handler B) :
  logs P m -> (forall a, logs P (k a)) -> logs P (bind m k).
Proof.
  intros Hm Hk s out s' H. unfold bind in H.
  destruct (m s) as [[a|r] s1] eqn:E.
  - destruct (Hm _ _ _ E) as (k1 & E1 & F1).
    destruct (Hk a _ _ _ H) as (k2 & E2 & F2).
    exists (k1 ++ k2). rewrite E2, E1, app_assoc. split; [reflexivity|].
    apply Forall_app. now split.
  - inversion H; subst. eapply Hm; eauto.
Qed.

Lemma logs_log (P : Call -> Prop) (k : Call) : P k -> logs P (log k).
Proof.
  intros Hk s out s' H. inversion H; subst. simpl. exists [k]. split; auto.
Qed.

Lemma logs_query {A} (P : Call -> Prop) (ex : Executor) (k : Call)
    (f : list Row -> result A) (onErr : error -> Response) :
  P k -> logs P (query ex k f onErr).
Proof.
  intro Hk. unfold query. apply logs_bind; [now apply logs_log|].
  intros _ s out s' H. exists []. rewrite app_nil_r.
  destruct (f (visible ex s)); inversion H; subst; auto.
Qed.

Lemma logs_write (P : Call -> Prop) (ex : Executor) (rows : list Row) :
  logs P (write ex rows).
Proof.
  intros s out s' H. exists []. rewrite app_nil_r.
  destruct ex; inversion H; subst; auto.
Qed.

Lemma logs_insert (P : Call -> Prop) (ex : Executor) (k : Call)
    (f : list Row -> result (list Row)) (onErr : error -> Response) :
  P k -> logs P (insert ex k f onErr).
Proof.
  intro Hk. unfold insert. apply logs_bind; [now apply logs_query|].
  intro rows. apply logs_write.
Qed.

Lemma logs_send (P : Call -> Prop) (m : Message) : logs P (send m).
Proof.
  intros s out s' H. exists []. rewrite app_nil_r. inversion H; subst; auto.
Qed.

Lemma logs_send_all (P : Call -> Prop) (ms : list Message) : logs P (send_all ms).
Proof.
  induction ms as [|m ms IH]; simpl; [apply logs_ret|].
  apply logs_bind; [apply logs_send|auto].
Qed.

Lemma plain_ret {A} (a : A) : plain_returns (ret a).
Proof. intros s r s' H. inversion H. Qed.

Lemma plain_bind {A B} (m : Handler A) (k : A -> Handler B) :
  plain_returns m -> (forall a, plain_returns (k a)) -> plain_returns (bind m k).
Proof.
  intros Hm Hk s r s' H. unfold bind in H.
  destruct (m s) as [[a|r1] s1] eqn:E.
  - eapply Hk; eauto.
  - inversion H; subst. eapply Hm; eauto.
Qed.

Lemma plain_log (k : Call) : plain_returns (log k).
Proof. intros s r s' H. inversion H. Qed.

Lemma plain_send (m : Message) : plain_returns (send m).
Proof. intros s r s' H. inversion H. Qed.

Lemma plain_write (ex : Executor) (rows : list Row) : plain_returns (write ex rows).
Proof. intros s r s' H. destruct ex; inversion H. Qed.

Lemma plain_query {A} (ex : Executor) (k : Call) (f : list Row -> result A)
    (onErr : error -> Response) :
  (forall e body st, onErr e <> WriteJSON body st) ->
  plain_returns (query ex k f onErr).
Proof.
  intro Hon. unfold query. apply plain_bind; [apply plain_log|].
  intros _ s r s' H.
  destruct (f (visible ex s)); inversion H; subst. apply Hon.
Qed.

Lemma plain_insert (ex : Executor) (k : Call) (f : list Row -> result (list Row))
    (onErr : error -> Response) :
  (forall e body st, onErr e <> WriteJSON body st) ->
  plain_returns (insert ex k f onErr).
Proof.
  intro Hon. unfold insert. apply plain_bind; [now apply plain_query|].
  intro. apply plain_write.
Qed.

Lemma plain_exit {A} (r : Response) :
  (forall body st, r <> WriteJSON body st) -> plain_returns (@exit A r).
Proof. intros Hr s r' s' H. inversion H; subst. exact Hr. Qed.

Lemma plain_send_all (ms : list Message) : plain_returns (send_all ms).
Proof.
  induction ms as [|m ms IH]; simpl; [apply plain_ret|].
  apply plain_bind; [apply plain_send|auto].
Qed.

Lemma silent_ret {A} (a : A) : silent (ret a).
Proof. intros s out s' H. inversion H; subst. auto. Qed.

Lemma silent_bind {A B} (m : Handler A) (k : A -> Handler B) :
  silent m -> (forall a, silent (k a)) -> silent (bind m k).
Proof.
  intros Hm Hk s out s' H. unfold bind in H.
  destruct (m s) as [[a|r] s1] eqn:E.
  - destruct (Hm _ _ _ E) as [E1 E2]. destruct (Hk a _ _ _ H) as [E3 E4].
    split; congruence.
  - inversion H; subst. eapply Hm; eauto.
Qed.

Lemma silent_log (k : Call) : silent (log k).
Proof. intros s out s' H. inversion H; subst. auto. Qed.

Lemma silent_write (ex : Executor) (rows : list Row) : silent (write ex rows).
Proof. intros s out s' H. destruct ex; inversion H; subst; auto. Qed.

Lemma silent_query {A} (ex : Executor) (k : Call) (f : list Row -> result A)
    (onErr : error -> Response) :
  silent (query ex k f onErr).
Proof.
  unfold query. apply silent_bind; [apply silent_log|].
  intros _ s out s' H. destruct (f (visible ex s)); inversion H; subst; auto.
Qed.

Lemma silent_insert (ex : Executor) (k : Call) (f : list Row -> result (list Row))
    (onErr : error -> Response) :
  silent (insert ex k f onErr).
Proof.
  unfold insert. apply silent_bind; [apply silent_query|].
  intro. apply silent_write.
Qed.

Lemma silent_Commit (c : Collaborators) : silent (Commit c).
Proof.
  unfold Commit. apply silent_bind; [apply silent_log|].
  intros _ s out s' H.
  destruct (tx_Commit c (committed s) _); inversion H; subst; auto.
Qed.

Lemma reads_only_ret {A} (a : A) : reads_only (ret a).
Proof. intros s out s' H. inversion H; subst. auto. Qed.

Lemma reads_only_bind {A B} (m : Handler A) (k : A -> Handler B) :
  reads_only m -> (forall a, reads_only (k a)) -> reads_only (bind m k).
Proof.
  intros Hm Hk s out s' H. unfold bind in H.
  destruct (m s) as [[a|r] s1] eqn:E.
  - destruct (Hm _ _ _ E) as [E1 E2]. destruct (Hk a _ _ _ H) as [E3 E4].
    split; congruence.
  - inversion H; subst. eapply Hm; eauto.
Qed.

Lemma reads_only_log (k : Call) : reads_only (log k).
Proof. intros s out s' H. inversion H; subst. auto. Qed.

Lemma reads_only_send (m : Message) : reads_only (send m).
Proof. intros s out s' H. inversion H; subst. auto. Qed.

Lemma reads_only_query {A} (ex : Executor) (k : Call) (f : list Row -> result A)
    (onErr : error -> Response) :
  reads_only (query ex k f onErr).
Proof.
  unfold query. apply reads_only_bind; [apply reads_only_log|].
  intros _ s out s' H. destruct (f (visible ex s)); inversion H; subst; auto.
Qed.

Ltac plain_step :=
  first
    [ apply plain_ret
    | apply plain_send
    | apply plain_log
    | apply plain_write
    | apply plain_send_all
    | apply plain_query; intros; discriminate
    | apply plain_insert; intros; discriminate
    | apply plain_exit; intros; discriminate ].

Ltac plain_auto :=
  repeat first
    [ plain_step
    | apply plain_bind; [|intro]
    | match goal with
      | |- plain_returns (if ?b then _ else _) => destruct b
      | |- plain_returns (match ?x with _ => _ end) => destruct x
      end ].

Lemma plain_loadGroups (c : Collaborators) (gs : list GroupPermission) :
  plain_returns (loadGroups c gs).
Proof.
  induction gs as [|eg gs IH]; simpl; [plain_auto|].
  apply plain_bind; [plain_auto|]. intro g.
  apply plain_bind; [exact IH|]. intro. plain_auto.
Qed.

Lemma plain_prelude (c : Collaborators) (r : Request) : plain_returns (prelude c r).
Proof.
  unfold prelude, parse, make_msgChan.
  repeat (apply plain_bind; [try plain_step|intro]).
  - destruct a1; plain_auto.
  - apply plain_loadGroups.
  - intros s r0 s' H. inversion H.
  - plain_auto.
Qed.

Lemma plain_Begin (c : Collaborators) : plain_returns (Begin c).
Proof.
  unfold Begin. apply plain_bind; [plain_auto|]. intros _ s r s' H.
  destruct (db_Begin c (committed s)); inversion H; subst. discriminate.
Qed.

Lemma plain_checkTrigger (c : Collaborators) (proj : Project) (app : Application)
    (t : PipelineTrigger) (g : option error) :
  plain_returns (checkTrigger c proj app t g).
Proof. unfold checkTrigger. plain_auto. Qed.

Lemma plain_checkTriggers (c : Collaborators) (proj : Project) (app : Application)
    (ts : list PipelineTrigger) (g : option error) :
  plain_returns (checkTriggers c proj app ts g).
Proof.
  revert g; induction ts as [|t ts IH]; intro g; simpl; [plain_auto|].
  apply plain_bind; [apply plain_checkTrigger|auto].
Qed.

Lemma plain_checkPipelines (c : Collaborators) (proj : Project) (app : Application)
    (ps : list ApplicationPipeline) (g : option error) :
  plain_returns (checkPipelines c proj app ps g).
Proof.
  revert g; induction ps as [|p ps IH]; intro g; simpl; [plain_auto|].
  apply plain_bind; [plain_auto|]. intro ok.
  apply plain_bind; [plain_auto|]. intro g1.
  apply plain_bind; [apply plain_checkTriggers|auto].
Qed.

Lemma plain_manageHooks (c : Collaborators) (proj : Project) (app : Application)
    (rm : RepositoriesManager) (hooks : list Hook) :
  plain_returns (manageHooks c proj app rm hooks).
Proof.
  induction hooks as [|h hooks IH]; simpl; [plain_auto|].
  destruct (Pipeline_ID _ =? 0); [plain_auto|].
  apply plain_bind; [plain_auto|]. intro.
  apply plain_bind; [plain_auto|auto].
Qed.

Lemma plain_managePollers (c : Collaborators) (proj : Project) (app : Application)
    (pollers : list RepositoryPoller) :
  plain_returns (managePollers c proj app pollers).
Proof.
  induction pollers as [|h pollers IH]; simpl; [plain_auto|].
  destruct (Pipeline_ID _ =? 0); [plain_auto|].
  apply plain_bind; [plain_auto|]. intro.
  apply plain_bind; [plain_auto|auto].
Qed.

Lemma plain_manageNotifications (c : Collaborators) (proj : Project) (app : Application)
    (notifs : list UserNotificationSettings) :
  plain_returns (manageNotifications c proj app notifs).
Proof.
  induction notifs as [|n notifs IH]; simpl; [plain_auto|].
  destruct (resolveEnvironment c proj n) as [n' envID].
  destruct (lookupPipelineID _ _ =? 0); [plain_auto|].
  destruct (envID =? 0); [plain_auto|].
  apply plain_bind; [plain_auto|auto].
Qed.

Lemma plain_manage (c : Collaborators) (proj : Project) (app : Application) :
  plain_returns (manage c proj app).
Proof.
  unfold manage. apply plain_bind.
  - destruct (App_RepositoriesManager app); [|plain_auto].
    apply plain_bind; [apply plain_manageHooks|]. intro. apply plain_managePollers.
  - intro. apply plain_manageNotifications.
Qed.

Lemma plain_coreImport (c : Collaborators) (proj : Project) (app : Application) :
  plain_returns (coreImport c proj app).
Proof.
  unfold coreImport. apply plain_bind; [plain_auto|].
  intros _ s r s' H. revert H. generalize (application_Import c (visible ViaTx s) proj app).
  intros i H. revert s r s' H.
  change (plain_returns (send_all (Import_msgs i) ;; write ViaTx (Import_rows i) ;;
                         ret (Import_err i, Import_app i))).
  plain_auto.
Qed.

Lemma plain_apply (c : Collaborators) (proj : Project) (app : Application) (exist : bool) :
  plain_returns (apply c proj app exist).
Proof.
  unfold apply. apply plain_bind.
  - destruct exist; [plain_auto|apply plain_coreImport].
  - intros [g a]. simpl. destruct g; [plain_auto|].
    apply plain_bind; [apply plain_manage|]. intro. plain_auto.
Qed.

Lemma bind_inv {A B} (m : Handler A) (k : A -> Handler B) (s s' : State) (out : Flow B) :
  bind m k s = (out, s') ->
  (exists r, m s = (Return r, s') /\ out = Return r)
  \/ (exists a s1, m s = (Continue a, s1) /\ k a s1 = (out, s')).
Proof.
  unfold bind. destruct (m s) as [[a|r] s1]; intro H.
  - right. eauto.
  - left. inversion H; subst. eauto.
Qed.

Lemma yields_bind {A B} (Q : B -> Prop) (m : Handler A) (k : A -> Handler B) :
  (forall a, yields Q (k a)) -> yields Q (bind m k).
Proof.
  intros Hk s b s' H. apply bind_inv in H.
  destruct H as [(r & _ & E)|(a & s1 & _ & E)]; [discriminate|].
  eapply Hk; eauto.
Qed.

(** ** The way out: what [finish] answers *)

Lemma silent_finish (c : Collaborators) (proj : Project) (app : Application)
    (g : option error) (l : list string) :
  silent (finish c proj app g l).
Proof.
  unfold finish. destruct g as [[e|d]|]; try apply silent_ret.
  apply silent_bind; [apply silent_insert|]. intro.
  apply silent_bind; [apply silent_Commit|]. intro.
  apply silent_bind; [apply silent_query|]. intro.
  apply silent_bind; [apply silent_insert|]. intro. apply silent_ret.
Qed.

Lemma plain_Commit (c : Collaborators) : plain_returns (Commit c).
Proof.
  unfold Commit. apply plain_bind; [plain_auto|]. intros _ s r s' H.
  destruct (tx_Commit c (committed s) _); inversion H; subst. discriminate.
Qed.

Lemma plain_finish (c : Collaborators) (proj : Project) (app : Application)
    (g : option error) (l : list string) :
  plain_returns (finish c proj app g l).
Proof.
  unfold finish. destruct g as [[e|d]|]; [apply plain_ret|apply plain_ret|].
  apply plain_bind; [plain_step|]. intro.
  apply plain_bind; [apply plain_Commit|]. intro.
  apply plain_bind; [plain_step|]. intro.
  apply plain_bind; [plain_step|]. intro. apply plain_ret.
Qed.

Lemma finish_yields (c : Collaborators) (proj : Project) (app : Application)
    (g : option error) (l : list string) :
  yields (fun resp => forall body st, resp = WriteJSON body st -> body = l)
    (finish c proj app g l).
Proof.
  unfold finish. destruct g as [[e|d]|].
  - intros s a s' H. inversion H; subst. intros body st E. now inversion E.
  - intros s a s' H. inversion H; subst. intros body st E. discriminate.
  - repeat (apply yields_bind; intro).
    intros s resp s' H. inversion H; subst. intros body st E. now inversion E.
Qed.

Lemma drain_and_render_run (c : Collaborators) (al : string) (s : State) :
  drain_and_render c al s
  = (Continue (render (Message_String c) al (msgChan s ++ [zero_Message]) []),
     after_close s).
Proof.
  unfold drain_and_render, close_msgChan, bind. simpl.
  now rewrite consumer_closed.
Qed.

(** Whatever way the transaction part ends: a [WriteJSON] carries the
    rendering of everything that was sent, closing zero message
    included. *)
Lemma transaction_json (c : Collaborators) (al : string) (forceUpdate : bool)
    (proj : Project) (app : Application) (exist : bool)
    (s s' : State) (out : Flow Response) (body : list string) (st : Z) :
  transaction c al forceUpdate proj app exist s = (out, s') ->
  out = Continue (WriteJSON body st) \/ out = Return (WriteJSON body st) ->
  body = render (Message_String c) al (msgChan s' ++ [zero_Message]) []
  /\ closed s' = true.
Proof.
  unfold transaction. intros H Hout.
  destruct (exist && negb forceUpdate).
  { inversion H; subst. destruct Hout; discriminate. }
  apply bind_inv in H. destruct H as [(r & H & E)|(g & s1 & _ & H)].
  { subst out. destruct Hout as [|Hout]; [discriminate|]. inversion Hout; subst.
    exfalso. eapply plain_checkPipelines; eauto. }
  apply bind_inv in H. destruct H as [(r & H & E)|(x & s2 & _ & H)].
  { subst out. destruct Hout as [|Hout]; [discriminate|]. inversion Hout; subst.
    exfalso. destruct g; [inversion H|]. eapply plain_apply; eauto. }
  apply bind_inv in H. destruct H as [(r & H & E)|(l & s3 & Hd & H)].
  { rewrite drain_and_render_run in H. discriminate. }
  rewrite drain_and_render_run in Hd. inversion Hd; subst l s3. clear Hd.
  destruct (silent_finish _ _ _ _ _ _ _ _ H) as [Hm Hc].
  rewrite Hm, Hc. simpl. split; [|reflexivity].
  destruct Hout as [Hout|Hout]; subst out.
  - eapply finish_yields; eauto.
  - exfalso. eapply plain_finish; eauto.
Qed.

(** The same for the whole handler. *)
Lemma handler_json (c : Collaborators) (r : Request) (s s' : State)
    (body : list string) (st : Z) :
  run (importApplicationHandler c r) s = (WriteJSON body st, s') ->
  body = render (Message_String c) (Header_AcceptLanguage r)
           (msgChan s' ++ [zero_Message]) []
  /\ closed s' = true.
Proof.
  unfold run. destruct (importApplicationHandler c r s) as [out s0] eqn:H.
  intro Hrun.
  assert (s0 = s' /\ (out = Continue (WriteJSON body st)
                      \/ out = Return (WriteJSON body st))) as [-> Hout].
  { destruct out; inversion Hrun; subst; auto. }
  clear Hrun. unfold importApplicationHandler in H.
  apply bind_inv in H. destruct H as [(r0 & H & E)|(x & s1 & _ & H)].
  { subst out. destruct Hout as [|Hout]; [discriminate|]. inversion Hout; subst.
    exfalso. eapply plain_prelude; eauto. }
  apply bind_inv in H. destruct H as [(r0 & H & E)|(x0 & s2 & _ & H)].
  { subst out. destruct Hout as [|Hout]; [discriminate|]. inversion Hout; subst.
    exfalso. eapply plain_Begin; eauto. }
  unfold defer_Rollback in H.
  destruct (transaction _ _ _ _ _ _ s2) as [out2 s3] eqn:Ht.
  inversion H; subst out2 s'. clear H.
  eapply transaction_json in Ht; eauto.
Qed.

(** ** The prelude and the opening of the transaction *)

Lemma query_inv {A} (ex : Executor) (k : Call) (f : list Row -> result A)
    (onErr : error -> Response) (s s' : State) (a : A) :
  query ex k f onErr s = (Continue a, s') ->
  f (visible ex s) = inr a /\ s' = emit s [] [k].
Proof.
  intro H. destruct (f (visible ex s)) as [e|a0] eqn:E.
  - rewrite (query_error _ _ _ _ _ _ E) in H. discriminate.
  - rewrite (query_answer _ _ _ _ _ _ E) in H. inversion H; subst. auto.
Qed.

Ltac bind_continue_inv H :=
  apply bind_inv in H;
  let r := fresh "r" in
  let E := fresh "E" in
  destruct H as [(r & _ & E)|(? & ? & ? & H)]; [discriminate E|].

Lemma quiet_simple (k : Call) :
  match k with
  | CallBegin | CallApplicationExists _ _ => False
  | _ => True
  end -> quiet k.
Proof. destruct k; intro H; try contradiction; split; intros; discriminate. Qed.

Lemma parse_inv (c : Collaborators) (f : Format) (data : string) (s s' : State)
    (p : Payload) :
  parse c f data s = (Continue p, s') ->
  exists ks, s' = emit s [] ks /\ Forall quiet ks.
Proof.
  destruct f; simpl; intro H;
    try (apply query_inv in H; destruct H as [_ ->];
         exists [CallUnmarshal]; split; [reflexivity|];
         constructor; [now apply quiet_simple|constructor]).
  inversion H; subst. exists []. now rewrite emit_nil.
Qed.

Lemma loadGroups_inv (c : Collaborators) (gs gs' : list GroupPermission) (s s' : State) :
  loadGroups c gs s = (Continue gs', s') ->
  exists ks, s' = emit s [] ks /\ Forall quiet ks.
Proof.
  revert gs' s s'; induction gs as [|eg gs IH]; intros gs' s s' H; simpl in H.
  - inversion H; subst. exists []. now rewrite emit_nil.
  - bind_continue_inv H. bind_continue_inv H. inversion H; subst.
    match goal with Q : query _ _ _ _ _ = _ |- _ => apply query_inv in Q; destruct Q as [_ ->] end.
    match goal with L : loadGroups _ _ _ = _ |- _ => apply IH in L; destruct L as (ks & -> & F) end.
    rewrite emit_emit. simpl. eexists. split; [reflexivity|].
    constructor; [now apply quiet_simple|exact F].
Qed.

(** When the prelude goes through it has written nothing, made the
    channel, and probed for the application exactly once. *)
Lemma prelude_inv (c : Collaborators) (r : Request) (s s1 : State)
    (proj : Project) (app : Application) (exist : bool) :
  prelude c r s = (Continue (proj, app, exist), s1) ->
  committed s1 = committed s /\ pending s1 = pending s
  /\ msgChan s1 = [] /\ closed s1 = false
  /\ exists name pre post,
       calls s1 = calls s ++ pre ++ CallApplicationExists ViaDb name :: post
       /\ Forall quiet pre /\ Forall quiet post
       /\ application_Exists c (committed s) (Project_ID proj) name = inr exist.
Proof.
  unfold prelude. intro H.
  bind_continue_inv H. rename H0 into Q1.
  bind_continue_inv H. rename H0 into Q2.
  bind_continue_inv H. rename H0 into Q3.
  bind_continue_inv H. rename H0 into Q4.
  bind_continue_inv H. rename H0 into Q5.
  bind_continue_inv H. rename H0 into Q6.
  bind_continue_inv H. rename H0 into Q7.
  bind_continue_inv H. rename H0 into Q8.
  bind_continue_inv H. rename H0 into Q9.
  inversion H; subst. clear H.
  apply query_inv in Q1. destruct Q1 as [_ ->].
  apply query_inv in Q2. destruct Q2 as [_ ->].
  apply query_inv in Q3. destruct Q3 as [_ ->].
  apply query_inv in Q4. destruct Q4 as [_ ->].
  apply parse_inv in Q5. destruct Q5 as (k5 & -> & F5).
  apply query_inv in Q6. destruct Q6 as [E6 ->].
  apply query_inv in Q7. destruct Q7 as [_ ->].
  apply loadGroups_inv in Q8. destruct Q8 as (k8 & -> & F8).
  unfold make_msgChan in Q9. inversion Q9; subst. clear Q9.
  rewrite !emit_emit in *. rewrite !visible_emit in E6. simpl in *.
  repeat split; try reflexivity.
  eexists _, ([_; _; _; _] ++ k5), (_ :: k8).
  split; [rewrite <- !app_assoc; reflexivity|].
  split; [|split].
  - apply Forall_app. split; [|exact F5].
    repeat constructor; discriminate.
  - constructor; [now apply quiet_simple|exact F8].
  - exact E6.
Qed.

Lemma parse_decodes (c : Collaborators) (f : Format) (data : string) (s s' : State)
    (p : Payload) :
  parse c f data s = (Continue p, s') ->
  match f with
  | FormatJSON | FormatHCL => hcl_Unmarshal c data = inr p
  | FormatYAML => yaml_Unmarshal c data = inr p
  | FormatUnlisted => p = zero_Payload
  end.
Proof.
  destruct f; simpl; intro H;
    try (apply query_inv in H; destruct H as [H _]; exact H).
  inversion H; subst. reflexivity.
Qed.

Lemma loadGroups_loaded (c : Collaborators) (gs gs' : list GroupPermission) (s s' : State) :
  loadGroups c gs s = (Continue gs', s') ->
  Forall2 (loaded c (committed s)) gs gs'
  /\ s' = emit s [] (map (fun eg => CallLoadGroup (Group_Name (Group_of eg))) gs).
Proof.
  revert s gs' s'. induction gs as [|eg gs IH]; intros s gs' s' H;
    cbn [loadGroups map] in H |- *.
  - inversion H; subst. split; [constructor|]. now rewrite emit_nil.
  - bind_continue_inv H. bind_continue_inv H. inversion H; subst. clear H.
    match goal with Q : query _ _ _ _ _ = _ |- _ =>
      apply query_inv in Q; destruct Q as [E ->] end.
    match goal with L : loadGroups _ _ _ = _ |- _ =>
      apply IH in L; destruct L as (F & ->) end.
    simpl in E. split.
    + constructor; [split; [reflexivity|exact E]|exact F].
    + now rewrite emit_emit.
Qed.

(** What the prelude hands on: the project as [project.Load] and
    [group.LoadGroupByProject] answered it, the probe's answer for that
    project's identifier and the payload's name, and the application the
    payload stands for, with the groups the loop loaded in the place of
    the groups it was decoded with. *)
Lemma prelude_yields (c : Collaborators) (r : Request) (s s1 : State)
    (proj : Project) (app : Application) (exist : bool) :
  prelude c r s = (Continue (proj, app, exist), s1) ->
  exists proj0 payload app0 gs,
    project_Load c (committed s) (permProjectKey r) = inr proj0
    /\ group_LoadGroupByProject c (committed s) proj0 = inr proj
    /\ decodes c r payload
    /\ application_Exists c (committed s) (Project_ID proj) (Payload_Name payload)
       = inr exist
    /\ In (CallApplicationExists ViaDb (Payload_Name payload)) (calls s1)
    /\ Payload_Application c payload = inr app0
    /\ Forall2 (loaded c (committed s)) (ApplicationGroups app0) gs
    /\ app = with_groups app0 gs.
Proof.
  unfold prelude. intro H.
  bind_continue_inv H. rename H0 into Q1.
  bind_continue_inv H. rename H0 into Q2.
  bind_continue_inv H. rename H0 into Q3.
  bind_continue_inv H. rename H0 into Q4.
  bind_continue_inv H. rename H0 into Q5.
  bind_continue_inv H. rename H0 into Q6.
  bind_continue_inv H. rename H0 into Q7.
  bind_continue_inv H. rename H0 into Q8.
  bind_continue_inv H. rename H0 into Q9.
  inversion H; subst. clear H.
  apply query_inv in Q1. destruct Q1 as [E1 ->].
  apply query_inv in Q2. destruct Q2 as [E2 ->].
  apply query_inv in Q3. destruct Q3 as [E3 ->].
  apply query_inv in Q4. destruct Q4 as [E4 ->].
  pose proof (parse_decodes _ _ _ _ _ _ Q5) as D5.
  apply parse_inv in Q5. destruct Q5 as (k5 & -> & F5).
  apply query_inv in Q6. destruct Q6 as [E6 ->].
  apply query_inv in Q7. destruct Q7 as [E7 ->].
  apply loadGroups_loaded in Q8. destruct Q8 as (L8 & ->).
  unfold make_msgChan in Q9. inversion Q9; subst. clear Q9.
  rewrite !emit_emit in *. rewrite ?visible_emit in *.
  cbn [visible committed emit] in *.
  eexists _, _, _, _.
  split; [exact E1|]. split; [exact E2|].
  split; [eexists _, _; split; [exact E3|split; [exact E4|exact D5]]|].
  split; [exact E6|].
  split.
  { cbn [calls]. rewrite !in_app_iff. left. left. right. now left. }
  split; [exact E7|]. split; [exact L8|reflexivity].
Qed.

Lemma Begin_opens (c : Collaborators) (s : State) :
  db_Begin c (committed s) = None -> Begin c s = (Continue tt, begun s).
Proof.
  intro H. unfold Begin, bind, log. simpl. now rewrite H.
Qed.

Lemma visible_begun (s : State) : visible ViaTx (begun s) = committed s.
Proof. simpl. apply app_nil_r. Qed.

(** The handler once the prelude and [db.Begin()] have gone through. *)
Lemma handler_after_Begin (c : Collaborators) (r : Request) (s s1 : State)
    (proj : Project) (app : Application) (exist : bool) :
  prelude c r s = (Continue (proj, app, exist), s1) ->
  db_Begin c (committed s) = None ->
  importApplicationHandler c r s
  = defer_Rollback
      (transaction c (Header_AcceptLanguage r) (FormBool_forceUpdate r) proj app exist)
      (begun s1).
Proof.
  intros Hp Hb. unfold importApplicationHandler.
  rewrite (bind_continue _ _ _ _ _ Hp). simpl.
  destruct (prelude_inv _ _ _ _ _ _ _ Hp) as (Hc & _).
  rewrite <- Hc in Hb.
  now rewrite (bind_continue _ _ _ _ _ (Begin_opens _ _ Hb)).
Qed.

(** ** The exists-guard (lines 109-120) *)

(** C3, as stated, fails.  The project has the application "legacy",
    the request imports "legacy" without forceUpdate, and the answer is
    the application-exists error; yet the log shows that the transaction
    was opened: [db.Begin()] (line 109) runs before the guard (line
    118), whose [return] then runs the deferred [tx.Rollback()]. *)
Lemma exists_guard_opens_transaction :
  application_Exists (reference legacy false) db0 1 "legacy" = inr true
  /\ FormBool_forceUpdate (request false) = false
  /\ fst (run (importApplicationHandler (reference legacy false) (request false))
            (arrival db0))
     = ReturnError (SdkError ErrApplicationExist)
  /\ calls (snd (run (importApplicationHandler (reference legacy false) (request false))
                   (arrival db0)))
     = [ CallProjectLoad "PRJ"; CallLoadGroupByProject; CallReadAll;
         CallGetFormat "yaml"; CallUnmarshal;
         CallApplicationExists ViaDb "legacy"; CallPayloadApplication;
         CallBegin; CallRollback ]
  /\ In CallBegin
       (calls (snd (run (importApplicationHandler (reference legacy false) (request false))
                      (arrival db0)))).
Proof.
  repeat split; try reflexivity.
  vm_compute. tauto.
Qed.

(** C3, amended.  When the prelude has gone through with the probe
    answering that the application exists, forceUpdate is unset and the
    transaction can be begun, the handler answers with the
    application-exists error; the store is as before, no message was
    sent, and the log is: the prelude's calls, among them the one probe
    for the application, then [db.Begin()], then [tx.Rollback()], with
    no lookup of the validator in between. *)
Theorem exists_guard (c : Collaborators) (r : Request) (db : list Row)
    (proj : Project) (app : Application) (s1 : State) :
  prelude c r (arrival db) = (Continue (proj, app, true), s1) ->
  FormBool_forceUpdate r = false ->
  db_Begin c db = None ->
  exists s' name pre post,
    run (importApplicationHandler c r) (arrival db)
    = (ReturnError (SdkError ErrApplicationExist), s')
    /\ committed s' = db /\ pending s' = None /\ msgChan s' = []
    /\ application_Exists c db (Project_ID proj) name = inr true
    /\ calls s' = pre ++ CallApplicationExists ViaDb name :: post
                  ++ [CallBegin; CallRollback]
    /\ Forall quiet pre /\ Forall quiet post.
Proof.
  intros Hp Hf Hb.
  destruct (prelude_inv _ _ _ _ _ _ _ Hp)
    as (Hc & Hpend & Hm & Hcl & name & pre & post & Hcalls & Fpre & Fpost & Hex).
  simpl in Hc, Hcalls, Hex.
  exists (Rollback (begun s1)), name, pre, post.
  unfold run. rewrite (handler_after_Begin _ _ _ _ _ _ _ Hp Hb).
  unfold defer_Rollback, transaction. rewrite Hf. simpl.
  repeat split; auto.
  rewrite Hcalls, <- !app_assoc. reflexivity.
Qed.

Lemma exists_guard_witness :
  exists s' name pre post,
    run (importApplicationHandler (reference legacy false) (request false)) (arrival db0)
    = (ReturnError (SdkError ErrApplicationExist), s')
    /\ committed s' = db0 /\ pending s' = None /\ msgChan s' = []
    /\ application_Exists (reference legacy false) db0
         (Project_ID {| Project_ID := 1; Key := "PRJ";
                        Environments := environments_of "PRJ" db0;
                        Applications := [] |}) name = inr true
    /\ calls s' = pre ++ CallApplicationExists ViaDb name :: post
                  ++ [CallBegin; CallRollback]
    /\ Forall quiet pre /\ Forall quiet post.
Proof.
  eapply (exists_guard (reference legacy false) (request false) db0).
  - vm_compute. reflexivity.
  - reflexivity.
  - reflexivity.
Defined.

(** ** Completeness of validation (lines 122-168, 269-298) *)

Lemma dominant_last (g : option error) (found : list (Message * sdk_Error))
    (d : Message * sdk_Error) :
  found <> [] -> dominant g found = Some (SdkError (snd (last found d))).
Proof.
  intro Hne. destruct (exists_last Hne) as (l & x & ->).
  rewrite dominant_app, last_last. reflexivity.
Qed.

(** C4.  When the prelude and [db.Begin()] have gone through, the
    exists-guard does not fire and the store answers every lookup, a
    descriptor with N >= 1 missing references is rejected: the handler
    has sent exactly the N "not found" messages of the missing
    references, in traversal order; it has made every lookup of every
    usage and trigger; it answers with the rendering of those messages
    under the status of the last missing reference's error; and nothing
    was written. *)
Theorem validation_complete (c : Collaborators) (r : Request) (db : list Row)
    (proj : Project) (app : Application) (exist : bool) (s1 : State) :
  prelude c r (arrival db) = (Continue (proj, app, exist), s1) ->
  db_Begin c db = None ->
  exist && negb (FormBool_forceUpdate r) = false ->
  lookups_answer c db proj ->
  (1 <= List.length (missing_references c db proj app (Pipelines app)))%nat ->
  exists s',
    run (importApplicationHandler c r) (arrival db)
    = (WriteJSON
         (render (Message_String c) (Header_AcceptLanguage r)
            (map fst (missing_references c db proj app (Pipelines app))
             ++ [zero_Message]) [])
         (Status c (snd (last (missing_references c db proj app (Pipelines app))
                           (zero_Message, ErrWrongRequest)))),
       s')
    /\ msgChan s' = map fst (missing_references c db proj app (Pipelines app))
    /\ List.length (msgChan s')
       = List.length (missing_references c db proj app (Pipelines app))
    /\ calls s' = calls s1 ++ [CallBegin] ++ all_lookups c app (Pipelines app)
                  ++ [CallRollback]
    /\ committed s' = db /\ pending s' = None.
Proof.
  intros Hp Hb Hg Hans Hn.
  destruct (prelude_inv _ _ _ _ _ _ _ Hp) as (Hc & _ & Hm & Hcl & _).
  simpl in Hc.
  unfold run. rewrite (handler_after_Begin _ _ _ _ _ _ _ Hp Hb).
  unfold defer_Rollback, transaction. rewrite Hg.
  assert (lookups_answer c (visible ViaTx (begun s1)) proj) as Hans'.
  { rewrite visible_begun, Hc. exact Hans. }
  rewrite (bind_continue _ _ _ _ _ (checkPipelines_complete _ _ _ _ None _ Hans')).
  rewrite visible_begun, Hc.
  set (found := missing_references c db proj app (Pipelines app)) in *.
  assert (found <> []) as Hne.
  { intro E. rewrite E in Hn. simpl in Hn. lia. }
  rewrite (dominant_last None found (zero_Message, ErrWrongRequest) Hne).
  cbv beta iota. rewrite bind_ret. cbn [fst snd].
  rewrite (bind_continue _ _ _ _ _ (drain_and_render_run _ _ _)).
  simpl. rewrite Hm. simpl.
  eexists. split; [reflexivity|]. simpl. rewrite Hm. simpl.
  repeat split; auto.
  - now rewrite length_map.
  - now rewrite <- !app_assoc.
Qed.

Lemma validation_complete_witness :
  exists s',
    run (importApplicationHandler (reference dangling false) (request false)) (arrival db0)
    = (WriteJSON
         [ "Pipeline ghost not found"; "Application deploy-svc not found";
           "Environment staging not found" ] 404, s')
    /\ msgChan s'
       = [ sdk_NewMessage MsgAppImportPipelineNotFound [ArgString "ghost"];
           sdk_NewMessage MsgAppImportAppNotFound [ArgString "deploy-svc"];
           sdk_NewMessage MsgAppImportEnvNotFound [ArgString "staging"] ]
    /\ List.length (msgChan s') = 3%nat
    /\ committed s' = db0 /\ pending s' = None.
Proof.
  edestruct (validation_complete (reference dangling false) (request false) db0)
    as (s' & Hrun & Hmsg & Hlen & _ & Hdb & Hpend).
  - vm_compute. reflexivity.
  - reflexivity.
  - reflexivity.
  - unfold lookups_answer. simpl. repeat split; intros; eexists; reflexivity.
  - vm_compute. lia.
  - exists s'. repeat split; assumption.
Defined.

(** ** Soft collection and hard stops *)

Lemma manageHooks_app (c : Collaborators) (proj : Project) (app : Application)
    (rm : RepositoriesManager) (pre post : list Hook) (s : State) :
  manageHooks c proj app rm (pre ++ post) s
  = (manageHooks c proj app rm pre ;; manageHooks c proj app rm post) s.
Proof.
  revert s; induction pre as [|h pre IH]; intro s; [reflexivity|].
  cbn [List.app manageHooks].
  destruct (Pipeline_ID _ =? 0).
  - unfold bind, send, exit. reflexivity.
  - unfold bind.
    destruct (insert _ _ _ _ s) as [[u|r] s1]; [|reflexivity].
    destruct (send _ s1) as [[u2|r] s2]; [|reflexivity].
    rewrite IH. reflexivity.
Qed.

Lemma insert_inv (ex : Executor) (k : Call) (f : list Row -> result (list Row))
    (onErr : error -> Response) (s s' : State) :
  insert ex k f onErr s = (Continue tt, s') ->
  exists rows, f (visible ex s) = inr rows
               /\ write ex rows (emit s [] [k]) = (Continue tt, s').
Proof.
  unfold insert. intro H. bind_continue_inv H.
  match goal with Q : query _ _ _ _ _ = _ |- _ =>
    apply query_inv in Q; destruct Q as [E ->] end.
  eauto.
Qed.

Lemma write_calls (ex : Executor) (rows : list Row) (s s' : State) (u : unit) :
  write ex rows s = (Continue u, s') -> calls s' = calls s.
Proof. destruct ex; intro H; inversion H; reflexivity. Qed.

Lemma manageHooks_calls (c : Collaborators) (proj : Project) (app : Application)
    (rm : RepositoriesManager) (hooks : list Hook) (s s' : State) :
  manageHooks c proj app rm hooks s = (Continue tt, s') ->
  calls s'
  = calls s ++ map (fun h => CallCreateHook ViaDb
                               (resolvePipeline (Pipelines app) (Hook_Pipeline h)))
                 hooks.
Proof.
  revert s; induction hooks as [|h hooks IH]; intros s H; cbn [manageHooks map] in *.
  - inversion H; subst. now rewrite app_nil_r.
  - destruct (Pipeline_ID _ =? 0).
    + bind_continue_inv H. discriminate H.
    + bind_continue_inv H. bind_continue_inv H.
      match goal with I : insert _ _ _ _ _ = _ |- _ =>
        destruct x; apply insert_inv in I; destruct I as (rows & _ & W);
        apply write_calls in W end.
      match goal with S : send _ _ = _ |- _ => inversion S; subst; clear S end.
      apply IH in H. rewrite H. simpl. rewrite W. simpl.
      now rewrite <- app_assoc.
Qed.

(** C6.  Soft: when the pipeline of a usage is missing, the validator
    sends its message and still makes every lookup of that usage's
    triggers and of every later usage.  Hard: when the pipeline of a
    hook does not resolve, the applier sends the message and returns the
    pipeline-not-found error at once; the log then holds the
    [hook.CreateHook] calls of the earlier hooks and nothing else: no
    later hook, no poller, no notification. *)
Theorem soft_collect_hard_stop (c : Collaborators) (proj : Project) (app : Application) :
  (forall (pre : list ApplicationPipeline) p post g s,
      lookups_answer c (visible ViaTx s) proj ->
      pipeline_ExistPipeline c (visible ViaTx s) (Project_ID proj)
        (Pipeline_Name (AP_Pipeline p)) = inr false ->
      exists g',
        checkPipelines c proj app (pre ++ p :: post) g s
        = (Continue g',
           emit s
             (map fst (missing_references c (visible ViaTx s) proj app pre)
              ++ sdk_NewMessage MsgAppImportPipelineNotFound
                   [ArgString (Pipeline_Name (AP_Pipeline p))]
                 :: map fst (flat_map (trigger_missing c (visible ViaTx s) proj app)
                               (Triggers p))
              ++ map fst (missing_references c (visible ViaTx s) proj app post))
             (all_lookups c app pre ++ usage_lookups c app p
              ++ all_lookups c app post)))
  /\ (forall app0 (exist : bool) s0 rm (pre : list Hook) h post s s1,
        (if exist then ret (None, app0) else coreImport c proj app0) s0
        = (Continue (None, app), s) ->
        App_RepositoriesManager app = Some rm ->
        Hooks app = pre ++ h :: post ->
        manageHooks c proj app rm pre s = (Continue tt, s1) ->
        Pipeline_ID (resolvePipeline (Pipelines app) (Hook_Pipeline h)) = 0 ->
        apply c proj app0 exist s0
        = (Return (ReturnWrapError (Some (SdkError ErrPipelineNotFound))
                     "importApplicationHandler> Pipeline not found for hook %s"),
           emit s1 [sdk_NewMessage MsgAppImportPipelineNotFound
                      [ArgString (Pipeline_Name
                                    (resolvePipeline (Pipelines app) (Hook_Pipeline h)))]]
             [])
        /\ calls (emit s1 [sdk_NewMessage MsgAppImportPipelineNotFound
                             [ArgString (Pipeline_Name
                                           (resolvePipeline (Pipelines app)
                                              (Hook_Pipeline h)))]] [])
           = calls s ++ map (fun h => CallCreateHook ViaDb
                                        (resolvePipeline (Pipelines app) (Hook_Pipeline h)))
                          pre).
Proof.
  split.
  - intros pre p post g s Hans Hp.
    assert (usage_missing c (visible ViaTx s) proj app p
            = (sdk_NewMessage MsgAppImportPipelineNotFound
                 [ArgString (Pipeline_Name (AP_Pipeline p))], ErrPipelineNotFound)
              :: flat_map (trigger_missing c (visible ViaTx s) proj app) (Triggers p))
      as Hu.
    { unfold usage_missing. rewrite Hp. reflexivity. }
    eexists. rewrite (checkPipelines_complete _ _ _ _ _ _ Hans).
    unfold missing_references, all_lookups. rewrite !flat_map_app. cbn [flat_map].
    rewrite Hu, !map_app. cbn [map fst List.app].
    rewrite <- ?app_assoc. reflexivity.
  - intros app0 exist s0 rm pre h post s s1 Hcore Hrm Hhooks Hpre Hid.
    split.
    + unfold apply. rewrite (bind_continue _ _ _ _ _ Hcore). cbn [fst snd].
      apply bind_return. unfold manage. rewrite Hrm, Hhooks.
      apply bind_return. apply bind_return.
      rewrite manageHooks_app. rewrite (bind_continue _ _ _ _ _ Hpre).
      cbn [manageHooks]. apply Z.eqb_eq in Hid. rewrite Hid.
      rewrite (bind_continue _ _ _ _ _ (send_emit _ _)). reflexivity.
    + apply manageHooks_calls in Hpre. simpl. rewrite Hpre.
      now rewrite app_nil_r.
Qed.

Lemma soft_collect_hard_stop_witness :
  (exists g' s',
      checkPipelines (reference dangling false)
        {| Project_ID := 1; Key := "PRJ"; Environments := []; Applications := [] |}
        dangling (Pipelines dangling) None (begun (arrival db0))
      = (Continue g', s')
      /\ calls s'
         = [ CallBegin; CallExistPipeline ViaTx "ghost";
             CallApplicationExists ViaTx "deploy-svc";
             CallEnvironmentExists ViaTx "prod";
             CallEnvironmentExists ViaTx "staging";
             CallExistPipeline ViaTx "build" ])
  /\ (exists s',
        apply (reference two_hooks false)
          {| Project_ID := 1; Key := "PRJ"; Environments := []; Applications := [] |}
          two_hooks false (begun (arrival db0))
        = (Return (ReturnWrapError (Some (SdkError ErrPipelineNotFound))
                     "importApplicationHandler> Pipeline not found for hook %s"), s')
        /\ calls s' = [ CallBegin; CallImport ViaTx; CallCreateHook ViaDb build ]).
Proof.
  split.
  - pose proof (proj1 (soft_collect_hard_stop (reference dangling false)
                         {| Project_ID := 1; Key := "PRJ"; Environments := [];
                            Applications := [] |} dangling)
                  [] (usage "ghost"
                        [ {| SrcEnvironment_Name := "prod";
                             DestApplication_Name := "deploy-svc";
                             DestEnvironment_Name := "staging" |} ])
                  [usage "build" []] None (begun (arrival db0))) as H.
    destruct H as (g' & H).
    + unfold lookups_answer. simpl. repeat split; intros; eexists; reflexivity.
    + reflexivity.
    + exists g'. eexists. split; [exact H|reflexivity].
  - edestruct (proj2 (soft_collect_hard_stop (reference two_hooks false)
                        {| Project_ID := 1; Key := "PRJ"; Environments := [];
                           Applications := [] |}
                        (Import_app (reference_Import db0
                           {| Project_ID := 1; Key := "PRJ"; Environments := [];
                              Applications := [] |} two_hooks)))
                 two_hooks false (begun (arrival db0))
                 {| RepositoriesManager_Name := "github" |}
                 [ {| Hook_Pipeline := named "build" |} ]
                 {| Hook_Pipeline := named "ghost" |} []) as [H1 H2].
    + vm_compute. reflexivity.
    + reflexivity.
    + reflexivity.
    + vm_compute. reflexivity.
    + reflexivity.
    + eexists. split; [exact H1|]. rewrite H2. reflexivity.
Defined.

(** ** Resolution of hook and poller pipelines (lines 179-224) *)

(** C5, as stated, fails.  The project has the pipeline "build".
    First run: the descriptor has a hook on "build" but lists no
    pipeline usage; the hook's pipeline is looked for among the usages
    only, stays at identifier zero, and the import stops with
    pipeline-not-found.  Second run: the application exists and
    forceUpdate is set, so the core import is skipped and the usage of
    "build" keeps the identifier it was decoded with, zero; the hook on
    "build" stops the import in the same way. *)
Lemma project_pipeline_not_consulted :
  pipeline_ExistPipeline (reference unlisted_hook false) db0 1 "build" = inr true
  /\ Hooks unlisted_hook = [ {| Hook_Pipeline := named "build" |} ]
  /\ fst (run (importApplicationHandler (reference unlisted_hook false) (request false))
            (arrival db0))
     = ReturnWrapError (Some (SdkError ErrPipelineNotFound))
         "importApplicationHandler> Pipeline not found for hook %s"
  /\ Hooks legacy_hook = [ {| Hook_Pipeline := named "build" |} ]
  /\ fst (run (importApplicationHandler (reference legacy_hook false) (request true))
            (arrival db0))
     = ReturnWrapError (Some (SdkError ErrPipelineNotFound))
         "importApplicationHandler> Pipeline not found for hook %s".
Proof. repeat split; vm_compute; reflexivity. Qed.

Lemma resolvePipeline_spec (ps : list ApplicationPipeline) (h : Pipeline) :
  (exists pre p post,
      ps = pre ++ p :: post
      /\ Forall (fun q => Pipeline_Name (AP_Pipeline q) <> Pipeline_Name h) pre
      /\ Pipeline_Name (AP_Pipeline p) = Pipeline_Name h
      /\ resolvePipeline ps h = AP_Pipeline p)
  \/ (Forall (fun q => Pipeline_Name (AP_Pipeline q) <> Pipeline_Name h) ps
      /\ resolvePipeline ps h = h).
Proof.
  induction ps as [|q ps IH]; simpl.
  - right. split; [constructor|reflexivity].
  - destruct (String.eqb (Pipeline_Name (AP_Pipeline q)) (Pipeline_Name h)) eqn:E.
    + apply String.eqb_eq in E. left. exists [], q, ps.
      repeat split; auto.
    + apply String.eqb_neq in E.
      destruct IH as [(pre & p & post & -> & F & N & R)|(F & R)].
      * left. exists (q :: pre), p, post. repeat split; auto.
      * right. split; auto.
Qed.

Lemma insert_answer (ex : Executor) (k : Call) (f : list Row -> result (list Row))
    (onErr : error -> Response) (s : State) (rows : list Row) :
  f (visible ex s) = inr rows ->
  insert ex k f onErr s = write ex rows (emit s [] [k]).
Proof.
  intro H. unfold insert. now rewrite (bind_continue _ _ _ _ _ (query_answer _ _ _ _ _ _ H)).
Qed.

Lemma insert_error (ex : Executor) (k : Call) (f : list Row -> result (list Row))
    (onErr : error -> Response) (s : State) (e : error) :
  f (visible ex s) = inl e ->
  insert ex k f onErr s = (Return (onErr e), emit s [] [k]).
Proof.
  intro H. unfold insert. now rewrite (bind_return _ _ _ _ _ (query_error _ _ _ _ _ _ H)).
Qed.

(** C5, amended.  The pipeline of a hook or poller is the pipeline of
    the first usage of the descriptor with the same name, or its own
    when no usage has that name.  The applier stops with
    pipeline-not-found exactly when that pipeline's identifier is zero;
    otherwise it calls the insert with that pipeline, through [db],
    goes on when the insert succeeds, and returns the insert's error,
    wrapped, when it fails. *)
Theorem hook_poller_resolution (c : Collaborators) (proj : Project) (app : Application) :
  (forall h,
      (exists pre p post,
          Pipelines app = pre ++ p :: post
          /\ Forall (fun q => Pipeline_Name (AP_Pipeline q) <> Pipeline_Name h) pre
          /\ Pipeline_Name (AP_Pipeline p) = Pipeline_Name h
          /\ resolvePipeline (Pipelines app) h = AP_Pipeline p)
      \/ (Forall (fun q => Pipeline_Name (AP_Pipeline q) <> Pipeline_Name h) (Pipelines app)
          /\ resolvePipeline (Pipelines app) h = h))
  /\ (forall rm h rest s,
        (Pipeline_ID (resolvePipeline (Pipelines app) (Hook_Pipeline h)) = 0 ->
         manageHooks c proj app rm (h :: rest) s
         = (Return (ReturnWrapError (Some (SdkError ErrPipelineNotFound))
                      "importApplicationHandler> Pipeline not found for hook %s"),
            emit s [sdk_NewMessage MsgAppImportPipelineNotFound
                      [ArgString (Pipeline_Name
                                    (resolvePipeline (Pipelines app) (Hook_Pipeline h)))]]
              []))
        /\ (Pipeline_ID (resolvePipeline (Pipelines app) (Hook_Pipeline h)) <> 0 ->
            forall rows,
              hook_CreateHook c (committed s) (Key proj) rm (RepositoryFullname app) app
                (resolvePipeline (Pipelines app) (Hook_Pipeline h)) = inr rows ->
              manageHooks c proj app rm (h :: rest) s
              = manageHooks c proj app rm rest
                  {| committed := committed s ++ rows; pending := pending s;
                     msgChan := msgChan s
                       ++ [sdk_NewMessage MsgHookCreated
                             [ArgString (RepositoryFullname app);
                              ArgStringPtr
                                (Pipeline_Name
                                   (resolvePipeline (Pipelines app) (Hook_Pipeline h)))]];
                     closed := closed s;
                     calls := calls s
                       ++ [CallCreateHook ViaDb
                             (resolvePipeline (Pipelines app) (Hook_Pipeline h))] |})
        /\ (Pipeline_ID (resolvePipeline (Pipelines app) (Hook_Pipeline h)) <> 0 ->
            forall err,
              hook_CreateHook c (committed s) (Key proj) rm (RepositoryFullname app) app
                (resolvePipeline (Pipelines app) (Hook_Pipeline h)) = inl err ->
              manageHooks c proj app rm (h :: rest) s
              = (Return (ReturnWrapError (Some err)
                           "importApplicationHandler> Unable to insert hook on application %s/%s on pipeline %s"),
                 emit s []
                   [CallCreateHook ViaDb
                      (resolvePipeline (Pipelines app) (Hook_Pipeline h))])))
  /\ (forall h rest s,
        (Pipeline_ID (resolvePipeline (Pipelines app) (Poller_Pipeline h)) = 0 ->
         managePollers c proj app (h :: rest) s
         = (Return (ReturnWrapError (Some (SdkError ErrPipelineNotFound))
                      "importApplicationHandler> Pipeline %s not found"),
            emit s [sdk_NewMessage MsgAppImportPipelineNotFound
                      [ArgString (Pipeline_Name
                                    (resolvePipeline (Pipelines app) (Poller_Pipeline h)))]]
              []))
        /\ (Pipeline_ID (resolvePipeline (Pipelines app) (Poller_Pipeline h)) <> 0 ->
            forall rows,
              poller_Insert c (committed s) app
                (resolvePipeline (Pipelines app) (Poller_Pipeline h)) = inr rows ->
              managePollers c proj app (h :: rest) s
              = managePollers c proj app rest
                  {| committed := committed s ++ rows; pending := pending s;
                     msgChan := msgChan s
                       ++ [sdk_NewMessage MsgPollerCreated
                             [ArgString (RepositoryFullname app);
                              ArgStringPtr
                                (Pipeline_Name
                                   (resolvePipeline (Pipelines app) (Poller_Pipeline h)))]];
                     closed := closed s;
                     calls := calls s
                       ++ [CallPollerInsert ViaDb
                             (resolvePipeline (Pipelines app) (Poller_Pipeline h))] |})
        /\ (Pipeline_ID (resolvePipeline (Pipelines app) (Poller_Pipeline h)) <> 0 ->
            forall err,
              poller_Insert c (committed s) app
                (resolvePipeline (Pipelines app) (Poller_Pipeline h)) = inl err ->
              managePollers c proj app (h :: rest) s
              = (Return (ReturnWrapError (Some err)
                           "importApplicationHandler> Unable to insert poller on application %s/%s on pipeline %s"),
                 emit s []
                   [CallPollerInsert ViaDb
                      (resolvePipeline (Pipelines app) (Poller_Pipeline h))]))).
Proof.
  split; [intro h; apply resolvePipeline_spec|]. split.
  - intros rm h rest s. cbn [manageHooks]. split; [|split].
    + intro Hid. apply Z.eqb_eq in Hid. rewrite Hid.
      now rewrite (bind_continue _ _ _ _ _ (send_emit _ _)).
    + intros Hid rows Hins. apply Z.eqb_neq in Hid. rewrite Hid.
      unfold bind at 1. rewrite (insert_answer ViaDb _ _ _ _ rows Hins).
      cbn [write]. unfold bind, send. simpl.
      now rewrite !app_nil_r.
    + intros Hid err Hins. apply Z.eqb_neq in Hid. rewrite Hid.
      apply bind_return. erewrite insert_error; [reflexivity|exact Hins].
  - intros h rest s. cbn [managePollers]. split; [|split].
    + intro Hid. apply Z.eqb_eq in Hid. rewrite Hid.
      now rewrite (bind_continue _ _ _ _ _ (send_emit _ _)).
    + intros Hid rows Hins. apply Z.eqb_neq in Hid. rewrite Hid.
      unfold bind at 1. rewrite (insert_answer ViaDb _ _ _ _ rows Hins).
      cbn [write]. unfold bind, send. simpl.
      now rewrite !app_nil_r.
    + intros Hid err Hins. apply Z.eqb_neq in Hid. rewrite Hid.
      apply bind_return. erewrite insert_error; [reflexivity|exact Hins].
Qed.

Lemma hook_poller_resolution_witness :
  manageHooks (reference two_hooks false)
    {| Project_ID := 1; Key := "PRJ"; Environments := []; Applications := [] |}
    two_hooks {| RepositoriesManager_Name := "github" |}
    [ {| Hook_Pipeline := named "ghost" |} ] (begun (arrival db0))
  = (Return (ReturnWrapError (Some (SdkError ErrPipelineNotFound))
               "importApplicationHandler> Pipeline not found for hook %s"),
     emit (begun (arrival db0))
       [sdk_NewMessage MsgAppImportPipelineNotFound [ArgString "ghost"]] []).
Proof.
  apply (proj1 (proj1 (proj2 (hook_poller_resolution (reference two_hooks false)
                  {| Project_ID := 1; Key := "PRJ"; Environments := [];
                     Applications := [] |} two_hooks))
                  {| RepositoriesManager_Name := "github" |}
                  {| Hook_Pipeline := named "ghost" |} [] (begun (arrival db0)))).
  reflexivity.
Defined.

(** ** Notifications (lines 227-262) *)

Lemma lookupPipelineID_absent (ps : list ApplicationPipeline) (name : string) :
  (forall p, In p ps -> Pipeline_Name (AP_Pipeline p) <> name) ->
  lookupPipelineID ps name = 0.
Proof.
  induction ps as [|q ps IH]; simpl; intro H; [reflexivity|].
  destruct (String.eqb (Pipeline_Name (AP_Pipeline q)) name) eqn:E.
  - apply String.eqb_eq in E. exfalso. apply (H q); auto.
  - apply IH. intros p Hp. apply H. auto.
Qed.

Lemma lookupPipelineID_found (ps : list ApplicationPipeline) (name : string) :
  lookupPipelineID ps name <> 0 ->
  exists p, In p ps /\ Pipeline_Name (AP_Pipeline p) = name
            /\ Pipeline_ID (AP_Pipeline p) = lookupPipelineID ps name.
Proof.
  induction ps as [|q ps IH]; simpl; intro H; [contradiction|].
  destruct (String.eqb (Pipeline_Name (AP_Pipeline q)) name) eqn:E.
  - apply String.eqb_eq in E. exists q. auto.
  - destruct (IH H) as (p & I & N & J). exists p. auto.
Qed.

Lemma lookupEnvironmentID_absent (envs : list Environment) (name : string) :
  (forall e, In e envs -> Environment_Name e <> name) ->
  lookupEnvironmentID envs name = 0.
Proof.
  induction envs as [|q envs IH]; simpl; intro H; [reflexivity|].
  destruct (String.eqb (Environment_Name q) name) eqn:E.
  - apply String.eqb_eq in E. exfalso. apply (H q); auto.
  - apply IH. intros p Hp. apply H. auto.
Qed.

Lemma lookupEnvironmentID_found (envs : list Environment) (name : string) :
  lookupEnvironmentID envs name <> 0 ->
  exists e, In e envs /\ Environment_Name e = name
            /\ Environment_ID e = lookupEnvironmentID envs name.
Proof.
  induction envs as [|q envs IH]; simpl; intro H; [contradiction|].
  destruct (String.eqb (Environment_Name q) name) eqn:E.
  - apply String.eqb_eq in E. exists q. auto.
  - destruct (IH H) as (p & I & N & J). exists p. auto.
Qed.

Lemma lookupPipelineID_first (pre : list ApplicationPipeline) (p : ApplicationPipeline)
    (post : list ApplicationPipeline) (name : string) :
  Forall (fun q => Pipeline_Name (AP_Pipeline q) <> name) pre ->
  Pipeline_Name (AP_Pipeline p) = name ->
  lookupPipelineID (pre ++ p :: post) name = Pipeline_ID (AP_Pipeline p).
Proof.
  intros F N. induction F as [|q pre Hq F IH]; cbn [List.app lookupPipelineID].
  - rewrite N, String.eqb_refl. reflexivity.
  - apply String.eqb_neq in Hq. rewrite Hq. exact IH.
Qed.

Lemma lookupEnvironmentID_first (pre : list Environment) (e : Environment)
    (post : list Environment) (name : string) :
  Forall (fun q => Environment_Name q <> name) pre ->
  Environment_Name e = name ->
  lookupEnvironmentID (pre ++ e :: post) name = Environment_ID e.
Proof.
  intros F N. induction F as [|q pre Hq F IH]; cbn [List.app lookupEnvironmentID].
  - rewrite N, String.eqb_refl. reflexivity.
  - apply String.eqb_neq in Hq. rewrite Hq. exact IH.
Qed.

(** C8.  For the notification at the head of the list: its pipeline
    identifier is that of the first usage of the descriptor with the
    same name (whatever usages of that name follow it), zero when there
    is none, and zero stops the applier with pipeline-not-found; its
    environment identifier is the default environment's when the name
    is empty or the default's, otherwise that of the first of the
    project's environments of that name, zero when there is none, and
    zero then stops the applier with the no-environment error;
    otherwise the notification is inserted through [tx], no message is
    sent, and the applier goes on (or returns the insert's error). *)
Theorem notification_step (c : Collaborators) (proj : Project) (app : Application)
    (notif : UserNotificationSettings) (rest : list UserNotificationSettings) (s : State) :
  let pname := Pipeline_Name (Notif_Pipeline notif) in
  let ename := Environment_Name (Notif_Environment notif) in
  let pipID := lookupPipelineID (Pipelines app) pname in
  let envID := snd (resolveEnvironment c proj notif) in
  (forall pre p post,
      Pipelines app = pre ++ p :: post ->
      Forall (fun q => Pipeline_Name (AP_Pipeline q) <> pname) pre ->
      Pipeline_Name (AP_Pipeline p) = pname ->
      pipID = Pipeline_ID (AP_Pipeline p))
  /\ (ename <> "" -> ename <> Environment_Name (DefaultEnv c) ->
      forall pre e post,
        Environments proj = pre ++ e :: post ->
        Forall (fun q => Environment_Name q <> ename) pre ->
        Environment_Name e = ename ->
        envID = Environment_ID e)
  /\ ((forall p, In p (Pipelines app) -> Pipeline_Name (AP_Pipeline p) <> pname) -> pipID = 0)
  /\ (pipID <> 0 ->
      exists p, In p (Pipelines app) /\ Pipeline_Name (AP_Pipeline p) = pname
                /\ Pipeline_ID (AP_Pipeline p) = pipID)
  /\ (pipID = 0 ->
      manageNotifications c proj app (notif :: rest) s
      = (Return (ReturnWrapError (Some (SdkError ErrPipelineNotFound))
                   "importApplicationHandler> Pipeline %s not found for notification %+v"),
         s))
  /\ (ename = "" \/ ename = Environment_Name (DefaultEnv c) ->
      resolveEnvironment c proj notif
      = ({| Notif_Pipeline := Notif_Pipeline notif; Notif_Environment := DefaultEnv c |},
         Environment_ID (DefaultEnv c)))
  /\ (ename <> "" -> ename <> Environment_Name (DefaultEnv c) ->
      resolveEnvironment c proj notif
      = (notif, lookupEnvironmentID (Environments proj) ename)
      /\ ((forall e, In e (Environments proj) -> Environment_Name e <> ename) -> envID = 0)
      /\ (envID <> 0 ->
          exists e, In e (Environments proj) /\ Environment_Name e = ename
                    /\ Environment_ID e = envID))
  /\ (pipID <> 0 -> envID = 0 ->
      manageNotifications c proj app (notif :: rest) s
      = (Return (ReturnWrapError (Some (SdkError ErrNoEnvironment))
                   "importApplicationHandler> Environment %s not found for notification %+v"),
         s))
  /\ (pipID <> 0 -> envID <> 0 ->
      (forall rows,
          notification_InsertOrUpdateUserNotificationSettings c (visible ViaTx s)
            (ID app) pipID envID (fst (resolveEnvironment c proj notif)) = inr rows ->
          manageNotifications c proj app (notif :: rest) s
          = manageNotifications c proj app rest
              {| committed := committed s;
                 pending := match pending s with
                            | Some p => Some (p ++ rows)
                            | None => None
                            end;
                 msgChan := msgChan s; closed := closed s;
                 calls := calls s ++ [CallNotificationInsert ViaTx pipID envID] |})
      /\ (forall err,
            notification_InsertOrUpdateUserNotificationSettings c (visible ViaTx s)
              (ID app) pipID envID (fst (resolveEnvironment c proj notif)) = inl err ->
            manageNotifications c proj app (notif :: rest) s
            = (Return (ReturnWrapError (Some err)
                         "importApplicationHandler> Unable to insert notification on application %s/%s on pipeline %s"),
               emit s [] [CallNotificationInsert ViaTx pipID envID]))).
Proof.
  intros pname ename pipID envID.
  split.
  { intros pre p post E F N. subst pipID. rewrite E.
    now apply lookupPipelineID_first. }
  split.
  { intros H1 H2 pre e post E F N. subst envID. unfold resolveEnvironment. fold ename.
    apply String.eqb_neq in H1, H2. rewrite H1, H2. cbn [orb snd]. rewrite E.
    now apply lookupEnvironmentID_first. }
  split; [apply lookupPipelineID_absent|].
  split; [apply lookupPipelineID_found|].
  split.
  { intro H. cbn [manageNotifications]. fold pname. fold pipID. rewrite H.
    destruct (resolveEnvironment c proj notif). reflexivity. }
  split.
  { intro H. unfold resolveEnvironment. fold ename.
    destruct H as [H|H]; rewrite H.
    - reflexivity.
    - rewrite String.eqb_refl, orb_true_r. reflexivity. }
  split.
  { intros H1 H2.
    assert (resolveEnvironment c proj notif
            = (notif, lookupEnvironmentID (Environments proj) ename)) as E.
    { unfold resolveEnvironment. fold ename.
      apply String.eqb_neq in H1, H2. now rewrite H1, H2. }
    split; [exact E|]. subst envID. rewrite E. cbn [snd].
    split; [apply lookupEnvironmentID_absent|apply lookupEnvironmentID_found]. }
  split.
  { intros H1 H2. cbn [manageNotifications]. fold pname. fold pipID.
    subst envID. destruct (resolveEnvironment c proj notif) as [n' e']. cbn [snd] in H2.
    apply Z.eqb_neq in H1. rewrite H1, H2. reflexivity. }
  intros H1 H2.
  split.
  - intros rows Hins. cbn [manageNotifications]. fold pname. fold pipID.
    subst envID. destruct (resolveEnvironment c proj notif) as [n' e']. cbn [fst snd] in *.
    apply Z.eqb_neq in H1, H2. rewrite H1, H2.
    unfold bind at 1. rewrite (insert_answer ViaTx _ _ _ _ rows Hins).
    cbn [write]. simpl. now rewrite !app_nil_r.
  - intros err Hins. cbn [manageNotifications]. fold pname. fold pipID.
    subst envID. destruct (resolveEnvironment c proj notif) as [n' e']. cbn [fst snd] in *.
    apply Z.eqb_neq in H1, H2. rewrite H1, H2.
    apply bind_return. erewrite insert_error; [reflexivity|exact Hins].
Qed.

Lemma notification_step_witness :
  manageNotifications (reference notified false)
    {| Project_ID := 1; Key := "PRJ";
       Environments := environments_of "PRJ" db0; Applications := [] |}
    (Import_app (reference_Import db0
       {| Project_ID := 1; Key := "PRJ";
          Environments := environments_of "PRJ" db0; Applications := [] |} notified))
    (Notifications notified) (begun (arrival db0))
  = (Continue tt,
     {| committed := db0; pending := Some [NotificationRow 42 7 5];
        msgChan := []; closed := false;
        calls := [CallBegin; CallNotificationInsert ViaTx 7 5] |}).
Proof.
  pose proof (notification_step (reference notified false)
                {| Project_ID := 1; Key := "PRJ";
                   Environments := environments_of "PRJ" db0; Applications := [] |}
                (Import_app (reference_Import db0
                   {| Project_ID := 1; Key := "PRJ";
                      Environments := environments_of "PRJ" db0;
                      Applications := [] |} notified))
                {| Notif_Pipeline := named "build";
                   Notif_Environment :=
                     {| Environment_ID := 0; Environment_Name := "prod" |} |}
                [] (begun (arrival db0))) as H.
  cbv zeta in H. destruct H as (_ & _ & _ & _ & _ & _ & _ & _ & H).
  destruct H as [H _]; [vm_compute; discriminate|vm_compute; discriminate|].
  change (Notifications notified)
    with [ {| Notif_Pipeline := named "build";
              Notif_Environment :=
                {| Environment_ID := 0; Environment_Name := "prod" |} |} ].
  rewrite (H [NotificationRow 42 7 5] eq_refl). reflexivity.
Defined.

(** ** What the answer carries (lines 269-298) *)

(** C2, as stated, fails.  The core import has sent "application
    created"; then [hook.CreateHook] fails.  The handler returns the
    wrapped error of line 192: no list of messages goes with it, though
    one message had been accumulated. *)
Lemma hook_insert_failure_carries_no_list :
  fst (run (importApplicationHandler (reference one_hook true) (request false))
         (arrival db0))
  = ReturnWrapError (Some (OtherError "repositories manager unreachable"))
      "importApplicationHandler> Unable to insert hook on application %s/%s on pipeline %s"
  /\ render reference_String "en-US"
       (msgChan (snd (run (importApplicationHandler (reference one_hook true)
                             (request false)) (arrival db0)))
        ++ [zero_Message]) []
     = ["Application web created"].
Proof. split; reflexivity. Qed.

Lemma yields_bind_with {A B} (P : A -> Prop) (Q : B -> Prop)
    (m : Handler A) (k : A -> Handler B) :
  yields P m -> (forall a, P a -> yields Q (k a)) -> yields Q (bind m k).
Proof.
  intros Hm Hk s b s' H. apply bind_inv in H.
  destruct H as [(r & _ & E)|(a & s1 & Ha & E)]; [discriminate|].
  eapply Hk; eauto.
Qed.

Lemma yields_ret {A} (Q : A -> Prop) (a : A) : Q a -> yields Q (ret a).
Proof. intros Ha s b s' H. inversion H; subst. exact Ha. Qed.

Lemma guarded_check_structured (guard : bool) (k : Call) (f : list Row -> result bool)
    (onErr : error -> Response) (msg : Message) (e : sdk_Error) (g : option error) :
  structured g ->
  yields structured
    (if guard then
       ok <- query ViaTx k f onErr ;;
       if negb ok then send msg ;; ret (Some (SdkError e)) else ret g
     else ret g).
Proof.
  intro Hg. destruct guard; [|now apply yields_ret].
  apply yields_bind. intro ok. destruct ok; simpl; [now apply yields_ret|].
  apply yields_bind. intro. apply yields_ret. right. eauto.
Qed.

Lemma checkTrigger_structured (c : Collaborators) (proj : Project) (app : Application)
    (t : PipelineTrigger) (g : option error) :
  structured g -> yields structured (checkTrigger c proj app t g).
Proof.
  intro Hg. unfold checkTrigger.
  eapply yields_bind_with; [now apply guarded_check_structured|]. intros g1 H1.
  eapply yields_bind_with; [now apply guarded_check_structured|]. intros g2 H2.
  now apply guarded_check_structured.
Qed.

Lemma checkTriggers_structured (c : Collaborators) (proj : Project) (app : Application)
    (ts : list PipelineTrigger) (g : option error) :
  structured g -> yields structured (checkTriggers c proj app ts g).
Proof.
  revert g; induction ts as [|t ts IH]; intros g Hg; simpl.
  - now apply yields_ret.
  - eapply yields_bind_with; [now apply checkTrigger_structured|]. auto.
Qed.

Lemma checkPipelines_structured (c : Collaborators) (proj : Project) (app : Application)
    (ps : list ApplicationPipeline) (g : option error) :
  structured g -> yields structured (checkPipelines c proj app ps g).
Proof.
  revert g; induction ps as [|p ps IH]; intros g Hg; simpl.
  - now apply yields_ret.
  - apply yields_bind. intro ok.
    eapply yields_bind_with with (P := structured).
    + destruct ok; simpl; [now apply yields_ret|].
      apply yields_bind. intro. apply yields_ret. right. eauto.
    + intros g1 H1.
      eapply yields_bind_with; [now apply checkTriggers_structured|]. auto.
Qed.

(** C2, amended.  (1) Whenever the handler answers through [WriteJSON],
    the body is the rendering of every message sent during the call.
    (2) A validation rejection answers so, under the status of its
    error.  (3) When the applier comes back: a failure of the core
    import with a [*sdk.Error] answers so too, under that error's
    status; with any other error the handler returns the wrapped error
    alone; with no error, and [finish] reaching its last line, the
    answer is the list under status OK.  (4) When the applier returns
    early (an insert failed, say), the handler returns that error
    alone. *)
Theorem diagnostics_carried (c : Collaborators) (r : Request) (db : list Row) :
  (forall body st s',
      run (importApplicationHandler c r) (arrival db) = (WriteJSON body st, s') ->
      body = render (Message_String c) (Header_AcceptLanguage r)
               (msgChan s' ++ [zero_Message]) []
      /\ closed s' = true)
  /\ (forall proj app exist s1 e s2,
        prelude c r (arrival db) = (Continue (proj, app, exist), s1) ->
        db_Begin c db = None ->
        exist && negb (FormBool_forceUpdate r) = false ->
        checkPipelines c proj app (Pipelines app) None (begun s1)
        = (Continue (Some e), s2) ->
        exists e',
          e = SdkError e'
          /\ run (importApplicationHandler c r) (arrival db)
             = (WriteJSON
                  (render (Message_String c) (Header_AcceptLanguage r)
                     (msgChan s2 ++ [zero_Message]) [])
                  (Status c e'),
                Rollback (after_close s2)))
  /\ (forall proj app exist s1 s2 g app' s3,
        prelude c r (arrival db) = (Continue (proj, app, exist), s1) ->
        db_Begin c db = None ->
        exist && negb (FormBool_forceUpdate r) = false ->
        checkPipelines c proj app (Pipelines app) None (begun s1)
        = (Continue None, s2) ->
        apply c proj app exist s2 = (Continue (g, app'), s3) ->
        match g with
        | Some (SdkError e') =>
            run (importApplicationHandler c r) (arrival db)
            = (WriteJSON
                 (render (Message_String c) (Header_AcceptLanguage r)
                    (msgChan s3 ++ [zero_Message]) [])
                 (Status c e'),
               Rollback (after_close s3))
        | Some (OtherError d) =>
            run (importApplicationHandler c r) (arrival db)
            = (ReturnWrapError (Some (OtherError d))
                 "importApplicationHandler> Unable import pipeline",
               Rollback (after_close s3))
        | None =>
            forall resp s4,
              finish c proj app' None
                (render (Message_String c) (Header_AcceptLanguage r)
                   (msgChan s3 ++ [zero_Message]) [])
                (after_close s3)
              = (Continue resp, s4) ->
              run (importApplicationHandler c r) (arrival db)
              = (WriteJSON
                   (render (Message_String c) (Header_AcceptLanguage r)
                      (msgChan s3 ++ [zero_Message]) [])
                   http_StatusOK,
                 Rollback s4)
        end)
  /\ (forall proj app exist s1 s2 resp s3,
        prelude c r (arrival db) = (Continue (proj, app, exist), s1) ->
        db_Begin c db = None ->
        exist && negb (FormBool_forceUpdate r) = false ->
        checkPipelines c proj app (Pipelines app) None (begun s1)
        = (Continue None, s2) ->
        apply c proj app exist s2 = (Return resp, s3) ->
        run (importApplicationHandler c r) (arrival db) = (resp, Rollback s3)
        /\ forall body st, resp <> WriteJSON body st).
Proof.
  split; [intros body st s'; apply handler_json|].
  split; [|split].
  - intros proj app exist s1 e s2 Hp Hb Hg Hv.
    destruct (checkPipelines_structured c proj app (Pipelines app) None
                (or_introl eq_refl) _ _ _ Hv) as [E|[e' E]]; [discriminate|].
    inversion E; subst e. exists e'. split; [reflexivity|].
    unfold run. rewrite (handler_after_Begin _ _ _ _ _ _ _ Hp Hb).
    unfold defer_Rollback, transaction. rewrite Hg.
    rewrite (bind_continue _ _ _ _ _ Hv). cbv beta iota.
    rewrite bind_ret. cbn [fst snd].
    rewrite (bind_continue _ _ _ _ _ (drain_and_render_run _ _ _)).
    reflexivity.
  - intros proj app exist s1 s2 g app' s3 Hp Hb Hg Hv Ha.
    assert (forall out s4,
               finish c proj app' g
                 (render (Message_String c) (Header_AcceptLanguage r)
                    (msgChan s3 ++ [zero_Message]) [])
                 (after_close s3) = (out, s4) ->
               importApplicationHandler c r (arrival db) = (out, Rollback s4)) as Hrun.
    { intros out s4 Hf.
      rewrite (handler_after_Begin _ _ _ _ _ _ _ Hp Hb).
      unfold defer_Rollback, transaction. rewrite Hg.
      rewrite (bind_continue _ _ _ _ _ Hv). cbv beta iota.
      rewrite (bind_continue _ _ _ _ _ Ha). cbn [fst snd].
      rewrite (bind_continue _ _ _ _ _ (drain_and_render_run _ _ _)).
      now rewrite Hf. }
    destruct g as [[e'|d]|].
    + unfold run. now rewrite (Hrun _ _ eq_refl).
    + unfold run. now rewrite (Hrun _ _ eq_refl).
    + intros resp s4 Hf. unfold run. rewrite (Hrun _ _ Hf).
      f_equal.
      revert Hf. unfold finish. intro Hf.
      repeat bind_continue_inv Hf. now inversion Hf.
  - intros proj app exist s1 s2 resp s3 Hp Hb Hg Hv Ha.
    split; [|eapply plain_apply; eauto].
    unfold run. rewrite (handler_after_Begin _ _ _ _ _ _ _ Hp Hb).
    unfold defer_Rollback, transaction. rewrite Hg.
    rewrite (bind_continue _ _ _ _ _ Hv). cbv beta iota.
    now rewrite (bind_return _ _ _ _ _ Ha).
Qed.

Lemma diagnostics_carried_witness :
  ["Application web created"; "Hook created on acme/web"]
  = render reference_String "en-US"
      (msgChan (snd (run (importApplicationHandler (reference one_hook false)
                            (request false)) (arrival db0)))
       ++ [zero_Message]) []
  /\ closed (snd (run (importApplicationHandler (reference one_hook false)
                         (request false)) (arrival db0))) = true.
Proof.
  apply (proj1 (diagnostics_carried (reference one_hook false) (request false) db0)
           ["Application web created"; "Hook created on acme/web"] 200
           (snd (run (importApplicationHandler (reference one_hook false)
                        (request false)) (arrival db0)))).
  vm_compute. reflexivity.
Defined.

(** ** The core step for an application that exists (lines 170-175) *)

Lemma bind_ext {A B} (m m' : Handler A) (k k' : A -> Handler B) (s : State) :
  (forall s0, m s0 = m' s0) -> (forall a s0, k a s0 = k' a s0) ->
  bind m k s = bind m' k' s.
Proof.
  intros Hm Hk. unfold bind. rewrite Hm.
  destruct (m' s) as [[a|r] s1]; [apply Hk|reflexivity].
Qed.

Section ImportIrrelevant.

Variable c : Collaborators.
Variable f : list Row -> Project -> Application -> ImportResult.

Lemma loadGroups_Import (gs : list GroupPermission) (s : State) :
  loadGroups (with_Import c f) gs s = loadGroups c gs s.
Proof.
  revert s; induction gs as [|eg gs IH]; intro s; [reflexivity|].
  cbn [loadGroups]. apply bind_ext; [reflexivity|]. intros g s0.
  apply bind_ext; [exact IH|reflexivity].
Qed.

Lemma prelude_Import (r : Request) (s : State) :
  prelude (with_Import c f) r s = prelude c r s.
Proof.
  unfold prelude.
  repeat (apply bind_ext; [reflexivity|intros ? ?]).
  apply bind_ext; [apply loadGroups_Import|reflexivity].
Qed.

Lemma checkTriggers_Import (proj : Project) (app : Application)
    (ts : list PipelineTrigger) (g : option error) (s : State) :
  checkTriggers (with_Import c f) proj app ts g s = checkTriggers c proj app ts g s.
Proof.
  revert g s; induction ts as [|t ts IH]; intros g s; [reflexivity|].
  cbn [checkTriggers]. apply bind_ext; [reflexivity|]. intros. apply IH.
Qed.

Lemma checkPipelines_Import (proj : Project) (app : Application)
    (ps : list ApplicationPipeline) (g : option error) (s : State) :
  checkPipelines (with_Import c f) proj app ps g s = checkPipelines c proj app ps g s.
Proof.
  revert g s; induction ps as [|p ps IH]; intros g s; [reflexivity|].
  cbn [checkPipelines]. apply bind_ext; [reflexivity|]. intros ok s0.
  apply bind_ext; [reflexivity|]. intros g1 s1.
  apply bind_ext; [apply checkTriggers_Import|]. intros. apply IH.
Qed.

Lemma manageHooks_Import (proj : Project) (app : Application)
    (rm : RepositoriesManager) (hooks : list Hook) (s : State) :
  manageHooks (with_Import c f) proj app rm hooks s = manageHooks c proj app rm hooks s.
Proof.
  revert s; induction hooks as [|h hooks IH]; intro s; [reflexivity|].
  cbn [manageHooks]. destruct (Pipeline_ID _ =? 0); [reflexivity|].
  apply bind_ext; [reflexivity|]. intros.
  apply bind_ext; [reflexivity|]. intros. apply IH.
Qed.

Lemma managePollers_Import (proj : Project) (app : Application)
    (pollers : list RepositoryPoller) (s : State) :
  managePollers (with_Import c f) proj app pollers s = managePollers c proj app pollers s.
Proof.
  revert s; induction pollers as [|h pollers IH]; intro s; [reflexivity|].
  cbn [managePollers]. destruct (Pipeline_ID _ =? 0); [reflexivity|].
  apply bind_ext; [reflexivity|]. intros.
  apply bind_ext; [reflexivity|]. intros. apply IH.
Qed.

Lemma manageNotifications_Import (proj : Project) (app : Application)
    (notifs : list UserNotificationSettings) (s : State) :
  manageNotifications (with_Import c f) proj app notifs s
  = manageNotifications c proj app notifs s.
Proof.
  revert s; induction notifs as [|n notifs IH]; intro s; [reflexivity|].
  cbn [manageNotifications].
  change (resolveEnvironment (with_Import c f) proj n) with (resolveEnvironment c proj n).
  destruct (resolveEnvironment c proj n) as [n' envID].
  destruct (lookupPipelineID _ _ =? 0); [reflexivity|].
  destruct (envID =? 0); [reflexivity|].
  apply bind_ext; [reflexivity|]. intros. apply IH.
Qed.

Lemma manage_Import (proj : Project) (app : Application) (s : State) :
  manage (with_Import c f) proj app s = manage c proj app s.
Proof.
  unfold manage. apply bind_ext.
  - intro s0. destruct (App_RepositoriesManager app); [|reflexivity].
    apply bind_ext; [apply manageHooks_Import|]. intros. apply managePollers_Import.
  - intros. apply manageNotifications_Import.
Qed.

(** With [exist] true the transaction part never looks at the core
    import. *)
Lemma transaction_Import (al : string) (forceUpdate : bool) (proj : Project)
    (app : Application) (s : State) :
  transaction (with_Import c f) al forceUpdate proj app true s
  = transaction c al forceUpdate proj app true s.
Proof.
  unfold transaction. destruct (true && negb forceUpdate); [reflexivity|].
  apply bind_ext; [apply checkPipelines_Import|]. intros g s0.
  apply bind_ext; [|reflexivity]. intro s1.
  destruct g; [reflexivity|].
  unfold apply. rewrite !bind_ret. cbn [fst snd].
  apply bind_ext; [apply manage_Import|reflexivity].
Qed.

End ImportIrrelevant.

Ltac logs_step :=
  first
    [ apply logs_ret
    | apply logs_exit
    | apply logs_send
    | apply logs_write
    | apply logs_send_all
    | apply logs_log; discriminate
    | apply logs_query; discriminate
    | apply logs_insert; discriminate ].

Ltac logs_auto :=
  repeat first
    [ logs_step
    | apply logs_bind; [|intro]
    | match goal with
      | |- logs _ (if ?b then _ else _) => destruct b
      | |- logs _ (match ?x with _ => _ end) => destruct x
      end ].

Lemma logs_loadGroups (c : Collaborators) (gs : list GroupPermission) :
  logs not_Import (loadGroups c gs).
Proof.
  induction gs as [|eg gs IH]; simpl; [logs_auto|].
  apply logs_bind; [logs_auto|]. intro g.
  apply logs_bind; [exact IH|]. intro. logs_auto.
Qed.

Lemma logs_prelude (c : Collaborators) (r : Request) : logs not_Import (prelude c r).
Proof.
  unfold prelude, parse.
  repeat (apply logs_bind; [try logs_step|intro]).
  - destruct a1; logs_auto.
  - apply logs_loadGroups.
  - intros s out s' H. inversion H; subst. exists []. now rewrite app_nil_r.
  - logs_auto.
Qed.

Lemma logs_Begin (c : Collaborators) : logs not_Import (Begin c).
Proof.
  unfold Begin. apply logs_bind; [logs_auto|]. intros _ s out s' H.
  exists []. rewrite app_nil_r.
  destruct (db_Begin c (committed s)); inversion H; subst; auto.
Qed.

Lemma logs_Commit (c : Collaborators) : logs not_Import (Commit c).
Proof.
  unfold Commit. apply logs_bind; [logs_auto|]. intros _ s out s' H.
  exists []. rewrite app_nil_r.
  destruct (tx_Commit c (committed s) _); inversion H; subst; auto.
Qed.

Lemma logs_checkTriggers (c : Collaborators) (proj : Project) (app : Application)
    (ts : list PipelineTrigger) (g : option error) :
  logs not_Import (checkTriggers c proj app ts g).
Proof.
  revert g; induction ts as [|t ts IH]; intro g; simpl; [logs_auto|].
  apply logs_bind; [unfold checkTrigger; logs_auto|auto].
Qed.

Lemma logs_checkPipelines (c : Collaborators) (proj : Project) (app : Application)
    (ps : list ApplicationPipeline) (g : option error) :
  logs not_Import (checkPipelines c proj app ps g).
Proof.
  revert g; induction ps as [|p ps IH]; intro g; simpl; [logs_auto|].
  apply logs_bind; [logs_auto|]. intro ok.
  apply logs_bind; [logs_auto|]. intro g1.
  apply logs_bind; [apply logs_checkTriggers|auto].
Qed.

Lemma logs_manageHooks (c : Collaborators) (proj : Project) (app : Application)
    (rm : RepositoriesManager) (hooks : list Hook) :
  logs not_Import (manageHooks c proj app rm hooks).
Proof.
  induction hooks as [|h hooks IH]; simpl; [logs_auto|].
  destruct (Pipeline_ID _ =? 0); [logs_auto|].
  apply logs_bind; [logs_auto|]. intro.
  apply logs_bind; [logs_auto|auto].
Qed.

Lemma logs_managePollers (c : Collaborators) (proj : Project) (app : Application)
    (pollers : list RepositoryPoller) :
  logs not_Import (managePollers c proj app pollers).
Proof.
  induction pollers as [|h pollers IH]; simpl; [logs_auto|].
  destruct (Pipeline_ID _ =? 0); [logs_auto|].
  apply logs_bind; [logs_auto|]. intro.
  apply logs_bind; [logs_auto|auto].
Qed.

Lemma logs_manageNotifications (c : Collaborators) (proj : Project) (app : Application)
    (notifs : list UserNotificationSettings) :
  logs not_Import (manageNotifications c proj app notifs).
Proof.
  induction notifs as [|n notifs IH]; simpl; [logs_auto|].
  destruct (resolveEnvironment c proj n) as [n' envID].
  destruct (lookupPipelineID _ _ =? 0); [logs_auto|].
  destruct (envID =? 0); [logs_auto|].
  apply logs_bind; [logs_auto|auto].
Qed.

Lemma logs_manage (c : Collaborators) (proj : Project) (app : Application) :
  logs not_Import (manage c proj app).
Proof.
  unfold manage. apply logs_bind.
  - destruct (App_RepositoriesManager app); [|logs_auto].
    apply logs_bind; [apply logs_manageHooks|]. intro. apply logs_managePollers.
  - intro. apply logs_manageNotifications.
Qed.

Lemma logs_finish (c : Collaborators) (proj : Project) (app : Application)
    (g : option error) (l : list string) :
  logs not_Import (finish c proj app g l).
Proof.
  unfold finish. destruct g as [[e|d]|]; [apply logs_ret|apply logs_ret|].
  apply logs_bind; [logs_step|]. intro.
  apply logs_bind; [apply logs_Commit|]. intro.
  apply logs_bind; [logs_step|]. intro.
  apply logs_bind; [logs_step|]. intro. apply logs_ret.
Qed.

Lemma logs_transaction_existing (c : Collaborators) (al : string) (forceUpdate : bool)
    (proj : Project) (app : Application) :
  logs not_Import (transaction c al forceUpdate proj app true).
Proof.
  unfold transaction. destruct (true && negb forceUpdate); [logs_auto|].
  apply logs_bind; [apply logs_checkPipelines|]. intro g.
  apply logs_bind.
  - destruct g; [logs_auto|]. unfold apply.
    apply logs_bind; [apply logs_ret|]. intros [g a]. cbn [fst snd].
    destruct g; [logs_auto|].
    apply logs_bind; [apply logs_manage|]. intro. apply logs_ret.
  - intro x. apply logs_bind; [|intro; apply logs_finish].
    intros s out s' H. rewrite drain_and_render_run in H. inversion H; subst.
    exists []. simpl. now rewrite app_nil_r.
Qed.

Lemma logs_defer_Rollback {A} (m : Handler A) :
  logs not_Import m -> logs not_Import (defer_Rollback m).
Proof.
  intros Hm s out s' H. unfold defer_Rollback in H.
  destruct (m s) as [o s0] eqn:E. inversion H; subst.
  destruct (Hm _ _ _ E) as (ks & Hk & F).
  exists (ks ++ [CallRollback]). simpl. rewrite Hk, app_assoc.
  split; [reflexivity|]. apply Forall_app. split; [exact F|].
  constructor; [discriminate|constructor].
Qed.

(** C9.  When the probe has answered that the application exists and
    forceUpdate is set, the handler passes the guard and the core step
    does nothing: the run is the same whatever [application.Import]
    would do, that function is never called, the applier goes straight
    to hooks, pollers and notifications with the descriptor as it was
    decoded, and the handler is validation, that applier, the rendering
    and the way out, inside the transaction. *)
Theorem force_update_skips_core_step (c : Collaborators) (r : Request) (db : list Row)
    (proj : Project) (app : Application) (s1 : State) :
  prelude c r (arrival db) = (Continue (proj, app, true), s1) ->
  FormBool_forceUpdate r = true ->
  (forall f,
      run (importApplicationHandler (with_Import c f) r) (arrival db)
      = run (importApplicationHandler c r) (arrival db))
  /\ ~ In (CallImport ViaTx)
         (calls (snd (run (importApplicationHandler c r) (arrival db))))
  /\ (forall s, apply c proj app true s = (manage c proj app ;; ret (None, app)) s)
  /\ (db_Begin c db = None ->
      importApplicationHandler c r (arrival db)
      = defer_Rollback
          (globalError <- checkPipelines c proj app (Pipelines app) None ;;
           x <- match globalError with
                | None => manage c proj app ;; ret (None, app)
                | Some _ => ret (globalError, app)
                end ;;
           msgListString <- drain_and_render c (Header_AcceptLanguage r) ;;
           finish c proj (snd x) (fst x) msgListString)
          (begun s1)).
Proof.
  intros Hp Hf.
  split; [|split; [|split]].
  - intro f. unfold run.
    assert (importApplicationHandler (with_Import c f) r (arrival db)
            = importApplicationHandler c r (arrival db)) as E; [|now rewrite E].
    unfold importApplicationHandler.
    assert (prelude (with_Import c f) r (arrival db)
            = (Continue (proj, app, true), s1)) as Hp'.
    { now rewrite prelude_Import. }
    rewrite (bind_continue _ _ _ _ _ Hp), (bind_continue _ _ _ _ _ Hp').
    cbn [fst snd].
    apply bind_ext; [reflexivity|]. intros _ s0.
    unfold defer_Rollback. now rewrite transaction_Import.
  - intro Hin. unfold run in Hin.
    destruct (importApplicationHandler c r (arrival db)) as [out s'] eqn:E.
    assert (calls s' = calls (snd (out, s'))) as Hs by reflexivity.
    assert (In (CallImport ViaTx) (calls s')) as Hin'.
    { destruct out; exact Hin. }
    clear Hin Hs.
    unfold importApplicationHandler in E.
    destruct (logs_prelude c r _ _ _ Hp) as (k1 & E1 & F1).
    rewrite (bind_continue _ _ _ _ _ Hp) in E. cbn [fst snd] in E.
    assert (logs not_Import
              (Begin c ;;
               defer_Rollback
                 (transaction c (Header_AcceptLanguage r) (FormBool_forceUpdate r)
                    proj app true))) as L.
    { apply logs_bind; [apply logs_Begin|]. intro.
      apply logs_defer_Rollback. apply logs_transaction_existing. }
    destruct (L _ _ _ E) as (k2 & E2 & F2).
    rewrite E2, E1 in Hin'. simpl in Hin'.
    apply in_app_or in Hin'. destruct Hin' as [H|H].
    + rewrite Forall_forall in F1. now apply (F1 _ H).
    + rewrite Forall_forall in F2. now apply (F2 _ H).
  - intro s. reflexivity.
  - intro Hb. rewrite (handler_after_Begin _ _ _ _ _ _ _ Hp Hb).
    unfold transaction. rewrite Hf. reflexivity.
Qed.

Lemma force_update_skips_core_step_witness :
  run (importApplicationHandler
         (with_Import (reference legacy false)
            (fun _ _ a =>
               {| Import_err := Some (OtherError "never called");
                  Import_app := a; Import_msgs := []; Import_rows := [] |}))
         (request true)) (arrival db0)
  = run (importApplicationHandler (reference legacy false) (request true)) (arrival db0)
  /\ fst (run (importApplicationHandler (reference legacy false) (request true))
            (arrival db0))
     = WriteJSON [] 200
  /\ committed (snd (run (importApplicationHandler (reference legacy false)
                            (request true)) (arrival db0)))
     = db0 ++ [ProjectModifiedRow "PRJ"].
Proof.
  split; [|split; vm_compute; reflexivity].
  edestruct (force_update_skips_core_step (reference legacy false) (request true) db0)
    as (H & _).
  - vm_compute. reflexivity.
  - reflexivity.
  - apply H.
Defined.

(** ** Atomicity (lines 109-114, 174, 191, 218, 258) *)

(** C1, on the code.  The descriptor lists the pipeline "build" and has
    two hooks, on "build" and on "ghost".  The core import inserts the
    application through [tx]; the first hook is created through [db]
    (line 191); the second does not resolve and the handler returns.
    The rollback drops the application, and the hook stays: the import
    has persisted one entity out of three. *)
Theorem hook_survives_rollback :
  fst (run (importApplicationHandler (reference two_hooks false) (request false))
         (arrival db0))
  = ReturnWrapError (Some (SdkError ErrPipelineNotFound))
      "importApplicationHandler> Pipeline not found for hook %s"
  /\ committed (snd (run (importApplicationHandler (reference two_hooks false)
                            (request false)) (arrival db0)))
     = db0 ++ [HookRow "PRJ" "web" build]
  /\ pending (snd (run (importApplicationHandler (reference two_hooks false)
                          (request false)) (arrival db0)))
     = None
  /\ existsb (is_application 1 "web")
       (committed (snd (run (importApplicationHandler (reference two_hooks false)
                               (request false)) (arrival db0))))
     = false
  /\ calls (snd (run (importApplicationHandler (reference two_hooks false)
                        (request false)) (arrival db0)))
     = [ CallProjectLoad "PRJ"; CallLoadGroupByProject; CallReadAll;
         CallGetFormat "yaml"; CallUnmarshal;
         CallApplicationExists ViaDb "web"; CallPayloadApplication;
         CallBegin; CallExistPipeline ViaTx "build"; CallImport ViaTx;
         CallCreateHook ViaDb build; CallRollback ].
Proof. repeat split; vm_compute; reflexivity. Qed.

(** * More of the handler *)

(** ** Relations that hold across every part *)

Section Relates.

Variable R : State -> State -> Prop.
Hypothesis R_refl : forall s, R s s.
Hypothesis R_trans : forall a b c, R a b -> R b c -> R a c.

Lemma relates_ret {A} (a : A) : relates R (ret a).
Proof. intros s out s' H. inversion H; subst. apply R_refl. Qed.

Lemma relates_exit {A} (r : Response) : relates R (@exit A r).
Proof. intros s out s' H. inversion H; subst. apply R_refl. Qed.

Lemma relates_bind {A B} (m : Handler A) (k : A -> Handler B) :
  relates R m -> (forall a, relates R (k a)) -> relates R (bind m k).
Proof.
  intros Hm Hk s out s' H. apply bind_inv in H.
  destruct H as [(r & H & _)|(a & s1 & H1 & H2)].
  - eapply Hm; eauto.
  - eapply R_trans; [eapply Hm|eapply Hk]; eauto.
Qed.

End Relates.

Lemma no_db_writer_app (k1 k2 : list Call) :
  no_db_writer (k1 ++ k2) = no_db_writer k1 && no_db_writer k2.
Proof. apply forallb_app. Qed.

Lemma db_frame_refl (s : State) : db_frame s s.
Proof. exists []. now rewrite app_nil_r. Qed.

Lemma db_frame_trans (a b c : State) : db_frame a b -> db_frame b c -> db_frame a c.
Proof.
  intros (k1 & E1 & F1) (k2 & E2 & F2). exists (k1 ++ k2).
  rewrite E2, E1, app_assoc. split; [reflexivity|].
  rewrite no_db_writer_app. intro H. apply andb_prop in H. destruct H as [H1 H2].
  rewrite (F2 H2). now apply F1.
Qed.

Lemma quiet_frame_refl (s : State) : quiet_frame s s.
Proof. split; [reflexivity|apply db_frame_refl]. Qed.

Lemma quiet_frame_trans (a b c : State) :
  quiet_frame a b -> quiet_frame b c -> quiet_frame a c.
Proof.
  intros [C1 D1] [C2 D2]. split; [congruence|eapply db_frame_trans; eauto].
Qed.

Lemma quiet_ret {A} (a : A) : relates quiet_frame (ret a).
Proof. apply relates_ret, quiet_frame_refl. Qed.

Lemma quiet_exit {A} (r : Response) : relates quiet_frame (@exit A r).
Proof. apply relates_exit, quiet_frame_refl. Qed.

Lemma quiet_bind {A B} (m : Handler A) (k : A -> Handler B) :
  relates quiet_frame m -> (forall a, relates quiet_frame (k a)) ->
  relates quiet_frame (bind m k).
Proof. apply relates_bind, quiet_frame_trans. Qed.

Lemma quiet_same_store (s s' : State) :
  closed s' = closed s -> committed s' = committed s ->
  (exists ks, calls s' = calls s ++ ks) -> quiet_frame s s'.
Proof.
  intros Hc Hd (ks & Hk). split; [exact Hc|]. exists ks. auto.
Qed.

Lemma quiet_log (k : Call) : relates quiet_frame (log k).
Proof.
  intros s out s' H. inversion H; subst.
  apply quiet_same_store; simpl; eauto.
Qed.

Lemma quiet_send (m : Message) : relates quiet_frame (send m).
Proof.
  intros s out s' H. inversion H; subst.
  apply quiet_same_store; simpl; auto. exists []. now rewrite app_nil_r.
Qed.

Lemma quiet_send_all (ms : list Message) : relates quiet_frame (send_all ms).
Proof.
  induction ms as [|m ms IH]; simpl; [apply quiet_ret|].
  apply quiet_bind; [apply quiet_send|auto].
Qed.

Lemma quiet_write_tx (rows : list Row) : relates quiet_frame (write ViaTx rows).
Proof.
  intros s out s' H. inversion H; subst.
  apply quiet_same_store; simpl; auto. exists []. now rewrite app_nil_r.
Qed.

Lemma quiet_query {A} (ex : Executor) (k : Call) (f : list Row -> result A)
    (onErr : error -> Response) :
  relates quiet_frame (query ex k f onErr).
Proof.
  unfold query. apply quiet_bind; [apply quiet_log|].
  intros _ s out s' H.
  destruct (f (visible ex s)); inversion H; subst; apply quiet_frame_refl.
Qed.

Lemma quiet_insert_tx (k : Call) (f : list Row -> result (list Row))
    (onErr : error -> Response) :
  relates quiet_frame (insert ViaTx k f onErr).
Proof.
  unfold insert. apply quiet_bind; [apply quiet_query|].
  intro. apply quiet_write_tx.
Qed.

(** An insert through [db] shows in the log. *)
Lemma quiet_insert_db (k : Call) (f : list Row -> result (list Row))
    (onErr : error -> Response) :
  db_writer k = true -> relates quiet_frame (insert ViaDb k f onErr).
Proof.
  intros Hk s out s' H. unfold insert in H. apply bind_inv in H.
  assert (no_db_writer [k] = false) as Hw.
  { unfold no_db_writer. simpl. now rewrite Hk. }
  destruct H as [(r & H & _)|(rows & s1 & H1 & H2)].
  - destruct (f (visible ViaDb s)) as [e|rows] eqn:E.
    + rewrite (query_error _ _ _ _ _ _ E) in H. inversion H; subst.
      split; [reflexivity|]. exists [k]. split; [reflexivity|congruence].
    + rewrite (query_answer _ _ _ _ _ _ E) in H. discriminate.
  - apply query_inv in H1. destruct H1 as [_ ->]. inversion H2; subst.
    split; [reflexivity|]. exists [k]. split; [reflexivity|congruence].
Qed.

Lemma quiet_Commit (c : Collaborators) : relates quiet_frame (Commit c).
Proof.
  intros s out s' H. unfold Commit, bind, log in H. simpl in H.
  split.
  - destruct (tx_Commit c _ _); inversion H; subst; reflexivity.
  - exists [CallCommit].
    split; [destruct (tx_Commit c _ _); inversion H; subst; reflexivity|].
    discriminate.
Qed.

Ltac quiet_step :=
  first
    [ apply quiet_ret
    | apply quiet_exit
    | apply quiet_send
    | apply quiet_send_all
    | apply quiet_log
    | apply quiet_write_tx
    | apply quiet_query
    | apply quiet_insert_tx
    | apply quiet_insert_db; reflexivity
    | apply quiet_Commit ].

Ltac quiet_auto :=
  repeat first
    [ quiet_step
    | apply quiet_bind; [|intro]
    | match goal with
      | |- relates _ (if ?b then _ else _) => destruct b
      | |- relates _ (match ?x with _ => _ end) => destruct x
      end ].

Lemma quiet_checkTriggers (c : Collaborators) (proj : Project) (app : Application)
    (ts : list PipelineTrigger) (g : option error) :
  relates quiet_frame (checkTriggers c proj app ts g).
Proof.
  revert g; induction ts as [|t ts IH]; intro g; simpl; [quiet_auto|].
  apply quiet_bind; [unfold checkTrigger; quiet_auto|auto].
Qed.

Lemma quiet_checkPipelines (c : Collaborators) (proj : Project) (app : Application)
    (ps : list ApplicationPipeline) (g : option error) :
  relates quiet_frame (checkPipelines c proj app ps g).
Proof.
  revert g; induction ps as [|p ps IH]; intro g; simpl; [quiet_auto|].
  apply quiet_bind; [quiet_auto|]. intro ok.
  apply quiet_bind; [quiet_auto|]. intro g1.
  apply quiet_bind; [apply quiet_checkTriggers|auto].
Qed.

Lemma quiet_manageHooks (c : Collaborators) (proj : Project) (app : Application)
    (rm : RepositoriesManager) (hooks : list Hook) :
  relates quiet_frame (manageHooks c proj app rm hooks).
Proof.
  induction hooks as [|h hooks IH]; simpl; [quiet_auto|].
  destruct (Pipeline_ID _ =? 0); [quiet_auto|].
  apply quiet_bind; [quiet_auto|]. intro.
  apply quiet_bind; [quiet_auto|auto].
Qed.

Lemma quiet_managePollers (c : Collaborators) (proj : Project) (app : Application)
    (pollers : list RepositoryPoller) :
  relates quiet_frame (managePollers c proj app pollers).
Proof.
  induction pollers as [|h pollers IH]; simpl; [quiet_auto|].
  destruct (Pipeline_ID _ =? 0); [quiet_auto|].
  apply quiet_bind; [quiet_auto|]. intro.
  apply quiet_bind; [quiet_auto|auto].
Qed.

Lemma quiet_manageNotifications (c : Collaborators) (proj : Project) (app : Application)
    (notifs : list UserNotificationSettings) :
  relates quiet_frame (manageNotifications c proj app notifs).
Proof.
  induction notifs as [|n notifs IH]; simpl; [quiet_auto|].
  destruct (resolveEnvironment c proj n) as [n' envID].
  destruct (lookupPipelineID _ _ =? 0); [quiet_auto|].
  destruct (envID =? 0); [quiet_auto|].
  apply quiet_bind; [quiet_auto|auto].
Qed.

Lemma quiet_manage (c : Collaborators) (proj : Project) (app : Application) :
  relates quiet_frame (manage c proj app).
Proof.
  unfold manage. apply quiet_bind.
  - destruct (App_RepositoriesManager app); [|quiet_auto].
    apply quiet_bind; [apply quiet_manageHooks|]. intro. apply quiet_managePollers.
  - intro. apply quiet_manageNotifications.
Qed.

Lemma quiet_coreImport (c : Collaborators) (proj : Project) (app : Application) :
  relates quiet_frame (coreImport c proj app).
Proof.
  unfold coreImport. apply quiet_bind; [quiet_auto|].
  intros _ s out s'.
  generalize (application_Import c (visible ViaTx s) proj app). intro i.
  revert s out s'.
  change (relates quiet_frame
            (send_all (Import_msgs i) ;; write ViaTx (Import_rows i) ;;
             ret (Import_err i, Import_app i))).
  quiet_auto.
Qed.

Lemma quiet_apply (c : Collaborators) (proj : Project) (app : Application) (exist : bool) :
  relates quiet_frame (apply c proj app exist).
Proof.
  unfold apply. apply quiet_bind.
  - destruct exist; [quiet_auto|apply quiet_coreImport].
  - intros [g a]. simpl. destruct g; [quiet_auto|].
    apply quiet_bind; [apply quiet_manage|]. intro. quiet_auto.
Qed.

Lemma quiet_finish (c : Collaborators) (proj : Project) (app : Application)
    (g : option error) (l : list string) :
  relates quiet_frame (finish c proj app g l).
Proof.
  unfold finish. destruct g as [[e|d]|]; [apply quiet_ret|apply quiet_ret|].
  apply quiet_bind; [quiet_step|]. intro.
  apply quiet_bind; [quiet_step|]. intro.
  apply quiet_bind; [quiet_step|]. intro.
  apply quiet_bind; [quiet_step|]. intro. apply quiet_ret.
Qed.

Lemma db_frame_transaction (c : Collaborators) (al : string) (forceUpdate : bool)
    (proj : Project) (app : Application) (exist : bool) :
  relates db_frame (transaction c al forceUpdate proj app exist).
Proof.
  unfold transaction.
  destruct (exist && negb forceUpdate); [apply relates_exit, db_frame_refl|].
  apply (relates_bind _ db_frame_trans).
  { intros s out s' H. eapply quiet_checkPipelines; eauto. }
  intro g. apply (relates_bind _ db_frame_trans).
  { destruct g; [apply relates_ret, db_frame_refl|].
    intros s out s' H. eapply quiet_apply; eauto. }
  intro x. apply (relates_bind _ db_frame_trans).
  { intros s out s' H. rewrite drain_and_render_run in H. inversion H; subst.
    exists []. simpl. now rewrite app_nil_r. }
  intro l. intros s out s' H. eapply quiet_finish; eauto.
Qed.

(** ** Before the transaction (lines 30-112) *)

Lemma prelude_frame_refl (s : State) : prelude_frame s s.
Proof. repeat split. exists []. now rewrite app_nil_r. Qed.

Lemma prelude_frame_trans (a b c : State) :
  prelude_frame a b -> prelude_frame b c -> prelude_frame a c.
Proof.
  intros (C1 & P1 & k1 & E1 & F1) (C2 & P2 & k2 & E2 & F2).
  split; [congruence|]. split; [congruence|].
  exists (k1 ++ k2). rewrite E2, E1, app_assoc. split; [reflexivity|].
  rewrite forallb_app. now rewrite F1, F2.
Qed.

Lemma prelude_frame_query {A} (ex : Executor) (k : Call) (f : list Row -> result A)
    (onErr : error -> Response) :
  before_Begin k = true -> relates prelude_frame (query ex k f onErr).
Proof.
  intros Hk s out s' H.
  assert (s' = emit s [] [k]) as ->.
  { destruct (f (visible ex s)) as [e|a] eqn:E.
    - rewrite (query_error _ _ _ _ _ _ E) in H. now inversion H.
    - rewrite (query_answer _ _ _ _ _ _ E) in H. now inversion H. }
  repeat split. exists [k]. simpl. now rewrite Hk.
Qed.

Lemma prelude_frame_loadGroups (c : Collaborators) (gs : list GroupPermission) :
  relates prelude_frame (loadGroups c gs).
Proof.
  induction gs as [|eg gs IH]; simpl.
  - apply relates_ret, prelude_frame_refl.
  - apply (relates_bind _ prelude_frame_trans);
      [now apply prelude_frame_query|]. intro g.
    apply (relates_bind _ prelude_frame_trans); [exact IH|]. intro.
    apply relates_ret, prelude_frame_refl.
Qed.

(** Lines 30-96 write nothing and call nothing but their own
    collaborators, however they end. *)
Lemma prelude_frame_prelude (c : Collaborators) (r : Request) :
  relates prelude_frame (prelude c r).
Proof.
  unfold prelude.
  apply (relates_bind _ prelude_frame_trans); [now apply prelude_frame_query|]. intro.
  apply (relates_bind _ prelude_frame_trans); [now apply prelude_frame_query|]. intro.
  apply (relates_bind _ prelude_frame_trans); [now apply prelude_frame_query|]. intro.
  apply (relates_bind _ prelude_frame_trans); [now apply prelude_frame_query|]. intro f.
  apply (relates_bind _ prelude_frame_trans).
  { unfold parse. destruct f;
      try (now apply prelude_frame_query); apply relates_ret, prelude_frame_refl. }
  intro.
  apply (relates_bind _ prelude_frame_trans); [now apply prelude_frame_query|]. intro.
  apply (relates_bind _ prelude_frame_trans); [now apply prelude_frame_query|]. intro.
  apply (relates_bind _ prelude_frame_trans); [apply prelude_frame_loadGroups|]. intro.
  apply (relates_bind _ prelude_frame_trans).
  { intros s out s' H. inversion H; subst. repeat split.
    exists []. simpl. now rewrite app_nil_r. }
  intro. apply relates_ret, prelude_frame_refl.
Qed.

(** ** What the early returns are *)

Lemma returns_in_ret {A} (P : Response -> Prop) (a : A) : returns_in P (ret a).
Proof. intros s r s' H. inversion H. Qed.

Lemma returns_in_exit {A} (P : Response -> Prop) (r : Response) :
  P r -> returns_in P (@exit A r).
Proof. intros Hr s r' s' H. inversion H; subst. exact Hr. Qed.

Lemma returns_in_bind {A B} (P : Response -> Prop) (m : Handler A) (k : A -> Handler B) :
  returns_in P m -> (forall a, returns_in P (k a)) -> returns_in P (bind m k).
Proof.
  intros Hm Hk s r s' H. apply bind_inv in H.
  destruct H as [(r0 & H & E)|(a & s1 & _ & H)].
  - inversion E; subst. eapply Hm; eauto.
  - eapply Hk; eauto.
Qed.

Lemma returns_in_log (P : Response -> Prop) (k : Call) : returns_in P (log k).
Proof. intros s r s' H. inversion H. Qed.

Lemma returns_in_send (P : Response -> Prop) (m : Message) : returns_in P (send m).
Proof. intros s r s' H. inversion H. Qed.

Lemma returns_in_write (P : Response -> Prop) (ex : Executor) (rows : list Row) :
  returns_in P (write ex rows).
Proof. intros s r s' H. destruct ex; inversion H. Qed.

Lemma returns_in_send_all (P : Response -> Prop) (ms : list Message) :
  returns_in P (send_all ms).
Proof.
  induction ms as [|m ms IH]; simpl; [apply returns_in_ret|].
  apply returns_in_bind; [apply returns_in_send|auto].
Qed.

Lemma returns_in_query {A} (P : Response -> Prop) (ex : Executor) (k : Call)
    (f : list Row -> result A) (onErr : error -> Response) :
  (forall e, P (onErr e)) -> returns_in P (query ex k f onErr).
Proof.
  intro Hon. unfold query. apply returns_in_bind; [apply returns_in_log|].
  intros _ s r s' H. destruct (f (visible ex s)); inversion H; subst. apply Hon.
Qed.

Lemma returns_in_insert (P : Response -> Prop) (ex : Executor) (k : Call)
    (f : list Row -> result (list Row)) (onErr : error -> Response) :
  (forall e, P (onErr e)) -> returns_in P (insert ex k f onErr).
Proof.
  intro Hon. unfold insert. apply returns_in_bind; [now apply returns_in_query|].
  intro. apply returns_in_write.
Qed.

Ltac returned :=
  intros;
  first
    [ solve [unfold without_cause; eauto]
    | solve [unfold with_cause; eauto]
    | solve [unfold prelude_return; eauto] ].

Ltac returns_step :=
  first
    [ apply returns_in_ret
    | apply returns_in_send
    | apply returns_in_send_all
    | apply returns_in_log
    | apply returns_in_write
    | apply returns_in_query; returned
    | apply returns_in_insert; returned
    | apply returns_in_exit; returned ].

Ltac returns_auto :=
  repeat first
    [ returns_step
    | apply returns_in_bind; [|intro]
    | match goal with
      | |- returns_in _ (if ?b then _ else _) => destruct b
      | |- returns_in _ (match ?x with _ => _ end) => destruct x
      end ].

Lemma loadGroups_returns (c : Collaborators) (gs : list GroupPermission) :
  returns_in prelude_return (loadGroups c gs).
Proof.
  induction gs as [|eg gs IH]; simpl; [returns_auto|].
  apply returns_in_bind; [returns_auto|]. intro g.
  apply returns_in_bind; [exact IH|]. intro. returns_auto.
Qed.

(** The prelude returns the wrong-request error or a wrapped error. *)
Lemma prelude_returns (c : Collaborators) (r : Request) :
  returns_in prelude_return (prelude c r).
Proof.
  unfold prelude.
  apply returns_in_bind; [returns_step|]. intro.
  apply returns_in_bind; [returns_step|]. intro.
  apply returns_in_bind; [returns_step|]. intro.
  apply returns_in_bind; [returns_step|]. intro f.
  apply returns_in_bind; [unfold parse; destruct f; returns_step|]. intro.
  apply returns_in_bind; [returns_step|]. intro.
  apply returns_in_bind; [returns_step|]. intro.
  apply returns_in_bind; [apply loadGroups_returns|]. intro.
  apply returns_in_bind; [intros s r0 s' H; inversion H|]. intro.
  apply returns_in_ret.
Qed.

(** The validator returns early only through [sdk.WrapError(errBegin,
    ...)], and [errBegin] is nil by then (lines 110-112). *)
Lemma checkPipelines_returns (c : Collaborators) (proj : Project) (app : Application)
    (ps : list ApplicationPipeline) (g : option error) :
  returns_in without_cause (checkPipelines c proj app ps g).
Proof.
  assert (forall ts g0, returns_in without_cause (checkTriggers c proj app ts g0)) as Ht.
  { induction ts as [|t ts IH]; intro g0; simpl; [returns_auto|].
    apply returns_in_bind; [unfold checkTrigger; returns_auto|auto]. }
  revert g; induction ps as [|p ps IH]; intro g; simpl; [returns_auto|].
  apply returns_in_bind; [returns_auto|]. intro ok.
  apply returns_in_bind; [returns_auto|]. intro g1.
  apply returns_in_bind; [apply Ht|auto].
Qed.

Lemma manage_returns (c : Collaborators) (proj : Project) (app : Application) :
  returns_in with_cause (manage c proj app).
Proof.
  assert (forall rm hooks, returns_in with_cause (manageHooks c proj app rm hooks)) as Hh.
  { intros rm hooks. induction hooks as [|h hooks IH]; simpl; [returns_auto|].
    destruct (Pipeline_ID _ =? 0); [returns_auto|].
    apply returns_in_bind; [returns_auto|]. intro.
    apply returns_in_bind; [returns_auto|auto]. }
  assert (forall pollers, returns_in with_cause (managePollers c proj app pollers)) as Hp.
  { induction pollers as [|h pollers IH]; simpl; [returns_auto|].
    destruct (Pipeline_ID _ =? 0); [returns_auto|].
    apply returns_in_bind; [returns_auto|]. intro.
    apply returns_in_bind; [returns_auto|auto]. }
  assert (forall notifs,
             returns_in with_cause (manageNotifications c proj app notifs)) as Hn.
  { induction notifs as [|n notifs IH]; simpl; [returns_auto|].
    destruct (resolveEnvironment c proj n) as [n' envID].
    destruct (lookupPipelineID _ _ =? 0); [returns_auto|].
    destruct (envID =? 0); [returns_auto|].
    apply returns_in_bind; [returns_auto|auto]. }
  unfold manage. apply returns_in_bind; [|intro; apply Hn].
  destruct (App_RepositoriesManager app); [|returns_auto].
  apply returns_in_bind; [apply Hh|intro; apply Hp].
Qed.

Lemma apply_returns (c : Collaborators) (proj : Project) (app : Application)
    (exist : bool) :
  returns_in with_cause (apply c proj app exist).
Proof.
  unfold apply. apply returns_in_bind.
  - destruct exist; [returns_auto|].
    unfold coreImport. apply returns_in_bind; [returns_auto|].
    intros _ s r s'.
    generalize (application_Import c (visible ViaTx s) proj app). intro i.
    revert s r s'.
    change (returns_in with_cause
              (send_all (Import_msgs i) ;; write ViaTx (Import_rows i) ;;
               ret (Import_err i, Import_app i))).
    returns_auto.
  - intros [g a]. simpl. destruct g; [returns_auto|].
    apply returns_in_bind; [apply manage_returns|]. intro. returns_auto.
Qed.

Lemma Begin_inv (c : Collaborators) (s s' : State) (out : Flow unit) :
  Begin c s = (out, s') ->
  (exists e, db_Begin c (committed s) = Some e
             /\ out = Return (ReturnWrapError (Some e)
                                "importApplicationHandler> Cannot start transaction")
             /\ s' = emit s [] [CallBegin])
  \/ (db_Begin c (committed s) = None /\ out = Continue tt /\ s' = begun s).
Proof.
  unfold Begin, bind, log. simpl. intro H.
  destruct (db_Begin c (committed s)) as [e|]; inversion H; subst.
  - left. exists e. repeat split. unfold emit. simpl. now rewrite app_nil_r.
  - right. auto.
Qed.

(** X1.  Atomicity, as far as the code has it: a run whose log shows no
    insert through [db], no commit and no sanity check leaves the
    database exactly as it found it, and no transaction open. *)
Theorem atomic_without_db_writers (c : Collaborators) (r : Request) (db : list Row)
    (resp : Response) (s' : State) :
  run (importApplicationHandler c r) (arrival db) = (resp, s') ->
  no_db_writer (calls s') = true ->
  committed s' = db /\ pending s' = None.
Proof.
  unfold run. destruct (importApplicationHandler c r (arrival db)) as [out s0] eqn:H.
  intros Hrun Hlog.
  assert (s0 = s') as -> by (destruct out; now inversion Hrun). clear Hrun.
  unfold importApplicationHandler in H. apply bind_inv in H.
  destruct H as [(r0 & H & _)|(x & s1 & Hp & H)].
  { destruct (prelude_frame_prelude _ _ _ _ _ H) as (C & P & _). auto. }
  destruct (prelude_frame_prelude _ _ _ _ _ Hp) as (C & P & k1 & E1 & _).
  simpl in C, P, E1.
  apply bind_inv in H. destruct H as [(r0 & H & _)|([] & s2 & Hb & H)].
  { apply Begin_inv in H. destruct H as [(e & _ & _ & ->)|(_ & D & _)]; [|discriminate].
    simpl. auto. }
  apply Begin_inv in Hb. destruct Hb as [(e & _ & D & _)|(_ & _ & ->)]; [discriminate|].
  unfold defer_Rollback in H.
  destruct (transaction _ _ _ _ _ _ (begun s1)) as [out2 s3] eqn:Ht.
  injection H as _ <-.
  destruct (db_frame_transaction _ _ _ _ _ _ _ _ _ Ht) as (k2 & E2 & F2).
  simpl in *. split; [|reflexivity].
  rewrite E2 in Hlog. unfold no_db_writer in *.
  rewrite !forallb_app in Hlog.
  apply andb_prop in Hlog. destruct Hlog as [Hlog _].
  apply andb_prop in Hlog. destruct Hlog as [_ Hlog].
  rewrite (F2 Hlog). exact C.
Qed.

Lemma atomic_without_db_writers_witness :
  fst (run (importApplicationHandler (reference misnotified false) (request false))
         (arrival db0))
  = ReturnWrapError (Some (SdkError ErrNoEnvironment))
      "importApplicationHandler> Environment %s not found for notification %+v"
  /\ In (CallImport ViaTx)
       (calls (snd (run (importApplicationHandler (reference misnotified false)
                           (request false)) (arrival db0))))
  /\ committed (snd (run (importApplicationHandler (reference misnotified false)
                            (request false)) (arrival db0)))
     = db0
  /\ pending (snd (run (importApplicationHandler (reference misnotified false)
                          (request false)) (arrival db0)))
     = None.
Proof.
  split; [vm_compute; reflexivity|].
  split; [vm_compute; tauto|].
  apply (atomic_without_db_writers (reference misnotified false) (request false) db0
           (fst (run (importApplicationHandler (reference misnotified false)
                        (request false)) (arrival db0)))).
  - vm_compute. reflexivity.
  - vm_compute. reflexivity.
Defined.


(** ** The shape of the log *)

Lemma logged_refl (s : State) : logged_in_transaction s s.
Proof. exists []. now rewrite app_nil_r. Qed.

Lemma logged_trans (a b c : State) :
  logged_in_transaction a b -> logged_in_transaction b c -> logged_in_transaction a c.
Proof.
  intros (k1 & E1 & F1) (k2 & E2 & F2). exists (k1 ++ k2).
  rewrite E2, E1, app_assoc. split; [reflexivity|].
  rewrite forallb_app. now rewrite F1, F2.
Qed.

Lemma logged_ret {A} (a : A) : relates logged_in_transaction (ret a).
Proof. apply relates_ret, logged_refl. Qed.

Lemma logged_exit {A} (r : Response) : relates logged_in_transaction (@exit A r).
Proof. apply relates_exit, logged_refl. Qed.

Lemma logged_bind {A B} (m : Handler A) (k : A -> Handler B) :
  relates logged_in_transaction m -> (forall a, relates logged_in_transaction (k a)) ->
  relates logged_in_transaction (bind m k).
Proof. apply relates_bind, logged_trans. Qed.

Lemma logged_log (k : Call) :
  in_transaction k = true -> relates logged_in_transaction (log k).
Proof.
  intros Hk s out s' H. inversion H; subst. exists [k]. simpl. now rewrite Hk.
Qed.

Lemma logged_send (m : Message) : relates logged_in_transaction (send m).
Proof.
  intros s out s' H. inversion H; subst. exists []. simpl. now rewrite app_nil_r.
Qed.

Lemma logged_send_all (ms : list Message) : relates logged_in_transaction (send_all ms).
Proof.
  induction ms as [|m ms IH]; simpl; [apply logged_ret|].
  apply logged_bind; [apply logged_send|auto].
Qed.

Lemma logged_write (ex : Executor) (rows : list Row) :
  relates logged_in_transaction (write ex rows).
Proof.
  intros s out s' H. exists []. rewrite app_nil_r.
  destruct ex; inversion H; subst; auto.
Qed.

Lemma logged_query {A} (ex : Executor) (k : Call) (f : list Row -> result A)
    (onErr : error -> Response) :
  in_transaction k = true -> relates logged_in_transaction (query ex k f onErr).
Proof.
  intro Hk. unfold query. apply logged_bind; [now apply logged_log|].
  intros _ s out s' H.
  destruct (f (visible ex s)); inversion H; subst; apply logged_refl.
Qed.

Lemma logged_insert (ex : Executor) (k : Call) (f : list Row -> result (list Row))
    (onErr : error -> Response) :
  in_transaction k = true -> relates logged_in_transaction (insert ex k f onErr).
Proof.
  intro Hk. unfold insert. apply logged_bind; [now apply logged_query|].
  intro. apply logged_write.
Qed.

Lemma logged_Commit (c : Collaborators) : relates logged_in_transaction (Commit c).
Proof.
  unfold Commit. apply logged_bind; [now apply logged_log|].
  intros _ s out s' H. exists []. rewrite app_nil_r.
  destruct (tx_Commit c (committed s) _); inversion H; subst; auto.
Qed.

Ltac logged_step :=
  first
    [ apply logged_ret
    | apply logged_exit
    | apply logged_send
    | apply logged_send_all
    | apply logged_write
    | apply logged_Commit
    | apply logged_log; reflexivity
    | apply logged_query; reflexivity
    | apply logged_insert; reflexivity ].

Ltac logged_auto :=
  repeat first
    [ logged_step
    | apply logged_bind; [|intro]
    | match goal with
      | |- relates _ (if ?b then _ else _) => destruct b
      | |- relates _ (match ?x with _ => _ end) => destruct x
      end ].

Lemma logged_checkPipelines (c : Collaborators) (proj : Project) (app : Application)
    (ps : list ApplicationPipeline) (g : option error) :
  relates logged_in_transaction (checkPipelines c proj app ps g).
Proof.
  assert (forall ts g0,
             relates logged_in_transaction (checkTriggers c proj app ts g0)) as Ht.
  { induction ts as [|t ts IH]; intro g0; simpl; [logged_auto|].
    apply logged_bind; [unfold checkTrigger; logged_auto|auto]. }
  revert g; induction ps as [|p ps IH]; intro g; simpl; [logged_auto|].
  apply logged_bind; [logged_auto|]. intro ok.
  apply logged_bind; [logged_auto|]. intro g1.
  apply logged_bind; [apply Ht|auto].
Qed.

Lemma logged_manage (c : Collaborators) (proj : Project) (app : Application) :
  relates logged_in_transaction (manage c proj app).
Proof.
  assert (forall rm hooks,
             relates logged_in_transaction (manageHooks c proj app rm hooks)) as Hh.
  { intros rm hooks. induction hooks as [|h hooks IH]; simpl; [logged_auto|].
    destruct (Pipeline_ID _ =? 0); [logged_auto|].
    apply logged_bind; [logged_auto|]. intro.
    apply logged_bind; [logged_auto|auto]. }
  assert (forall pollers,
             relates logged_in_transaction (managePollers c proj app pollers)) as Hp.
  { induction pollers as [|h pollers IH]; simpl; [logged_auto|].
    destruct (Pipeline_ID _ =? 0); [logged_auto|].
    apply logged_bind; [logged_auto|]. intro.
    apply logged_bind; [logged_auto|auto]. }
  assert (forall notifs,
             relates logged_in_transaction
               (manageNotifications c proj app notifs)) as Hn.
  { induction notifs as [|n notifs IH]; simpl; [logged_auto|].
    destruct (resolveEnvironment c proj n) as [n' envID].
    destruct (lookupPipelineID _ _ =? 0); [logged_auto|].
    destruct (envID =? 0); [logged_auto|].
    apply logged_bind; [logged_auto|auto]. }
  unfold manage. apply logged_bind; [|intro; apply Hn].
  destruct (App_RepositoriesManager app); [|logged_auto].
  apply logged_bind; [apply Hh|intro; apply Hp].
Qed.

Lemma logged_apply (c : Collaborators) (proj : Project) (app : Application)
    (exist : bool) :
  relates logged_in_transaction (apply c proj app exist).
Proof.
  unfold apply. apply logged_bind.
  - destruct exist; [logged_auto|].
    unfold coreImport. apply logged_bind; [logged_auto|].
    intros _ s out s'.
    generalize (application_Import c (visible ViaTx s) proj app). intro i.
    revert s out s'.
    change (relates logged_in_transaction
              (send_all (Import_msgs i) ;; write ViaTx (Import_rows i) ;;
               ret (Import_err i, Import_app i))).
    logged_auto.
  - intros [g a]. simpl. destruct g; [logged_auto|].
    apply logged_bind; [apply logged_manage|]. intro. logged_auto.
Qed.

Lemma logged_finish (c : Collaborators) (proj : Project) (app : Application)
    (g : option error) (l : list string) :
  relates logged_in_transaction (finish c proj app g l).
Proof.
  unfold finish. destruct g as [[e|d]|]; [apply logged_ret|apply logged_ret|].
  apply logged_bind; [logged_step|]. intro.
  apply logged_bind; [logged_step|]. intro.
  apply logged_bind; [logged_step|]. intro.
  apply logged_bind; [logged_step|]. intro. apply logged_ret.
Qed.

Lemma logged_transaction (c : Collaborators) (al : string) (forceUpdate : bool)
    (proj : Project) (app : Application) (exist : bool) :
  relates logged_in_transaction (transaction c al forceUpdate proj app exist).
Proof.
  unfold transaction. destruct (exist && negb forceUpdate); [apply logged_exit|].
  apply logged_bind; [apply logged_checkPipelines|]. intro g.
  apply logged_bind.
  { destruct g; [apply logged_ret|apply logged_apply]. }
  intro x. apply logged_bind; [|intro; apply logged_finish].
  intros s out s' H. rewrite drain_and_render_run in H. inversion H; subst.
  exists []. simpl. now rewrite app_nil_r.
Qed.

(** X2.  The handler never leaves a transaction open.  Up to
    [db.Begin()] it only loads, decodes and probes through [db]; once
    [db.Begin()] has succeeded, every later call is one of the
    validator, the applier or the way out, and the last one is the
    deferred [tx.Rollback()], however the run ends. *)
Theorem transaction_always_ended (c : Collaborators) (r : Request) (db : list Row) :
  pending (snd (run (importApplicationHandler c r) (arrival db))) = None
  /\ (forall proj app exist s1,
        prelude c r (arrival db) = (Continue (proj, app, exist), s1) ->
        db_Begin c db = None ->
        exists ks,
          calls (snd (run (importApplicationHandler c r) (arrival db)))
          = calls s1 ++ CallBegin :: ks ++ [CallRollback]
          /\ forallb before_Begin (calls s1) = true
          /\ forallb in_transaction ks = true).
Proof.
  split.
  - unfold run. destruct (importApplicationHandler c r (arrival db)) as [out s0] eqn:H.
    assert (pending s0 = None) as Hs0.
    { unfold importApplicationHandler in H. apply bind_inv in H.
      destruct H as [(r0 & H & _)|(x & s1 & Hp & H)].
      { destruct (prelude_frame_prelude _ _ _ _ _ H) as (_ & P & _). exact P. }
      destruct (prelude_frame_prelude _ _ _ _ _ Hp) as (_ & P & _). simpl in P.
      apply bind_inv in H. destruct H as [(r0 & H & _)|([] & s2 & Hb & H)].
      { apply Begin_inv in H.
        destruct H as [(e & _ & _ & ->)|(_ & D & _)]; [exact P|discriminate]. }
      unfold defer_Rollback in H.
      destruct (transaction _ _ _ _ _ _ s2) as [out2 s3].
      injection H as _ <-. reflexivity. }
    destruct out; exact Hs0.
  - intros proj app exist s1 Hp Hb.
    destruct (prelude_frame_prelude _ _ _ _ _ Hp) as (_ & _ & k1 & E1 & F1).
    simpl in E1. subst k1.
    unfold run. rewrite (handler_after_Begin _ _ _ _ _ _ _ Hp Hb).
    unfold defer_Rollback.
    destruct (transaction _ _ _ _ _ _ (begun s1)) as [out s3] eqn:Ht.
    destruct (logged_transaction _ _ _ _ _ _ _ _ _ Ht) as (ks & E & F).
    exists ks. split; [|split; assumption].
    destruct out; simpl; rewrite E; simpl; now rewrite <- !app_assoc.
Qed.

Lemma transaction_always_ended_witness :
  exists ks,
    calls (snd (run (importApplicationHandler (reference two_hooks false) (request false))
                  (arrival db0)))
    = [ CallProjectLoad "PRJ"; CallLoadGroupByProject; CallReadAll;
        CallGetFormat "yaml"; CallUnmarshal;
        CallApplicationExists ViaDb "web"; CallPayloadApplication ]
      ++ CallBegin :: ks ++ [CallRollback]
    /\ forallb in_transaction ks = true.
Proof.
  edestruct (proj2 (transaction_always_ended (reference two_hooks false)
                      (request false) db0)) as (ks & E & _ & F).
  - vm_compute. reflexivity.
  - reflexivity.
  - exists ks. split; [exact E|exact F].
Defined.

(** X3.  A failure before the transaction.  When one of lines 36-92
    returns, the handler returns that answer (the wrong-request error or
    a wrapped error, never a list), having written nothing and called
    nothing but the prelude's collaborators: no transaction was begun.
    When [db.Begin()] fails, the answer is its wrapped error, also for
    an application that exists with forceUpdate unset; nothing is
    written and no rollback is run. *)
Theorem failure_before_transaction (c : Collaborators) (r : Request) (db : list Row) :
  (forall resp s1,
      prelude c r (arrival db) = (Return resp, s1) ->
      run (importApplicationHandler c r) (arrival db) = (resp, s1)
      /\ committed s1 = db /\ pending s1 = None
      /\ forallb before_Begin (calls s1) = true
      /\ prelude_return resp)
  /\ (forall proj app exist s1 e,
        prelude c r (arrival db) = (Continue (proj, app, exist), s1) ->
        db_Begin c db = Some e ->
        run (importApplicationHandler c r) (arrival db)
        = (ReturnWrapError (Some e) "importApplicationHandler> Cannot start transaction",
           emit s1 [] [CallBegin])
        /\ committed (emit s1 [] [CallBegin]) = db
        /\ pending (emit s1 [] [CallBegin]) = None
        /\ forallb before_Begin (calls s1) = true).
Proof.
  split.
  - intros resp s1 Hp.
    destruct (prelude_frame_prelude _ _ _ _ _ Hp) as (C & P & k1 & E1 & F1).
    simpl in C, P, E1. subst k1.
    split; [|split; [|split; [|split]]]; auto.
    + unfold run, importApplicationHandler. now rewrite (bind_return _ _ _ _ _ Hp).
    + eapply prelude_returns; eauto.
  - intros proj app exist s1 e Hp Hb.
    destruct (prelude_frame_prelude _ _ _ _ _ Hp) as (C & P & k1 & E1 & F1).
    simpl in C, P, E1. subst k1.
    split; [|split; [|split]]; auto.
    unfold run, importApplicationHandler.
    rewrite (bind_continue _ _ _ _ _ Hp).
    erewrite bind_return; [reflexivity|].
    rewrite <- C in Hb.
    unfold Begin, bind, log. simpl. rewrite Hb.
    unfold emit. simpl. now rewrite app_nil_r.
Qed.

Lemma failure_before_transaction_witness :
  run (importApplicationHandler
         (with_faults (reference legacy false)
            (fun _ => Some (OtherError "connection refused"))
            (fun _ _ => inr [])
            (fun data => inr {| Payload_Name := "legacy"; Payload_Rest := data |}))
         (request false)) (arrival db0)
  = (ReturnWrapError (Some (OtherError "connection refused"))
       "importApplicationHandler> Cannot start transaction",
     {| committed := db0; pending := None; msgChan := []; closed := false;
        calls := [ CallProjectLoad "PRJ"; CallLoadGroupByProject; CallReadAll;
                   CallGetFormat "yaml"; CallUnmarshal;
                   CallApplicationExists ViaDb "legacy"; CallPayloadApplication;
                   CallBegin ] |}).
Proof.
  edestruct (proj2 (failure_before_transaction
                      (with_faults (reference legacy false)
                         (fun _ => Some (OtherError "connection refused"))
                         (fun _ _ => inr [])
                         (fun data => inr {| Payload_Name := "legacy";
                                             Payload_Rest := data |}))
                      (request false) db0)) as (H & _).
  - vm_compute. reflexivity.
  - reflexivity.
  - rewrite H. reflexivity.
Defined.

(** ** Store errors during validation (lines 124-127, 136-139, 147-150, 158-161) *)

Lemma reads_only_checkPipelines (c : Collaborators) (proj : Project) (app : Application)
    (ps : list ApplicationPipeline) (g : option error) :
  reads_only (checkPipelines c proj app ps g).
Proof.
  assert (forall (guard : bool) k f onErr msg e g0,
             reads_only
               (if guard then
                  ok <- query ViaTx k f onErr ;;
                  if negb ok then send msg ;; ret (Some (SdkError e)) else ret g0
                else ret g0)) as Hc.
  { intros guard k f onErr msg e g0. destruct guard; [|apply reads_only_ret].
    apply reads_only_bind; [apply reads_only_query|]. intro ok.
    destruct ok; simpl; [apply reads_only_ret|].
    apply reads_only_bind; [apply reads_only_send|intro; apply reads_only_ret]. }
  assert (forall ts g0, reads_only (checkTriggers c proj app ts g0)) as Ht.
  { induction ts as [|t ts IH]; intro g0; simpl; [apply reads_only_ret|].
    apply reads_only_bind; [|auto]. unfold checkTrigger.
    apply reads_only_bind; [apply Hc|]. intro.
    apply reads_only_bind; [apply Hc|]. intro. apply Hc. }
  revert g; induction ps as [|p ps IH]; intro g; simpl; [apply reads_only_ret|].
  apply reads_only_bind; [apply reads_only_query|]. intro ok.
  apply reads_only_bind.
  { destruct ok; simpl; [apply reads_only_ret|].
    apply reads_only_bind; [apply reads_only_send|intro; apply reads_only_ret]. }
  intro g1. apply reads_only_bind; [apply Ht|auto].
Qed.

(** X4.  A store error during validation.  When the lookup of a usage's
    pipeline fails with [e], the validator returns at once, and what it
    returns wraps no cause: line 126 wraps [errBegin], which is nil
    there, not [err].  Every early return of the validator is of that
    kind (lines 138, 149 and 160 wrap [errBegin] too); the handler then
    answers with it, the messages sent so far are not rendered, and the
    database is as before. *)
Theorem validator_error_loses_cause (c : Collaborators) (r : Request) (db : list Row) :
  (forall proj app p ps g s e,
      pipeline_ExistPipeline c (visible ViaTx s) (Project_ID proj)
        (Pipeline_Name (AP_Pipeline p)) = inl e ->
      checkPipelines c proj app (p :: ps) g s
      = (Return (ReturnWrapError None
                   "importApplicationHandler> Unable to check pipeline %s"),
         emit s [] [CallExistPipeline ViaTx (Pipeline_Name (AP_Pipeline p))]))
  /\ (forall proj app exist s1 resp s2,
        prelude c r (arrival db) = (Continue (proj, app, exist), s1) ->
        db_Begin c db = None ->
        exist && negb (FormBool_forceUpdate r) = false ->
        checkPipelines c proj app (Pipelines app) None (begun s1) = (Return resp, s2) ->
        run (importApplicationHandler c r) (arrival db) = (resp, Rollback s2)
        /\ without_cause resp
        /\ committed (Rollback s2) = db /\ pending (Rollback s2) = None).
Proof.
  split.
  - intros proj app p ps g s e He. cbn [checkPipelines].
    apply bind_return. erewrite query_error; [reflexivity|exact He].
  - intros proj app exist s1 resp s2 Hp Hb Hg Hv.
    destruct (prelude_inv _ _ _ _ _ _ _ Hp) as (C & _).
    simpl in C.
    split; [|split; [|split]].
    + unfold run. rewrite (handler_after_Begin _ _ _ _ _ _ _ Hp Hb).
      unfold defer_Rollback, transaction. rewrite Hg.
      now rewrite (bind_return _ _ _ _ _ Hv).
    + eapply checkPipelines_returns; eauto.
    + destruct (reads_only_checkPipelines _ _ _ _ _ _ _ _ Hv) as [E _].
      simpl. rewrite E. exact C.
    + reflexivity.
Qed.

Lemma validator_error_loses_cause_witness :
  run (importApplicationHandler
         (with_ExistPipeline (reference dangling false)
            (fun _ _ name =>
               if String.eqb name "build" then inl (OtherError "connection lost")
               else inr false))
         (request false)) (arrival db0)
  = (ReturnWrapError None "importApplicationHandler> Unable to check pipeline %s",
     Rollback
       (emit (begun (emit (arrival db0) []
                       [ CallProjectLoad "PRJ"; CallLoadGroupByProject; CallReadAll;
                         CallGetFormat "yaml"; CallUnmarshal;
                         CallApplicationExists ViaDb "web"; CallPayloadApplication ]))
          [ sdk_NewMessage MsgAppImportPipelineNotFound [ArgString "ghost"];
            sdk_NewMessage MsgAppImportAppNotFound [ArgString "deploy-svc"];
            sdk_NewMessage MsgAppImportEnvNotFound [ArgString "staging"] ]
          [ CallExistPipeline ViaTx "ghost"; CallApplicationExists ViaTx "deploy-svc";
            CallEnvironmentExists ViaTx "prod"; CallEnvironmentExists ViaTx "staging";
            CallExistPipeline ViaTx "build" ])).
Proof.
  edestruct (proj2 (validator_error_loses_cause
                      (with_ExistPipeline (reference dangling false)
                         (fun _ _ name =>
                            if String.eqb name "build"
                            then inl (OtherError "connection lost")
                            else inr false))
                      (request false) db0)) as (H & _).
  - vm_compute. reflexivity.
  - reflexivity.
  - reflexivity.
  - vm_compute. reflexivity.
  - rewrite H. vm_compute. reflexivity.
Defined.

(** ** The goroutine after an early return *)

Lemma chan_done_closed (msgs : list Message) (x y : Chan) :
  chan_steps x y -> (done x = true -> chan_closed x = true) ->
  done y = true -> chan_closed y = true.
Proof.
  induction 1 as [x|x y z Hxy Hyz IH]; intro Hx; [exact Hx|].
  apply IH. destruct Hxy; simpl in *; auto.
Qed.

(** X5.  The channel is closed at line 269 only.  In the transition
    system of the channel the receiving goroutine leaves its loop only
    after the channel was closed; and when the handler returns at the
    exists-guard, out of the validator or out of the applier, it returns
    with the channel open: the goroutine of lines 98-107 is left
    waiting. *)
Theorem early_return_leaves_channel_open (c : Collaborators) (r : Request) (db : list Row) :
  (forall msgs x,
      chan_steps (chan_start msgs) x -> done x = true -> chan_closed x = true)
  /\ (forall proj app exist s1,
        prelude c r (arrival db) = (Continue (proj, app, exist), s1) ->
        db_Begin c db = None ->
        (exist && negb (FormBool_forceUpdate r) = true ->
         closed (snd (run (importApplicationHandler c r) (arrival db))) = false)
        /\ (exist && negb (FormBool_forceUpdate r) = false ->
            forall resp s2,
              checkPipelines c proj app (Pipelines app) None (begun s1)
              = (Return resp, s2) ->
              closed (snd (run (importApplicationHandler c r) (arrival db))) = false)
        /\ (exist && negb (FormBool_forceUpdate r) = false ->
            forall s2 resp s3,
              checkPipelines c proj app (Pipelines app) None (begun s1)
              = (Continue None, s2) ->
              apply c proj app exist s2 = (Return resp, s3) ->
              closed (snd (run (importApplicationHandler c r) (arrival db))) = false)).
Proof.
  split.
  - intros msgs x Hs Hd. eapply (chan_done_closed msgs); eauto; simpl; discriminate.
  - intros proj app exist s1 Hp Hb.
    destruct (prelude_inv _ _ _ _ _ _ _ Hp) as (_ & _ & _ & Hcl & _).
    unfold run. rewrite (handler_after_Begin _ _ _ _ _ _ _ Hp Hb).
    unfold defer_Rollback, transaction.
    split; [|split].
    + intro Hg. rewrite Hg. simpl. exact Hcl.
    + intros Hg resp s2 Hv. rewrite Hg.
      rewrite (bind_return _ _ _ _ _ Hv). simpl.
      destruct (quiet_checkPipelines _ _ _ _ _ _ _ _ Hv) as [E _].
      rewrite E. exact Hcl.
    + intros Hg s2 resp s3 Hv Ha. rewrite Hg.
      rewrite (bind_continue _ _ _ _ _ Hv). cbv beta iota.
      rewrite (bind_return _ _ _ _ _ Ha). simpl.
      destruct (quiet_checkPipelines _ _ _ _ _ _ _ _ Hv) as [E _].
      destruct (quiet_apply _ _ _ _ _ _ _ Ha) as [E' _].
      rewrite E', E. exact Hcl.
Qed.

Lemma early_return_leaves_channel_open_witness :
  closed (snd (run (importApplicationHandler (reference two_hooks false) (request false))
                 (arrival db0)))
  = false.
Proof.
  edestruct (proj2 (early_return_leaves_channel_open (reference two_hooks false)
                      (request false) db0)) as (_ & _ & H).
  - vm_compute. reflexivity.
  - reflexivity.
  - eapply H.
    + reflexivity.
    + vm_compute. reflexivity.
    + vm_compute. reflexivity.
Defined.

(** ** Which plain errors the handler returns *)

Lemma finish_returns (c : Collaborators) (proj : Project) (app : Application)
    (g : option error) (l : list string) :
  returns_in with_cause (finish c proj app g l).
Proof.
  unfold finish. destruct g as [[e|d]|]; [apply returns_in_ret|apply returns_in_ret|].
  apply returns_in_bind; [returns_step|]. intro.
  apply returns_in_bind.
  { unfold Commit. apply returns_in_bind; [returns_step|].
    intros _ s r s' H. destruct (tx_Commit c (committed s) _); inversion H; subst.
    unfold with_cause. eauto. }
  intro. apply returns_in_bind; [returns_step|]. intro.
  apply returns_in_bind; [returns_step|]. intro. apply returns_in_ret.
Qed.

(** X6.  The handler returns a bare error (not wrapped, no list) in two
    cases only: the wrong-request error, from the decoder, before any
    transaction; and the application-exists error, from the guard, which
    then means that the probe found the application, that forceUpdate
    was unset and that the transaction had been begun. *)
Theorem bare_errors (c : Collaborators) (r : Request) (db : list Row)
    (e : error) (s' : State) :
  run (importApplicationHandler c r) (arrival db) = (ReturnError e, s') ->
  (e = SdkError ErrWrongRequest /\ forallb before_Begin (calls s') = true)
  \/ (e = SdkError ErrApplicationExist
      /\ FormBool_forceUpdate r = false
      /\ db_Begin c db = None
      /\ exists proj app s1,
           prelude c r (arrival db) = (Continue (proj, app, true), s1)
           /\ s' = Rollback (begun s1)).
Proof.
  unfold run. destruct (importApplicationHandler c r (arrival db)) as [out s0] eqn:H.
  intro Hrun.
  assert (s0 = s' /\ (out = Continue (ReturnError e) \/ out = Return (ReturnError e)))
    as [-> Hout].
  { destruct out; inversion Hrun; subst; auto. }
  clear Hrun. unfold importApplicationHandler in H. apply bind_inv in H.
  destruct H as [(r0 & H & E)|(x & s1 & Hp & H)].
  { subst out. destruct Hout as [|Hout]; [discriminate|]. injection Hout as ->.
    left. destruct (prelude_frame_prelude _ _ _ _ _ H) as (_ & _ & k1 & E1 & F1).
    simpl in E1. subst k1. split; [|exact F1].
    destruct (prelude_returns _ _ _ _ _ H) as [E|(cause & format & E)];
      [now injection E|discriminate]. }
  destruct x as [[proj app] exist]. cbn [fst snd] in H.
  destruct (prelude_frame_prelude _ _ _ _ _ Hp) as (C & _). simpl in C.
  apply bind_inv in H. destruct H as [(r0 & H & E)|([] & s2 & Hb & H)].
  { apply Begin_inv in H. destruct H as [(e' & _ & E' & _)|(_ & D & _)]; [|discriminate].
    subst out. destruct Hout as [|Hout]; [discriminate|]. injection E' as ->.
    discriminate. }
  apply Begin_inv in Hb. destruct Hb as [(e' & _ & D & _)|(Hb & _ & ->)]; [discriminate|].
  rewrite C in Hb.
  unfold defer_Rollback in H.
  destruct (transaction _ _ _ _ _ _ (begun s1)) as [out2 s3] eqn:Ht.
  injection H as -> <-.
  unfold transaction in Ht.
  destruct exist, (FormBool_forceUpdate r) eqn:Hf; simpl in Ht;
    try (exfalso;
         apply bind_inv in Ht; destruct Ht as [(r0 & Ht & E)|(g & s4 & _ & Ht)];
         [ subst out; destruct Hout as [|Hout]; [discriminate|]; injection Hout as ->;
           destruct (checkPipelines_returns _ _ _ _ _ _ _ _ Ht) as (format & D);
           discriminate
         | apply bind_inv in Ht; destruct Ht as [(r0 & Ht & E)|(y & s5 & _ & Ht)];
           [ subst out; destruct Hout as [|Hout]; [discriminate|]; injection Hout as ->;
             destruct g; [inversion Ht|];
             destruct (apply_returns _ _ _ _ _ _ _ Ht) as (e' & format & D);
             discriminate
           | apply bind_inv in Ht; destruct Ht as [(r0 & Ht & E)|(l & s6 & _ & Ht)];
             [ rewrite drain_and_render_run in Ht; discriminate
             | destruct Hout as [Hout|Hout]; subst out;
               [ pose proof (finish_yields _ _ _ _ _ _ _ _ Ht) as Y;
                 unfold finish in Ht;
                 destruct (fst y) as [[e'|d]|];
                 [ inversion Ht | inversion Ht
                 | repeat bind_continue_inv Ht; inversion Ht ]
               | destruct (finish_returns _ _ _ _ _ _ _ _ Ht) as (e' & format & D);
                 discriminate ] ] ] ]).
  right. inversion Ht; subst.
  destruct Hout as [|Hout]; [discriminate|]. injection Hout as <-.
  repeat split; auto. eauto.
Qed.

Lemma bare_errors_witness :
  (SdkError ErrApplicationExist = SdkError ErrWrongRequest
   /\ forallb before_Begin
        (calls (snd (run (importApplicationHandler (reference legacy false)
                            (request false)) (arrival db0)))) = true)
  \/ (SdkError ErrApplicationExist = SdkError ErrApplicationExist
      /\ FormBool_forceUpdate (request false) = false
      /\ db_Begin (reference legacy false) db0 = None
      /\ exists proj app s1,
           prelude (reference legacy false) (request false) (arrival db0)
           = (Continue (proj, app, true), s1)
           /\ snd (run (importApplicationHandler (reference legacy false)
                          (request false)) (arrival db0))
              = Rollback (begun s1)).
Proof.
  apply (bare_errors (reference legacy false) (request false) db0).
  vm_compute. reflexivity.
Defined.

(** ** Failures on the way out (lines 300-316) *)

(** X7.  The four failures of the way out.  With the transaction holding
    the pending rows [p]: when [project.UpdateLastModified] or
    [tx.Commit()] fails, the handler returns the wrapped error and the
    database is as it was when the way out began; when, after a commit
    that succeeded, [application.LoadAll] or [sanity.CheckApplication]
    fails, the handler returns a wrapped error as well, instead of the
    list, but the import stays: the pending rows are committed and the
    deferred rollback does not remove them. *)
Theorem failures_on_the_way_out (c : Collaborators) (proj : Project) (app : Application)
    (l : list string) (s : State) (p : list Row) :
  pending s = Some p ->
  (forall e,
      project_UpdateLastModified c (committed s ++ p) proj = inl e ->
      exists s',
        finish c proj app None l s
        = (Return (ReturnWrapError (Some e)
                     "importApplicationHandler> Unable to update project"), s')
        /\ committed (Rollback s') = committed s /\ pending (Rollback s') = None)
  /\ (forall rows e,
        project_UpdateLastModified c (committed s ++ p) proj = inr rows ->
        tx_Commit c (committed s) (p ++ rows) = Some e ->
        exists s',
          finish c proj app None l s
          = (Return (ReturnWrapError (Some e)
                       "importPipelineHandler> Cannot commit transaction"), s')
          /\ committed (Rollback s') = committed s /\ pending (Rollback s') = None)
  /\ (forall rows e,
        project_UpdateLastModified c (committed s ++ p) proj = inr rows ->
        tx_Commit c (committed s) (p ++ rows) = None ->
        application_LoadAll c (committed s ++ p ++ rows) (Key proj) = inl e ->
        exists s',
          finish c proj app None l s
          = (Return (ReturnWrapError (Some e)
                       "importPipelineHandler> Unable to reload applications for project %s"),
             s')
          /\ committed (Rollback s') = committed s ++ p ++ rows
          /\ pending (Rollback s') = None)
  /\ (forall rows apps e,
        project_UpdateLastModified c (committed s ++ p) proj = inr rows ->
        tx_Commit c (committed s) (p ++ rows) = None ->
        application_LoadAll c (committed s ++ p ++ rows) (Key proj) = inr apps ->
        sanity_CheckApplication c (committed s ++ p ++ rows)
          (with_Applications proj apps) app = inl e ->
        exists s',
          finish c proj app None l s
          = (Return (ReturnWrapError (Some e)
                       "importPipelineHandler> Cannot check warnings"),
             s')
          /\ committed (Rollback s') = committed s ++ p ++ rows
          /\ pending (Rollback s') = None).
Proof.
  intro Hp.
  assert (forall rows,
             project_UpdateLastModified c (committed s ++ p) proj = inr rows ->
             insert ViaTx (CallUpdateLastModified ViaTx)
               (fun rows0 => project_UpdateLastModified c rows0 proj)
               (fun err => ReturnWrapError (Some err)
                  "importApplicationHandler> Unable to update project") s
             = (Continue tt,
                {| committed := committed s; pending := Some (p ++ rows);
                   msgChan := msgChan s ++ []; closed := closed s;
                   calls := calls s ++ [CallUpdateLastModified ViaTx] |})) as Hins.
  { intros rows Hu. erewrite insert_answer.
    2:{ unfold visible. rewrite Hp. exact Hu. }
    unfold write, emit. simpl. now rewrite Hp. }
  assert (forall rows,
             project_UpdateLastModified c (committed s ++ p) proj = inr rows ->
             tx_Commit c (committed s) (p ++ rows) = None ->
             exists s1,
               (insert ViaTx (CallUpdateLastModified ViaTx)
                  (fun rows0 => project_UpdateLastModified c rows0 proj)
                  (fun err => ReturnWrapError (Some err)
                     "importApplicationHandler> Unable to update project") ;;
                Commit c) s = (Continue tt, s1)
               /\ committed s1 = committed s ++ p ++ rows /\ pending s1 = None)
    as Hcommit.
  { intros rows Hu Hc. eexists. split.
    - rewrite (bind_continue _ _ _ _ _ (Hins rows Hu)).
      unfold Commit, bind, log. simpl. rewrite Hc. reflexivity.
    - simpl. auto. }
  split; [|split; [|split]].
  - intros e Hu. eexists. split.
    + unfold finish. apply bind_return. erewrite insert_error; [reflexivity|].
      unfold visible. rewrite Hp. exact Hu.
    + simpl. auto.
  - intros rows e Hu Hc. eexists. split.
    + unfold finish. rewrite (bind_continue _ _ _ _ _ (Hins rows Hu)).
      apply bind_return. unfold Commit, bind, log. simpl. rewrite Hc. reflexivity.
    + simpl. auto.
  - intros rows e Hu Hc He.
    destruct (Hcommit rows Hu Hc) as (s1 & H1 & C1 & P1).
    eexists. split.
    + unfold finish. rewrite <- bind_assoc.
      rewrite (bind_continue _ _ _ _ _ H1).
      apply bind_return. erewrite query_error; [reflexivity|].
      simpl. rewrite C1. exact He.
    + simpl. rewrite C1, ?app_nil_r. auto.
  - intros rows apps e Hu Hc Ha He.
    destruct (Hcommit rows Hu Hc) as (s1 & H1 & C1 & P1).
    eexists. split.
    + unfold finish. rewrite <- bind_assoc.
      rewrite (bind_continue _ _ _ _ _ H1).
      erewrite bind_continue.
      2:{ apply query_answer. simpl. rewrite C1. exact Ha. }
      apply bind_return. erewrite insert_error; [reflexivity|].
      simpl. rewrite C1. exact He.
    + simpl. rewrite C1, ?app_nil_r. auto.
Qed.

Lemma failures_on_the_way_out_witness :
  fst (run (importApplicationHandler
              (with_faults (reference notified false) (fun _ => None)
                 (fun _ _ => inl (OtherError "connection lost"))
                 (fun data => inr {| Payload_Name := "web"; Payload_Rest := data |}))
              (request false)) (arrival db0))
  = ReturnWrapError (Some (OtherError "connection lost"))
      "importPipelineHandler> Unable to reload applications for project %s"
  /\ exists s',
       finish
         (with_faults (reference notified false) (fun _ => None)
            (fun _ _ => inl (OtherError "connection lost"))
            (fun data => inr {| Payload_Name := "web"; Payload_Rest := data |}))
         {| Project_ID := 1; Key := "PRJ"; Environments := []; Applications := [] |}
         notified None []
         {| committed := db0;
            pending := Some [ApplicationRow 1 "web"; NotificationRow 42 7 5];
            msgChan := []; closed := true; calls := [] |}
       = (Return (ReturnWrapError (Some (OtherError "connection lost"))
                    "importPipelineHandler> Unable to reload applications for project %s"),
          s')
       /\ committed (Rollback s')
          = db0 ++ [ApplicationRow 1 "web"; NotificationRow 42 7 5]
                ++ [ProjectModifiedRow "PRJ"]
       /\ pending (Rollback s') = None.
Proof.
  split; [vm_compute; reflexivity|].
  apply (proj1 (proj2 (proj2 (failures_on_the_way_out
                  (with_faults (reference notified false) (fun _ => None)
                     (fun _ _ => inl (OtherError "connection lost"))
                     (fun data => inr {| Payload_Name := "web"; Payload_Rest := data |}))
                  {| Project_ID := 1; Key := "PRJ"; Environments := [];
                     Applications := [] |}
                  notified []
                  {| committed := db0;
                     pending := Some [ApplicationRow 1 "web"; NotificationRow 42 7 5];
                     msgChan := []; closed := true; calls := [] |}
                  [ApplicationRow 1 "web"; NotificationRow 42 7 5] eq_refl)))
           [ProjectModifiedRow "PRJ"] (OtherError "connection lost")
           eq_refl eq_refl eq_refl).
Defined.

(** ** The verdict of the validator *)

(** X8.  On a store that answers every lookup the validator always comes
    back, having written nothing, and its verdict is exact: it leaves
    [globalError] nil, and has sent no message, exactly when the
    descriptor has no missing reference. *)
Theorem validation_verdict (c : Collaborators) (proj : Project) (app : Application)
    (ps : list ApplicationPipeline) (s : State) :
  lookups_answer c (visible ViaTx s) proj ->
  exists g s',
    checkPipelines c proj app ps None s = (Continue g, s')
    /\ (g = None <-> missing_references c (visible ViaTx s) proj app ps = [])
    /\ (msgChan s' = msgChan s
        <-> missing_references c (visible ViaTx s) proj app ps = [])
    /\ committed s' = committed s /\ pending s' = pending s.
Proof.
  intro Hans. rewrite (checkPipelines_complete _ _ _ _ _ _ Hans).
  eexists _, _. split; [reflexivity|].
  set (found := missing_references c (visible ViaTx s) proj app ps).
  split; [|split; [|split; reflexivity]].
  - split.
    + intro H. destruct found as [|x rest] eqn:E; [reflexivity|].
      rewrite (dominant_last None (x :: rest) x) in H; [discriminate|discriminate].
    + intros ->. reflexivity.
  - simpl. split.
    + intro H. rewrite <- (app_nil_r (msgChan s)) in H at 2.
      apply app_inv_head in H. destruct found; [reflexivity|discriminate].
    + intros ->. simpl. apply app_nil_r.
Qed.

Lemma validation_verdict_witness :
  exists g s',
    checkPipelines (reference legacy false)
      {| Project_ID := 1; Key := "PRJ"; Environments := []; Applications := [] |}
      legacy (Pipelines legacy) None (begun (arrival db0))
    = (Continue g, s')
    /\ g = None /\ msgChan s' = [].
Proof.
  destruct (validation_verdict (reference legacy false)
              {| Project_ID := 1; Key := "PRJ"; Environments := []; Applications := [] |}
              legacy (Pipelines legacy) (begun (arrival db0)))
    as (g & s' & H & Hg & Hm & _).
  - unfold lookups_answer. simpl. repeat split; intros; eexists; reflexivity.
  - exists g, s'. split; [exact H|]. split.
    + apply Hg. vm_compute. reflexivity.
    + apply Hm. vm_compute. reflexivity.
Defined.

(** ** The loops of the applier, when they complete *)

Lemma write_db_inv (rows : list Row) (s s' : State) :
  write ViaDb rows s = (Continue tt, s') ->
  committed s' = committed s ++ rows /\ pending s' = pending s
  /\ msgChan s' = msgChan s /\ closed s' = closed s /\ calls s' = calls s.
Proof. intro H. inversion H; subst. simpl. auto. Qed.

(** X9.  When the hook loop completes, every hook had a pipeline with a
    non-zero identifier, [hook.CreateHook] was called once per hook, in
    order, through [db], and one "hook created" message per hook was
    sent, in order; the transaction's pending rows are untouched and the
    database has only grown.  The poller loop does the same with
    [poller.Insert] and "poller created". *)
Theorem hook_and_poller_loops (c : Collaborators) (proj : Project) (app : Application) :
  (forall rm hooks s s',
      manageHooks c proj app rm hooks s = (Continue tt, s') ->
      Forall (fun h => Pipeline_ID (resolvePipeline (Pipelines app) (Hook_Pipeline h)) <> 0)
        hooks
      /\ msgChan s'
         = msgChan s
           ++ map (fun h => created MsgHookCreated app
                              (resolvePipeline (Pipelines app) (Hook_Pipeline h))) hooks
      /\ calls s'
         = calls s
           ++ map (fun h => CallCreateHook ViaDb
                              (resolvePipeline (Pipelines app) (Hook_Pipeline h))) hooks
      /\ pending s' = pending s /\ closed s' = closed s
      /\ exists rows, committed s' = committed s ++ rows)
  /\ (forall pollers s s',
        managePollers c proj app pollers s = (Continue tt, s') ->
        Forall (fun h => Pipeline_ID (resolvePipeline (Pipelines app) (Poller_Pipeline h))
                         <> 0) pollers
        /\ msgChan s'
           = msgChan s
             ++ map (fun h => created MsgPollerCreated app
                                (resolvePipeline (Pipelines app) (Poller_Pipeline h)))
                  pollers
        /\ calls s'
           = calls s
             ++ map (fun h => CallPollerInsert ViaDb
                                (resolvePipeline (Pipelines app) (Poller_Pipeline h)))
                  pollers
        /\ pending s' = pending s /\ closed s' = closed s
        /\ exists rows, committed s' = committed s ++ rows).
Proof.
  split.
  - intros rm hooks. induction hooks as [|h hooks IH]; intros s s' H;
      cbn [manageHooks map] in *.
    + inversion H; subst. rewrite !app_nil_r.
      repeat split; auto. exists []. now rewrite app_nil_r.
    + destruct (Pipeline_ID _ =? 0) eqn:Hid.
      { bind_continue_inv H. discriminate H. }
      apply Z.eqb_neq in Hid.
      bind_continue_inv H. bind_continue_inv H.
      match goal with I : insert _ _ _ _ _ = _ |- _ =>
        destruct x; apply insert_inv in I; destruct I as (rows & _ & W);
        apply write_db_inv in W; destruct W as (Wc & Wp & Wm & Wcl & Wk) end.
      match goal with S : send _ _ = _ |- _ => inversion S; subst; clear S end.
      apply IH in H. destruct H as (F & M & K & P & Cl & rows' & Cm).
      simpl in *.
      split; [constructor; assumption|].
      split; [rewrite M, Wm, app_nil_r, <- app_assoc; reflexivity|].
      split; [rewrite K, Wk, <- app_assoc; reflexivity|].
      split; [congruence|]. split; [congruence|].
      exists (rows ++ rows'). rewrite Cm, Wc, app_assoc. reflexivity.
  - intros pollers. induction pollers as [|h pollers IH]; intros s s' H;
      cbn [managePollers map] in *.
    + inversion H; subst. rewrite !app_nil_r.
      repeat split; auto. exists []. now rewrite app_nil_r.
    + destruct (Pipeline_ID _ =? 0) eqn:Hid.
      { bind_continue_inv H. discriminate H. }
      apply Z.eqb_neq in Hid.
      bind_continue_inv H. bind_continue_inv H.
      match goal with I : insert _ _ _ _ _ = _ |- _ =>
        destruct x; apply insert_inv in I; destruct I as (rows & _ & W);
        apply write_db_inv in W; destruct W as (Wc & Wp & Wm & Wcl & Wk) end.
      match goal with S : send _ _ = _ |- _ => inversion S; subst; clear S end.
      apply IH in H. destruct H as (F & M & K & P & Cl & rows' & Cm).
      simpl in *.
      split; [constructor; assumption|].
      split; [rewrite M, Wm, app_nil_r, <- app_assoc; reflexivity|].
      split; [rewrite K, Wk, <- app_assoc; reflexivity|].
      split; [congruence|]. split; [congruence|].
      exists (rows ++ rows'). rewrite Cm, Wc, app_assoc. reflexivity.
Qed.

Lemma hook_and_poller_loops_witness :
  exists s',
    manageHooks (reference one_hook false)
      {| Project_ID := 1; Key := "PRJ"; Environments := []; Applications := [] |}
      (Import_app (reference_Import db0
         {| Project_ID := 1; Key := "PRJ"; Environments := []; Applications := [] |}
         one_hook))
      {| RepositoriesManager_Name := "github" |}
      (Hooks one_hook) (begun (arrival db0))
    = (Continue tt, s')
    /\ msgChan s' = [created MsgHookCreated one_hook build]
    /\ calls s' = [CallBegin; CallCreateHook ViaDb build]
    /\ pending s' = Some [].
Proof.
  eexists. split; [vm_compute; reflexivity|].
  edestruct (proj1 (hook_and_poller_loops (reference one_hook false)
                      {| Project_ID := 1; Key := "PRJ"; Environments := [];
                         Applications := [] |}
                      (Import_app (reference_Import db0
                         {| Project_ID := 1; Key := "PRJ"; Environments := [];
                            Applications := [] |} one_hook)))
               {| RepositoriesManager_Name := "github" |}
               (Hooks one_hook) (begun (arrival db0))) as (_ & M & K & P & _).
  - vm_compute. reflexivity.
  - rewrite M, K, P. repeat split.
Defined.

(** X10.  When the notification loop completes, every notification had a
    non-zero pipeline identifier and a non-zero environment identifier,
    the insert was called once per notification, in order, through
    [tx], no message was sent and the database is untouched: what the
    loop wrote waits in the transaction. *)
Theorem notification_loop (c : Collaborators) (proj : Project) (app : Application)
    (notifs : list UserNotificationSettings) (s s' : State) :
  manageNotifications c proj app notifs s = (Continue tt, s') ->
  Forall (fun n =>
            lookupPipelineID (Pipelines app) (Pipeline_Name (Notif_Pipeline n)) <> 0
            /\ snd (resolveEnvironment c proj n) <> 0) notifs
  /\ calls s'
     = calls s
       ++ map (fun n => CallNotificationInsert ViaTx
                          (lookupPipelineID (Pipelines app)
                             (Pipeline_Name (Notif_Pipeline n)))
                          (snd (resolveEnvironment c proj n))) notifs
  /\ msgChan s' = msgChan s /\ committed s' = committed s /\ closed s' = closed s.
Proof.
  revert s; induction notifs as [|n notifs IH]; intros s H;
    cbn [manageNotifications map] in *.
  - inversion H; subst. rewrite app_nil_r. repeat split; auto.
  - destruct (resolveEnvironment c proj n) as [n' envID] eqn:Er.
    destruct (lookupPipelineID _ _ =? 0) eqn:Hp; [discriminate H|].
    destruct (envID =? 0) eqn:He; [discriminate H|].
    apply Z.eqb_neq in Hp, He.
    bind_continue_inv H.
    match goal with I : insert _ _ _ _ _ = _ |- _ =>
      destruct x; apply insert_inv in I; destruct I as (rows & _ & W) end.
    inversion W; subst. clear W.
    apply IH in H. destruct H as (F & K & M & C & Cl). simpl in *.
    cbn [snd].
    split; [constructor; [rewrite Er; auto|exact F]|].
    split; [rewrite K, <- app_assoc; reflexivity|].
    rewrite M, C, Cl, app_nil_r. auto.
Qed.

Lemma notification_loop_witness :
  exists s',
    manageNotifications (reference notified false)
      {| Project_ID := 1; Key := "PRJ";
         Environments := environments_of "PRJ" db0; Applications := [] |}
      (Import_app (reference_Import db0
         {| Project_ID := 1; Key := "PRJ";
            Environments := environments_of "PRJ" db0; Applications := [] |} notified))
      (Notifications notified) (begun (arrival db0))
    = (Continue tt, s')
    /\ calls s' = [CallBegin; CallNotificationInsert ViaTx 7 5]
    /\ msgChan s' = [] /\ committed s' = db0.
Proof.
  eexists. split; [vm_compute; reflexivity|].
  edestruct (notification_loop (reference notified false)
               {| Project_ID := 1; Key := "PRJ";
                  Environments := environments_of "PRJ" db0; Applications := [] |}
               (Import_app (reference_Import db0
                  {| Project_ID := 1; Key := "PRJ";
                     Environments := environments_of "PRJ" db0;
                     Applications := [] |} notified))
               (Notifications notified) (begun (arrival db0)))
    as (_ & K & M & C & _).
  - vm_compute. reflexivity.
  - rewrite K, M, C. repeat split.
Defined.

(** ** The two ways a pipeline name is resolved *)

(** X11.  Hooks and pollers (lines 180-187) and notifications (lines
    231-236, 250) resolve a pipeline name against the same usages, and
    agree whenever the hook or poller carries the identifier zero.  They
    differ when no usage has the name: the hook or poller keeps the
    identifier it carries, so a non-zero one lets it through, while a
    notification of the same name gets zero and is refused. *)
Theorem resolution_agreement (ps : list ApplicationPipeline) (h : Pipeline) :
  (Pipeline_ID h = 0 ->
   Pipeline_ID (resolvePipeline ps h) = lookupPipelineID ps (Pipeline_Name h))
  /\ ((exists p, In p ps /\ Pipeline_Name (AP_Pipeline p) = Pipeline_Name h) ->
      Pipeline_ID (resolvePipeline ps h) = lookupPipelineID ps (Pipeline_Name h))
  /\ ((forall p, In p ps -> Pipeline_Name (AP_Pipeline p) <> Pipeline_Name h) ->
      resolvePipeline ps h = h /\ lookupPipelineID ps (Pipeline_Name h) = 0).
Proof.
  split; [|split].
  - intro H0. induction ps as [|q ps IH]; simpl; [exact H0|].
    destruct (String.eqb _ _); [reflexivity|exact IH].
  - intros (p & Hin & Hn). induction ps as [|q ps IH]; simpl; [contradiction|].
    destruct (String.eqb (Pipeline_Name (AP_Pipeline q)) (Pipeline_Name h)) eqn:E;
      [reflexivity|].
    apply IH. destruct Hin as [->|Hin]; [|exact Hin].
    apply String.eqb_neq in E. contradiction.
  - intro H. split; [|now apply lookupPipelineID_absent].
    induction ps as [|q ps IH]; simpl; [reflexivity|].
    destruct (String.eqb (Pipeline_Name (AP_Pipeline q)) (Pipeline_Name h)) eqn:E.
    + apply String.eqb_eq in E. exfalso. apply (H q); simpl; auto.
    + apply IH. intros p Hp. apply H. simpl. auto.
Qed.

Lemma resolution_agreement_witness :
  resolvePipeline [usage "build" []] {| Pipeline_ID := 9; Pipeline_Name := "ghost" |}
  = {| Pipeline_ID := 9; Pipeline_Name := "ghost" |}
  /\ lookupPipelineID [usage "build" []] "ghost" = 0.
Proof.
  apply (proj2 (proj2 (resolution_agreement [usage "build" []]
                         {| Pipeline_ID := 9; Pipeline_Name := "ghost" |}))).
  intros p [<-|[]]. discriminate.
Defined.

(** ** Messages that add nothing to the output *)

Lemma filter_nil_iff {A} (p : A -> bool) (l : list A) :
  filter p l = [] <-> forall x, In x l -> p x = false.
Proof.
  induction l as [|a l IH]; simpl; [tauto|].
  destruct (p a) eqn:E.
  - split; [discriminate|]. intro H. specialize (H a (or_introl eq_refl)). congruence.
  - rewrite IH. split.
    + intros H x [<-|Hx]; auto.
    + intros H x Hx. apply H. auto.
Qed.

Lemma unseen_false_iff (acc : list string) (t : string) :
  unseen acc t = false <-> In t acc.
Proof.
  unfold unseen. rewrite negb_false_iff, existsb_exists. split.
  - intros (x & Hx & E). apply String.eqb_eq in E. now subst.
  - intro H. exists t. split; [exact H|apply String.eqb_refl].
Qed.

(** X12.  Later messages leave the rendered list as it is exactly when
    each of them renders to the empty text or to a text the list already
    holds. *)
Theorem render_suffix_adds_nothing (String_ : Message -> string -> string) (al : string)
    (l1 l2 : list Message) :
  render String_ al (l1 ++ l2) [] = render String_ al l1 []
  <-> forall m, In m l2 ->
        String_ m al = "" \/ In (String_ m al) (render String_ al l1 []).
Proof.
  rewrite render_app, render_from.
  set (acc := render String_ al l1 []).
  split.
  - intros H m Hm.
    assert (acc ++ filter (unseen acc) (first_occurrences (rendered String_ al l2))
            = acc ++ []) as H' by (rewrite app_nil_r; exact H).
    apply app_inv_head in H'. clear H. rename H' into H.
    rewrite filter_nil_iff in H.
    destruct (String.eqb (String_ m al) "") eqn:E.
    + apply String.eqb_eq in E. auto.
    + right. apply unseen_false_iff, H.
      apply first_occurrences_In, rendered_In.
      apply String.eqb_neq in E. eauto.
  - intro H.
    assert (filter (unseen acc) (first_occurrences (rendered String_ al l2)) = []) as ->.
    { apply filter_nil_iff. intros t Ht.
      apply first_occurrences_In, rendered_In in Ht.
      destruct Ht as (Hne & m & Hm & <-).
      apply unseen_false_iff. destruct (H m Hm); [contradiction|assumption]. }
    apply app_nil_r.
Qed.

(** ** A core import that fails (lines 174-177, 227, 292-296) *)

Lemma send_all_emit (ms : list Message) (s : State) :
  send_all ms s = (Continue tt, emit s ms []).
Proof.
  revert s; induction ms as [|m ms IH]; intro s; simpl.
  - unfold ret. now rewrite emit_nil.
  - rewrite (bind_continue _ _ _ _ _ (send_emit _ _)), IH, emit_emit. reflexivity.
Qed.

(** X13.  When validation has passed and [application.Import] fails with
    a [*sdk.Error], the applier attempts nothing else: the log goes from
    the import to the rollback.  The answer is the rendered list, with
    the messages the import had sent, under that error's status, and
    nothing is committed. *)
Theorem core_import_failure (c : Collaborators) (r : Request) (db : list Row)
    (proj : Project) (app : Application) (s1 s2 : State) (e : sdk_Error) :
  prelude c r (arrival db) = (Continue (proj, app, false), s1) ->
  db_Begin c db = None ->
  checkPipelines c proj app (Pipelines app) None (begun s1) = (Continue None, s2) ->
  Import_err (application_Import c (visible ViaTx s2) proj app) = Some (SdkError e) ->
  exists s',
    run (importApplicationHandler c r) (arrival db)
    = (WriteJSON
         (render (Message_String c) (Header_AcceptLanguage r)
            (msgChan s2
             ++ Import_msgs (application_Import c (visible ViaTx s2) proj app)
             ++ [zero_Message]) [])
         (Status c e),
       s')
    /\ calls s' = calls s2 ++ [CallImport ViaTx; CallRollback]
    /\ committed s' = db /\ pending s' = None.
Proof.
  intros Hp Hb Hv He.
  destruct (prelude_inv _ _ _ _ _ _ _ Hp) as (C & _). simpl in C.
  destruct (reads_only_checkPipelines _ _ _ _ _ _ _ _ Hv) as [C2 _]. simpl in C2.
  unfold run. rewrite (handler_after_Begin _ _ _ _ _ _ _ Hp Hb).
  unfold defer_Rollback, transaction. cbn [andb].
  rewrite (bind_continue _ _ _ _ _ Hv). cbv beta iota.
  assert (apply c proj app false s2
          = (Continue (Some (SdkError e),
                       Import_app (application_Import c (visible ViaTx s2) proj app)),
             snd (write ViaTx
                    (Import_rows (application_Import c (visible ViaTx s2) proj app))
                    (emit s2 (Import_msgs
                                (application_Import c (visible ViaTx s2) proj app))
                       [CallImport ViaTx])))) as Ha.
  { unfold apply, coreImport.
    rewrite bind_assoc. rewrite (bind_continue _ _ _ _ _ (log_emit _ _)).
    unfold bind at 1. cbv beta zeta. rewrite visible_emit.
    set (i := application_Import c (visible ViaTx s2) proj app) in *.
    rewrite (bind_continue _ _ _ _ _ (send_all_emit _ _)), emit_emit.
    cbn [List.app]. unfold bind, ret. simpl. rewrite He. reflexivity. }
  rewrite (bind_continue _ _ _ _ _ Ha). cbn [fst snd].
  rewrite (bind_continue _ _ _ _ _ (drain_and_render_run _ _ _)).
  eexists. split.
  - simpl. rewrite <- app_assoc. reflexivity.
  - simpl. rewrite <- app_assoc. simpl. rewrite C2. auto.
Qed.

Lemma core_import_failure_witness :
  exists s',
    run (importApplicationHandler
           (with_Import (reference one_hook false)
              (fun _ proj a =>
                 {| Import_err := Some (SdkError (ErrUnlisted 9));
                    Import_app := a;
                    Import_msgs := [sdk_NewMessage MsgAppCreated [ArgString (Name a)]];
                    Import_rows := [ApplicationRow (Project_ID proj) (Name a)] |}))
           (request false)) (arrival db0)
    = (WriteJSON ["Application web created"] 500, s')
    /\ committed s' = db0 /\ pending s' = None.
Proof.
  edestruct (core_import_failure
               (with_Import (reference one_hook false)
                  (fun _ proj a =>
                     {| Import_err := Some (SdkError (ErrUnlisted 9));
                        Import_app := a;
                        Import_msgs := [sdk_NewMessage MsgAppCreated [ArgString (Name a)]];
                        Import_rows := [ApplicationRow (Project_ID proj) (Name a)] |}))
               (request false) db0) as (s' & H & _ & C & P).
  - vm_compute. reflexivity.
  - reflexivity.
  - vm_compute. reflexivity.
  - reflexivity.
  - exists s'. split; [rewrite H; vm_compute; reflexivity|]. split; assumption.
Defined.

(** ** Permission groups (lines 84-92) *)

(** X14.  Loading the permission groups.  When the loop completes, the
    groups it yields are, in order, the groups [group.LoadGroup]
    returned for the names of the descriptor's groups, each with the
    permission it had, and the loop has called [group.LoadGroup] once
    per group.  When the group of one entry fails to load, the loop
    returns that error wrapped, having loaded the entries before it and
    none after it.  The application the prelude hands on has those
    loaded groups as its groups, and is in every other field the
    application the payload was transformed to. *)
Theorem group_loading (c : Collaborators) (s : State) :
  (forall gs gs' s',
      loadGroups c gs s = (Continue gs', s') ->
      Forall2 (fun eg eg' =>
                 Permission eg' = Permission eg
                 /\ group_LoadGroup c (committed s) (Group_Name (Group_of eg))
                    = inr (Group_of eg'))
        gs gs'
      /\ s' = emit s [] (map (fun eg => CallLoadGroup (Group_Name (Group_of eg))) gs))
  /\ (forall pre eg post e,
        Forall (fun eg0 =>
                  exists g, group_LoadGroup c (committed s) (Group_Name (Group_of eg0))
                            = inr g) pre ->
        group_LoadGroup c (committed s) (Group_Name (Group_of eg)) = inl e ->
        loadGroups c (pre ++ eg :: post) s
        = (Return (ReturnWrapError (Some e)
                     "importApplicationHandler> Error loading groups for permission"),
           emit s []
             (map (fun eg0 => CallLoadGroup (Group_Name (Group_of eg0))) (pre ++ [eg]))))
  /\ (forall r proj app exist s1,
        prelude c r s = (Continue (proj, app, exist), s1) ->
        exists payload app0,
          decodes c r payload
          /\ Payload_Application c payload = inr app0
          /\ Forall2 (loaded c (committed s)) (ApplicationGroups app0) (ApplicationGroups app)
          /\ ID app = ID app0 /\ Name app = Name app0
          /\ Pipelines app = Pipelines app0 /\ Hooks app = Hooks app0
          /\ RepositoryPollers app = RepositoryPollers app0
          /\ Notifications app = Notifications app0
          /\ App_RepositoriesManager app = App_RepositoriesManager app0
          /\ RepositoryFullname app = RepositoryFullname app0).
Proof.
  split; [|split].
  - intros gs. revert s. induction gs as [|eg gs IH]; intros s gs' s' H;
      cbn [loadGroups map] in H |- *.
    + inversion H; subst. split; [constructor|]. now rewrite emit_nil.
    + bind_continue_inv H. bind_continue_inv H. inversion H; subst. clear H.
      match goal with Q : query _ _ _ _ _ = _ |- _ =>
        apply query_inv in Q; destruct Q as [E ->] end.
      match goal with L : loadGroups _ _ _ = _ |- _ =>
        apply IH in L; destruct L as (F & ->) end.
      simpl in E. split.
      * constructor; [split; [reflexivity|exact E]|exact F].
      * now rewrite emit_emit.
  - intros pre. revert s. induction pre as [|eg0 pre IH]; intros s eg post e Hpre He;
      cbn [List.app loadGroups map].
    + apply bind_return. erewrite query_error; [reflexivity|exact He].
    + inversion Hpre as [|? ? (g & Hg) Hrest]; subst.
      erewrite bind_continue; [|apply query_answer; exact Hg].
      erewrite bind_return; [reflexivity|].
      rewrite (IH (emit s [] [CallLoadGroup (Group_Name (Group_of eg0))])
                 eg post e Hrest He).
      now rewrite emit_emit.
  - intros r proj app exist s1 H.
    apply prelude_yields in H.
    destruct H as (proj0 & payload & app0 & gs & _ & _ & D & _ & _ & A & L & ->).
    exists payload, app0. split; [exact D|]. split; [exact A|].
    split; [exact L|]. repeat split; reflexivity.
Qed.

Lemma group_loading_witness :
  Forall2 (fun eg eg' =>
             Permission eg' = Permission eg
             /\ group_LoadGroup (reference legacy false) db0 (Group_Name (Group_of eg))
                = inr (Group_of eg'))
    [ {| Group_of := {| Group_ID := 0; Group_Name := "ops" |}; Permission := 7 |};
      {| Group_of := {| Group_ID := 0; Group_Name := "dev" |}; Permission := 4 |} ]
    [ {| Group_of := {| Group_ID := 3; Group_Name := "ops" |}; Permission := 7 |};
      {| Group_of := {| Group_ID := 3; Group_Name := "dev" |}; Permission := 4 |} ]
  /\ emit (arrival db0) [] [CallLoadGroup "ops"; CallLoadGroup "dev"]
     = emit (arrival db0) []
         (map (fun eg => CallLoadGroup (Group_Name (Group_of eg)))
            [ {| Group_of := {| Group_ID := 0; Group_Name := "ops" |}; Permission := 7 |};
              {| Group_of := {| Group_ID := 0; Group_Name := "dev" |};
                 Permission := 4 |} ]).
Proof.
  apply (proj1 (group_loading (reference legacy false) (arrival db0))
           [ {| Group_of := {| Group_ID := 0; Group_Name := "ops" |}; Permission := 7 |};
             {| Group_of := {| Group_ID := 0; Group_Name := "dev" |}; Permission := 4 |} ]
           [ {| Group_of := {| Group_ID := 3; Group_Name := "ops" |}; Permission := 7 |};
             {| Group_of := {| Group_ID := 3; Group_Name := "dev" |}; Permission := 4 |} ]
           (emit (arrival db0) [] [CallLoadGroup "ops"; CallLoadGroup "dev"])).
  reflexivity.
Defined.
